(** * Collision-avoidance harness: simulation state, scenarios, camera and
      obstacle authoring

    A shallow embedding of the [Simulation], [Renderer] and [App] structs of
    the interactive harness, with scenarios and obstacle authoring (and of
    [initialize] as [src/main.cpp], the revision before them, has it), and
    the properties of its specification that concern them.

    Numbers are modelled as the program has them: [int] and [size_t] as
    [Z] with the conversions written out, [float] and [double] as IEEE 754
    binary32 and binary64 values ([spec_float] with round-to-nearest-even).
    The target is LP64: 32-bit [int], 64-bit [size_t].  The error of the
    camera's round trip is measured over the real numbers, from the
    rounding that [spec_float]'s operations perform. *)

From Stdlib Require Import ZArith List Bool Lia.
From Stdlib Require Import Floats.SpecFloat.
From Stdlib Require Import Reals Lra.
Import ListNotations.

Local Open Scope Z_scope.

(** ** Machine integers *)

Definition INT_MIN : Z := - 2 ^ 31.
Definition INT_MAX : Z := 2 ^ 31 - 1.
Definition SIZE_MAX : Z := 2 ^ 64 - 1.

(** Conversion of an integer value to [size_t] (value modulo 2^64). *)
Definition to_size_t (z : Z) : Z := z mod 2 ^ 64.

(** ** Floating point *)

(** [float] is binary32, [double] is binary64.  Both are [spec_float]
    values; every operation below returns a canonical value of its format. *)
Definition float : Type := spec_float.
Definition double : Type := spec_float.

Module F32.
Definition prec : Z := 24.
Definition emax : Z := 128.

Definition add : float -> float -> float := SFadd prec emax.
Definition sub : float -> float -> float := SFsub prec emax.
Definition mul : float -> float -> float := SFmul prec emax.
Definition div : float -> float -> float := SFdiv prec emax.
Definition opp : float -> float := SFopp.
Definition ltb : float -> float -> bool := SFltb.
Definition leb : float -> float -> bool := SFleb.

(** Integer to [float] conversion (rounds when the integer needs more
    than 24 bits). *)
Definition of_Z (z : Z) : float := binary_normalize prec emax z 0 false.

(** Narrowing conversion [double] to [float]. *)
Definition of_double (d : double) : float :=
  match d with
  | S754_finite s m e => binary_round prec emax s m e
  | _ => d
  end.
End F32.

Module F64.
Definition prec : Z := 53.
Definition emax : Z := 1024.

Definition add : double -> double -> double := SFadd prec emax.
Definition mul : double -> double -> double := SFmul prec emax.
Definition div : double -> double -> double := SFdiv prec emax.

Definition of_Z (z : Z) : double := binary_normalize prec emax z 0 false.

(** Widening conversion [float] to [double]: exact, the value is only
    brought to the canonical binary64 form. *)
Definition of_float (f : float) : double :=
  match f with
  | S754_finite s m e => binary_round prec emax s m e
  | _ => f
  end.

(** The literal [0.01]: the binary64 value nearest to 1/100. *)
Definition lit_0_01 : double := S754_finite false 5764607523034235 (-59).

(** [M_PI], the binary64 value nearest to pi (0x400921FB54442D18). *)
Definition M_PI : double := S754_finite false 7074237752028440 (-51).
End F64.

(** The [float] literals of the program. *)
Definition f0 : float := S754_zero false.            (* 0.0f, also int 0 *)
Definition f1 : float := F32.of_Z 1.                 (* 1.0f *)
Definition f1_5 : float := S754_finite false 12582912 (-23).   (* 1.5f *)

(** ** Faults

    What C++ leaves undefined or reports by an exception nobody catches
    ends the program; the model returns the fault instead of a state. *)

Inductive fault : Type :=
| NullSimulator      (* [simulator->] on the empty [unique_ptr] *)
| LengthError        (* [std::length_error] thrown by [vector::reserve] *)
| AgentOutOfRange.   (* [getAgentPosition] past the roster *)

Inductive result (A : Type) : Type :=
| Ok (a : A)
| Fault (f : fault).
Arguments Ok {A} a.
Arguments Fault {A} f.

Definition bind {A B : Type} (r : result A) (k : A -> result B) : result B :=
  match r with
  | Ok a => k a
  | Fault f => Fault f
  end.

Notation "x <- r ;; k" := (bind r (fun x => k))
  (at level 61, r at next level, right associativity).
Notation "' p <- r ;; k" := (bind r (fun x => let 'p := x in k))
  (at level 61, p pattern, r at next level, right associativity).

(** ** The external solver *)

Module RVO.

Record Vector2 : Type := mkVector2 { x : float; y : float }.

(** [-v] *)
Definition neg (v : Vector2) : Vector2 :=
  mkVector2 (F32.opp (x v)) (F32.opp (y v)).

(** [s * v] *)
Definition scale (s : float) (v : Vector2) : Vector2 :=
  mkVector2 (F32.mul s (x v)) (F32.mul s (y v)).

(** [v / s], computed by the library as [v * (1.0f / s)] *)
Definition divide (v : Vector2) (s : float) : Vector2 :=
  let invS := F32.div f1 s in
  mkVector2 (F32.mul (x v) invS) (F32.mul (y v) invS).

Definition polygon : Type := list Vector2.

Record AgentDefaults : Type := mkAgentDefaults {
  neighborDist_ : float;
  maxNeighbors_ : Z;
  timeHorizon_ : float;
  timeHorizonObst_ : float;
  radius_ : float;
  maxSpeed_ : float
}.

Record Agent : Type := mkAgent {
  position_ : Vector2;
  prefVelocity_ : Vector2;
  params_ : option AgentDefaults
}.

(** Modelled from the spec: the solver [RVO::RVOSimulator] is a library
    outside the repository, consumed through the interface of section 6
    of the specification.  The model keeps what the harness hands to it:
    the agent defaults, the agents in the order added, the polygons in
    the order added, and the polygon set the obstacle tree was last
    built from ([None] as long as obstacles were never processed). *)
Record RVOSimulator : Type := mkRVOSimulator {
  defaultAgent_ : option AgentDefaults;
  agents_ : list Agent;
  obstacles_ : list polygon;
  obstacleTree_ : option (list polygon);
  timeStep_ : float
}.

Definition new_RVOSimulator : RVOSimulator :=
  mkRVOSimulator None [] [] None f0.

Definition setAgentDefaults (sim : RVOSimulator) (d : AgentDefaults)
  : RVOSimulator :=
  mkRVOSimulator (Some d) (agents_ sim) (obstacles_ sim)
                 (obstacleTree_ sim) (timeStep_ sim).

(** [addAgent] returns the index of the new agent. *)
Definition addAgent (sim : RVOSimulator) (position : Vector2)
  : RVOSimulator * Z :=
  (mkRVOSimulator (defaultAgent_ sim)
                  (agents_ sim ++ [mkAgent position (mkVector2 f0 f0)
                                           (defaultAgent_ sim)])
                  (obstacles_ sim) (obstacleTree_ sim) (timeStep_ sim),
   Z.of_nat (length (agents_ sim))).

Definition getNumAgents (sim : RVOSimulator) : Z :=
  Z.of_nat (length (agents_ sim)).

Definition getAgentPosition (sim : RVOSimulator) (i : Z) : result Vector2 :=
  if (0 <=? i) && (i <? getNumAgents sim) then
    match nth_error (agents_ sim) (Z.to_nat i) with
    | Some a => Ok (position_ a)
    | None => Fault AgentOutOfRange
    end
  else Fault AgentOutOfRange.

Definition addObstacle (sim : RVOSimulator) (vertices : polygon)
  : RVOSimulator :=
  mkRVOSimulator (defaultAgent_ sim) (agents_ sim)
                 (obstacles_ sim ++ [vertices])
                 (obstacleTree_ sim) (timeStep_ sim).

Definition processObstacles (sim : RVOSimulator) : RVOSimulator :=
  mkRVOSimulator (defaultAgent_ sim) (agents_ sim) (obstacles_ sim)
                 (Some (obstacles_ sim)) (timeStep_ sim).

Definition agent_positions (sim : RVOSimulator) : list Vector2 :=
  map position_ (agents_ sim).

(** [a - b] *)
Definition minus (a b : Vector2) : Vector2 :=
  mkVector2 (F32.sub (x a) (x b)) (F32.sub (y a) (y b)).

(** [v[n] = a] on a vector, for [n] inside it. *)
Fixpoint set_nth {A : Type} (l : list A) (n : nat) (a : A) : list A :=
  match l, n with
  | [], _ => []
  | _ :: t, O => a :: t
  | h :: t, S n' => h :: set_nth t n' a
  end.

Definition setAgentPrefVelocity (sim : RVOSimulator) (i : Z)
           (prefVelocity : Vector2) : result RVOSimulator :=
  if (0 <=? i) && (i <? getNumAgents sim) then
    match nth_error (agents_ sim) (Z.to_nat i) with
    | Some a =>
        Ok (mkRVOSimulator
              (defaultAgent_ sim)
              (set_nth (agents_ sim) (Z.to_nat i)
                       (mkAgent (position_ a) prefVelocity (params_ a)))
              (obstacles_ sim) (obstacleTree_ sim) (timeStep_ sim))
    | None => Fault AgentOutOfRange
    end
  else Fault AgentOutOfRange.

Definition setTimeStep (sim : RVOSimulator) (timeStep : float)
  : RVOSimulator :=
  mkRVOSimulator (defaultAgent_ sim) (agents_ sim) (obstacles_ sim)
                 (obstacleTree_ sim) timeStep.

Definition pref_velocities (sim : RVOSimulator) : list Vector2 :=
  map prefVelocity_ (agents_ sim).

End RVO.

Import RVO.

(** ** [std::vector] *)

(** [max_size()] of a [std::vector<RVO::Vector2>] (two [float]s, 8 bytes):
    [PTRDIFF_MAX / sizeof(Vector2)]. *)
Definition vector_max_size : Z := (2 ^ 63 - 1) / 8.

(** [v.reserve(n)]: throws [std::length_error] when [n > max_size()],
    otherwise changes the capacity only. *)
Definition reserve {A : Type} (v : list A) (n : Z) : result (list A) :=
  if vector_max_size <? n then Fault LengthError else Ok v.

(** [v.empty()] *)
Definition empty {A : Type} (v : list A) : bool :=
  match v with [] => true | _ :: _ => false end.

(** [v.size()] *)
Definition size {A : Type} (v : list A) : Z := Z.of_nat (length v).

(** [v.back()] and [v[0]], for a vector known to be non-empty; the default
    stands for the undefined read of an empty vector and is never used. *)
Definition back (v : polygon) : Vector2 := last v (mkVector2 f0 f0).
Definition front (v : polygon) : Vector2 := hd (mkVector2 f0 f0) v.

(** Conversion of an integer value to [int] and to [uint32_t]. *)
Definition to_int (z : Z) : Z := (z + 2 ^ 31) mod 2 ^ 32 - 2 ^ 31.
Definition to_uint32 (z : Z) : Z := z mod 2 ^ 32.

(** ** [struct Simulation] *)

Module Simulation.

Inductive configuration_t : Type :=
| CIRCLE
| DEADLOCK
| _CONFIGURATION_COUNT.

Record options_t : Type := mkOptions {
  configuration : configuration_t;
  run_simulation : bool;
  show_goal : bool;
  time_scale : float;
  neighborDist : float;
  maxNeighbors : Z;
  timeHorizon : float;
  timeHorizonObst : float;
  radius : float;
  maxSpeed : float;
  numAgents : Z;
  circleRadius : float
}.

(** The data members.  [simulator] is a [unique_ptr], empty until the
    first [initialize]. *)
Record t : Type := mk {
  simulator : option RVOSimulator;
  goals : list Vector2;
  staging_obstacle : polygon;
  obstacles : list polygon
}.

(** [Simulation() = default] *)
Definition default : t := mk None [] [] [].

Definition deref (p : option RVOSimulator) : result RVOSimulator :=
  match p with
  | Some sim => Ok sim
  | None => Fault NullSimulator
  end.

Section Initialize.

(** [std::cos] and [std::sin] on [double], from the C library. *)
Variables cos sin : double -> double.

(** The start position of agent [i] in the circle scenario:
    [circleRadius * Vector2(cos(i * 2 * M_PI / numAgents),
                            sin(i * 2 * M_PI / numAgents))],
    with [i * 2] in [size_t], the angle in [double], the coordinates
    narrowed to [float] and the product in [float]. *)
Definition circle_position (options : options_t) (i : Z) : Vector2 :=
  let angle :=
    F64.div (F64.mul (F64.of_Z (to_size_t (i * 2))) F64.M_PI)
            (F64.of_Z (numAgents options)) in
  RVO.scale (circleRadius options)
            (mkVector2 (F32.of_double (cos angle))
                       (F32.of_double (sin angle))).

(** The body of [for (size_t i = 0; i < options.numAgents; ++i)], run
    for the [n] remaining values of [i]. *)
Fixpoint circle_loop (n : nat) (i : Z) (options : options_t)
         (sim : RVOSimulator) (goals : list Vector2)
  : result (RVOSimulator * list Vector2) :=
  match n with
  | O => Ok (sim, goals)
  | S n' =>
      let sim := fst (addAgent sim (circle_position options i)) in
      p <- getAgentPosition sim i ;;
      circle_loop n' (i + 1) options sim (goals ++ [RVO.neg p])
  end.

Definition initialize (options : options_t) (s : t) : result t :=
  let sim := new_RVOSimulator in
  let sim :=
    setAgentDefaults sim
      (mkAgentDefaults (neighborDist options)
                       (to_size_t (maxNeighbors options))
                       (timeHorizon options)
                       (timeHorizonObst options)
                       (radius options)
                       (maxSpeed options)) in
  let sim := fold_left addObstacle (obstacles s) sim in
  let sim := if negb (empty (obstacles s))
             then processObstacles sim else sim in
  let goals : list Vector2 := [] in
  match configuration options with
  | CIRCLE =>
      (* the [int] count is compared with, and passed as, a [size_t] *)
      let bound := to_size_t (numAgents options) in
      goals <- reserve goals bound ;;
      '(sim, goals) <- circle_loop (Z.to_nat bound) 0 options sim goals ;;
      Ok (mk (Some sim) goals (staging_obstacle s) (obstacles s))
  | DEADLOCK =>
      let r := radius options in
      let sim :=
        fst (addAgent sim (mkVector2 (F32.mul (F32.of_Z (-2)) r)
                                     (F32.of_Z 0))) in
      let goals := goals ++ [mkVector2 (F32.mul (F32.of_Z 10) r)
                                       (F32.of_Z 0)] in
      let sim :=
        fst (addAgent sim (mkVector2 (F32.mul (F32.of_Z 2) r)
                                     (F32.of_Z 0))) in
      let goals := goals ++ [mkVector2 (F32.mul (F32.of_Z (-10)) r)
                                       (F32.of_Z 0)] in
      Ok (mk (Some sim) goals (staging_obstacle s) (obstacles s))
  | _CONFIGURATION_COUNT =>
      Ok (mk (Some sim) goals (staging_obstacle s) (obstacles s))
  end.

End Initialize.

Definition commit_obstacle (s : t) : result t :=
  if 2 <? size (staging_obstacle s) then
    sim <- deref (simulator s) ;;
    let sim := addObstacle sim (staging_obstacle s) in
    let sim := processObstacles sim in
    Ok (mk (Some sim) (goals s) [] (obstacles s ++ [staging_obstacle s]))
  else
    Ok (mk (simulator s) (goals s) [] (obstacles s)).

(** [goals[i]]; reading past the end of the vector is undefined, the
    model reports the agent index as out of range. *)
Definition goal_at (goals : list Vector2) (i : Z) : result Vector2 :=
  if (0 <=? i) && (i <? size goals) then
    match nth_error goals (Z.to_nat i) with
    | Some g => Ok g
    | None => Fault AgentOutOfRange
    end
  else Fault AgentOutOfRange.

(** The body of the loop of [set_preferred_velocities], run for the [n]
    remaining values of [i]. *)
Fixpoint set_preferred_velocities_loop (n : nat) (i : Z)
         (goals : list Vector2) (sim : RVOSimulator) : result RVOSimulator :=
  match n with
  | O => Ok sim
  | S n' =>
      g <- goal_at goals i ;;
      p <- getAgentPosition sim i ;;
      let goalVector := RVO.minus g p in
      sim <- setAgentPrefVelocity sim i goalVector ;;
      set_preferred_velocities_loop n' (i + 1) goals sim
  end.

(** [for (int i = 0; i < static_cast<int>(simulator->getNumAgents()); ++i)] *)
Definition set_preferred_velocities (s : t) : result t :=
  sim <- deref (simulator s) ;;
  let bound := to_int (getNumAgents sim) in
  sim <- set_preferred_velocities_loop (Z.to_nat bound) 0 (goals s) sim ;;
  Ok (mk (Some sim) (goals s) (staging_obstacle s) (obstacles s)).

Section Step.

(** [RVOSimulator::doStep], the solver's own computation. *)
Variable doStep : RVOSimulator -> RVOSimulator.

Definition step (s : t) (dt : float) : result t :=
  sim <- deref (simulator s) ;;
  let sim := setTimeStep sim dt in
  let sim := doStep sim in
  Ok (mk (Some sim) (goals s) (staging_obstacle s) (obstacles s)).

End Step.

End Simulation.

(** ** The earlier revision

    [src/main.cpp] is the program before scenarios and obstacles were
    added: its [Simulation] has the solver and the goals only, and its
    [initialize] always runs the circle loop, the same text as above. *)

Module Early.

Record t : Type := mk {
  simulator : option RVOSimulator;
  goals : list Vector2
}.

Definition initialize (cos sin : double -> double)
           (options : Simulation.options_t) (s : t) : result t :=
  let sim := new_RVOSimulator in
  let sim :=
    setAgentDefaults sim
      (mkAgentDefaults (Simulation.neighborDist options)
                       (to_size_t (Simulation.maxNeighbors options))
                       (Simulation.timeHorizon options)
                       (Simulation.timeHorizonObst options)
                       (Simulation.radius options)
                       (Simulation.maxSpeed options)) in
  let goals : list Vector2 := [] in
  let bound := to_size_t (Simulation.numAgents options) in
  goals <- reserve goals bound ;;
  '(sim, goals) <-
    Simulation.circle_loop cos sin (Z.to_nat bound) 0 options sim goals ;;
  Ok (mk (Some sim) goals).

End Early.

(** ** [struct Renderer] *)

(** A [float] passed where SDL takes an [int]: truncation toward zero.
    C++ leaves the conversion undefined when the value does not fit (or is
    not a number); the model yields [INT_MIN] there, as x86 does. *)
Definition int_of_float (f : float) : Z :=
  match f with
  | S754_zero _ => 0
  | S754_finite s m e =>
      let a := match e with
               | Zneg p => Z.shiftr (Zpos m) (Zpos p)
               | _ => Z.shiftl (Zpos m) e
               end in
      let z := if s then - a else a in
      if (INT_MIN <=? z) && (z <=? INT_MAX) then z else INT_MIN
  | _ => INT_MIN
  end.

Module Renderer.

Record options_t : Type := mkOptions {
  scale : float;
  offset_x : float;
  offset_y : float
}.

(** The data members the transforms and the drawing read; [width] and
    [height] are [uint32_t]. *)
Record t : Type := mk {
  options : options_t;
  width : Z;
  height : Z
}.

Definition toScreenSpace (r : t) (point : Vector2) : Vector2 :=
  mkVector2
    (F32.add (F32.add (F32.of_Z (width r / 2)) (offset_x (options r)))
             (F32.mul (x point) (scale (options r))))
    (F32.sub (F32.add (F32.of_Z (height r / 2)) (offset_y (options r)))
             (F32.mul (y point) (scale (options r)))).

Definition fromScreenSpace (r : t) (point : Vector2) : Vector2 :=
  RVO.divide
    (mkVector2
       (F32.sub (F32.sub (x point) (F32.of_Z (width r / 2)))
                (offset_x (options r)))
       (F32.add (F32.add (F32.opp (y point)) (F32.of_Z (height r / 2)))
                (offset_y (options r))))
    (scale (options r)).

(** The SDL primitives issued for the staging obstacle. *)
Inductive draw_call : Type :=
| SDL_RenderDrawPoint (px py : Z)
| SDL_RenderDrawLine (x1 y1 x2 y2 : Z).

(** A line from a screen-space point to the pixel [(mx, my)]. *)
Definition line_to (point : Vector2) (mx my : Z) : draw_call :=
  SDL_RenderDrawLine (int_of_float (x point)) (int_of_float (y point)) mx my.

(** The last block of [draw] for the staging obstacle, after its
    vertices and the edges between them are drawn: the closing edge when
    the pointer is over the controls, the edges to the pointer
    ([SDL_GetMouseState] gives [(mouse_x, mouse_y)]) otherwise. *)
Definition draw_preview (r : t) (ui_want_capture_mouse : bool)
           (mouse_x mouse_y : Z) (staging_obstacle : polygon)
  : list draw_call :=
  if ui_want_capture_mouse then
    if 2 <? size staging_obstacle then
      let point_1 := toScreenSpace r (front staging_obstacle) in
      let point_2 := toScreenSpace r (back staging_obstacle) in
      [SDL_RenderDrawLine (int_of_float (x point_1))
                          (int_of_float (y point_1))
                          (int_of_float (x point_2))
                          (int_of_float (y point_2))]
    else []
  else
    (if negb (empty staging_obstacle) then
       [line_to (toScreenSpace r (front staging_obstacle)) mouse_x mouse_y]
     else [])
    ++
    (if 1 <? size staging_obstacle then
       [line_to (toScreenSpace r (back staging_obstacle)) mouse_x mouse_y]
     else []).

(** *** The rest of [draw] *)

(** The SDL calls of a frame. *)
Inductive sdl_call : Type :=
| SDL_RenderSetClipRect (cx cy cw ch : Z)
| SDL_SetRenderDrawColor (red green blue alpha : Z)
| SDL_RenderClear
| SDL_RenderDrawRect (rx ry rw rh : Z)
| Draw (c : draw_call)
| SDL_RenderPresent.

Definition SDL_ALPHA_OPAQUE : Z := 255.

(** [SDL_RenderDrawLine(renderer, a.x(), a.y(), b.x(), b.y())] and
    [SDL_RenderDrawPoint(renderer, a.x(), a.y())] on screen-space points. *)
Definition line_between (a b : Vector2) : sdl_call :=
  Draw (SDL_RenderDrawLine (int_of_float (x a)) (int_of_float (y a))
                           (int_of_float (x b)) (int_of_float (y b))).

Definition point_at (a : Vector2) : sdl_call :=
  Draw (SDL_RenderDrawPoint (int_of_float (x a)) (int_of_float (y a))).

(** The loop that draws a line from every agent to its goal, for the [n]
    remaining values of [i]. *)
Fixpoint draw_goals (r : t) (n : nat) (i : Z) (sim : RVOSimulator)
         (goals : list Vector2) : result (list sdl_call) :=
  match n with
  | O => Ok []
  | S n' =>
      p <- getAgentPosition sim i ;;
      g <- Simulation.goal_at goals i ;;
      let point := toScreenSpace r p in
      let goal := toScreenSpace r g in
      rest <- draw_goals r n' (i + 1) sim goals ;;
      Ok (line_between point goal :: rest)
  end.

(** One agent: a rectangle of side [2 * radius * scale] pixels around it,
    a single pixel when that side is 1 or less. *)
Definition draw_agent (r : t) (radius : float) (p : Vector2) : sdl_call :=
  let point := toScreenSpace r p in
  let w := int_of_float
             (F32.mul (F32.mul radius (F32.of_Z 2)) (scale (options r))) in
  let h := int_of_float
             (F32.mul (F32.mul radius (F32.of_Z 2)) (scale (options r))) in
  if (1 <? w) && (1 <? h) then
    SDL_RenderDrawRect
      (int_of_float (F32.sub (x point) (F32.mul radius (scale (options r)))))
      (int_of_float (F32.sub (y point) (F32.mul radius (scale (options r)))))
      w h
  else point_at point.

Fixpoint draw_agents (r : t) (radius : float) (n : nat) (i : Z)
         (sim : RVOSimulator) : result (list sdl_call) :=
  match n with
  | O => Ok []
  | S n' =>
      p <- getAgentPosition sim i ;;
      rest <- draw_agents r radius n' (i + 1) sim ;;
      Ok (draw_agent r radius p :: rest)
  end.

(** [for (auto i : obstacle)]: an edge from [previous] to each vertex in
    turn; returns the calls and the last value of [previous]. *)
Fixpoint draw_edges (r : t) (previous : Vector2) (obstacle : polygon)
  : list sdl_call * Vector2 :=
  match obstacle with
  | [] => ([], previous)
  | i :: rest =>
      let point := toScreenSpace r i in
      let '(calls, previous') := draw_edges r point rest in
      (line_between previous point :: calls, previous')
  end.

(** [for (const auto& obstacle : simulation.obstacles)] *)
Fixpoint draw_obstacles (r : t) (previous : Vector2)
         (obstacles : list polygon) : list sdl_call * Vector2 :=
  match obstacles with
  | [] => ([], previous)
  | obstacle :: rest =>
      if size obstacle <? 3 then draw_obstacles r previous rest
      else
        let previous := toScreenSpace r (back obstacle) in
        let '(calls, previous) := draw_edges r previous obstacle in
        let '(calls', previous) := draw_obstacles r previous rest in
        (calls ++ calls', previous)
  end.

(** The loop over the staged vertices, from index [i] on: every vertex
    as a point, and from the second on an edge from the one before. *)
Fixpoint draw_staging (r : t) (i : Z) (previous : Vector2)
         (staging_obstacle : polygon) : list sdl_call :=
  match staging_obstacle with
  | [] => []
  | v :: rest =>
      let point := toScreenSpace r v in
      point_at point
        :: (if 0 <? i then [line_between previous point] else [])
        ++ draw_staging r (i + 1) point rest
  end.

(** What [draw] renders, after the controls: the goals when asked for,
    the agents, the committed obstacles, the staging obstacle and its
    preview.  [previous] starts as [RVO::Vector2()], the origin. *)
Definition draw_scene (r : t) (simulation_options : Simulation.options_t)
           (simulation : Simulation.t) (ui_want_capture_mouse : bool)
           (mouse_x mouse_y : Z) : result (list sdl_call) :=
  goal_lines <-
    (if Simulation.show_goal simulation_options then
       sim <- Simulation.deref (Simulation.simulator simulation) ;;
       lines <- draw_goals r (Z.to_nat (getNumAgents sim)) 0 sim
                           (Simulation.goals simulation) ;;
       Ok (SDL_SetRenderDrawColor 63 63 63 SDL_ALPHA_OPAQUE :: lines)
     else Ok []) ;;
  sim <- Simulation.deref (Simulation.simulator simulation) ;;
  agents <- draw_agents r (Simulation.radius simulation_options)
                        (Z.to_nat (getNumAgents sim)) 0 sim ;;
  let '(obstacle_lines, previous) :=
    draw_obstacles r (mkVector2 f0 f0) (Simulation.obstacles simulation) in
  Ok ([SDL_RenderSetClipRect 0 0 (to_int (width r)) (to_int (height r));
       SDL_SetRenderDrawColor 0 0 0 SDL_ALPHA_OPAQUE;
       SDL_RenderClear]
      ++ goal_lines
      ++ SDL_SetRenderDrawColor 255 255 255 SDL_ALPHA_OPAQUE :: agents
      ++ SDL_SetRenderDrawColor 127 127 127 SDL_ALPHA_OPAQUE :: obstacle_lines
      ++ SDL_SetRenderDrawColor 127 127 127 SDL_ALPHA_OPAQUE
         :: draw_staging r 0 previous (Simulation.staging_obstacle simulation)
      ++ map Draw (draw_preview r ui_want_capture_mouse mouse_x mouse_y
                                (Simulation.staging_obstacle simulation))
      ++ [SDL_RenderPresent]).

(** What the controls window leaves behind in a frame.  Its widgets are
    the UI layer's: the values they leave in the two option structs and
    what the two buttons return are given, not computed. *)
Record ui_state : Type := mkUi {
  ui_options : options_t;
  ui_simulation_options : Simulation.options_t;
  add_obstacle_pressed : bool;
  reset_pressed : bool
}.

Section Draw.

Variables cos sin : double -> double.

(** [draw]: the controls first ("Add Obstacle" is shown, and can commit,
    only while something is staged; "Reset" re-initializes with the
    options as the widgets left them), then the scene. *)
Definition draw (r : t) (ui : ui_state) (ui_want_capture_mouse : bool)
           (mouse_x mouse_y : Z) (simulation : Simulation.t)
  : result (t * Simulation.options_t * Simulation.t * list sdl_call) :=
  let r := mk (ui_options ui) (width r) (height r) in
  let simulation_options := ui_simulation_options ui in
  simulation <-
    (if negb (empty (Simulation.staging_obstacle simulation)) then
       if add_obstacle_pressed ui
       then Simulation.commit_obstacle simulation
       else Ok simulation
     else Ok simulation) ;;
  simulation <-
    (if reset_pressed ui
     then Simulation.initialize cos sin simulation_options simulation
     else Ok simulation) ;;
  calls <- draw_scene r simulation_options simulation
                      ui_want_capture_mouse mouse_x mouse_y ;;
  Ok (r, simulation_options, simulation, calls).

End Draw.

(** *** [initialize] and [terminate] *)

(** The calls that create and release the window, the renderer and the
    UI context. *)
Inductive resource_call : Type :=
| SDL_Init
| SDL_CreateWindow
| SDL_CreateRenderer
| ImGui_CreateContext
| ImGuiSDL_Initialize
| ImGui_ImplSDL2_InitForOpenGL
| ImGuiSDL_Deinitialize
| ImGui_ImplSDL2_Shutdown
| ImGui_DestroyContext
| SDL_DestroyRenderer
| SDL_DestroyWindow
| SDL_Quit.

(** The three pointers of the struct: [true] for a pointer that is not
    null. *)
Record handles : Type := mkHandles {
  window : bool;
  renderer : bool;
  ui : bool
}.

(** [Renderer()] *)
Definition no_handles : handles := mkHandles false false false.

(** What SDL and the UI library answer during [initialize]. *)
Record sdl_answers : Type := mkAnswers {
  init_succeeds : bool;
  window_created : bool;
  renderer_created : bool;
  window_w : Z;
  window_h : Z;
  context_created : bool
}.

Definition terminate (h : handles) : handles * list resource_call :=
  (no_handles,
   (if ui h
    then [ImGuiSDL_Deinitialize; ImGui_ImplSDL2_Shutdown; ImGui_DestroyContext]
    else [])
   ++ (if renderer h then [SDL_DestroyRenderer] else [])
   ++ (if window h then [SDL_DestroyWindow] else [])
   ++ [SDL_Quit]).

(** [initialize]: the result, the struct with the window size stored,
    the pointers, and the calls made. *)
Definition initialize (a : sdl_answers) (r : t) (h : handles)
  : bool * t * handles * list resource_call :=
  if negb (init_succeeds a) then (false, r, h, [SDL_Init])
  else
    let h := mkHandles (window_created a) (renderer h) (ui h) in
    if negb (window h) then
      let '(h, calls) := terminate h in
      (false, r, h, [SDL_Init; SDL_CreateWindow] ++ calls)
    else
      let h := mkHandles (window h) (renderer_created a) (ui h) in
      if negb (renderer h) then
        let '(h, calls) := terminate h in
        (false, r, h, [SDL_Init; SDL_CreateWindow; SDL_CreateRenderer] ++ calls)
      else
        let r := mk (options r) (to_uint32 (window_w a))
                    (to_uint32 (window_h a)) in
        let h := mkHandles (window h) (renderer h) (context_created a) in
        if negb (ui h) then
          let '(h, calls) := terminate h in
          (false, r, h,
           [SDL_Init; SDL_CreateWindow; SDL_CreateRenderer;
            ImGui_CreateContext] ++ calls)
        else
          (true, r, h,
           [SDL_Init; SDL_CreateWindow; SDL_CreateRenderer;
            ImGui_CreateContext; ImGuiSDL_Initialize;
            ImGui_ImplSDL2_InitForOpenGL]).

End Renderer.

(** ** [class App] *)

Module App.

Record t : Type := mk {
  renderer : Renderer.t;
  simulation_options : Simulation.options_t;
  simulation : Simulation.t
}.

Definition SDL_BUTTON_LEFT : Z := 1.
Definition SDL_BUTTON_RIGHT : Z := 3.
Definition SDL_PRESSED : Z := 1.

Inductive SDL_Scancode : Type :=
| SDL_SCANCODE_ESCAPE
| SDL_SCANCODE_SPACE
| SDL_SCANCODE_BACKSPACE
| SDL_SCANCODE_OTHER.

(** The events [main_loop] looks at, with the fields it reads. *)
Inductive SDL_Event : Type :=
| SDL_QUIT
| SDL_MOUSEBUTTONDOWN (button clicks bx by_ : Z)
| SDL_MOUSEWHEEL (wheel_y : Z)
| SDL_MOUSEMOTION (state xrel yrel : Z)
| SDL_KEYDOWN (scancode : SDL_Scancode)
| SDL_OTHER.

(** An event together with what the UI layer reports when it is
    dispatched. *)
Record input : Type := mkInput {
  event : SDL_Event;
  ui_want_capture_mouse : bool;
  ui_want_capture_keyboard : bool
}.

(** [scale += wheel.y * 0.01 * scale; if (scale < 0) scale = 0.0f;]
    The product and the sum are computed in [double] and the sum is
    narrowed back to [float], to an infinity when it lies beyond the
    largest [float]. *)
Definition wheel_scale (scale : float) (wheel_y : Z) : float :=
  let scale' :=
    F32.of_double
      (F64.add (F64.of_float scale)
               (F64.mul (F64.mul (F64.of_Z wheel_y) F64.lit_0_01)
                        (F64.of_float scale))) in
  if F32.ltb scale' (F32.of_Z 0) then f0 else scale'.

Definition set_scale (r : Renderer.t) (s : float) : Renderer.t :=
  Renderer.mk
    (Renderer.mkOptions s (Renderer.offset_x (Renderer.options r))
                        (Renderer.offset_y (Renderer.options r)))
    (Renderer.width r) (Renderer.height r).

Definition add_offset (r : Renderer.t) (xrel yrel : Z) : Renderer.t :=
  Renderer.mk
    (Renderer.mkOptions
       (Renderer.scale (Renderer.options r))
       (F32.add (Renderer.offset_x (Renderer.options r)) (F32.of_Z xrel))
       (F32.add (Renderer.offset_y (Renderer.options r)) (F32.of_Z yrel)))
    (Renderer.width r) (Renderer.height r).

Definition push_staging (s : Simulation.t) (v : Vector2) : Simulation.t :=
  Simulation.mk (Simulation.simulator s) (Simulation.goals s)
                (Simulation.staging_obstacle s ++ [v])
                (Simulation.obstacles s).

Definition toggle_run (o : Simulation.options_t) : Simulation.options_t :=
  Simulation.mkOptions
    (Simulation.configuration o) (negb (Simulation.run_simulation o))
    (Simulation.show_goal o) (Simulation.time_scale o)
    (Simulation.neighborDist o) (Simulation.maxNeighbors o)
    (Simulation.timeHorizon o) (Simulation.timeHorizonObst o)
    (Simulation.radius o) (Simulation.maxSpeed o)
    (Simulation.numAgents o) (Simulation.circleRadius o).

Section MainLoop.

Variables cos sin : double -> double.

(** One turn of the body of [while (SDL_PollEvent(&event))].  The
    boolean is [false] when [main_loop] returns [false] at once. *)
Definition handle_event (app : t) (i : input) : result (bool * t) :=
  match event i with
  | SDL_QUIT => Ok (false, app)
  | SDL_MOUSEBUTTONDOWN button clicks bx by_ =>
      if negb (ui_want_capture_mouse i) then
        let clicked :=
          Renderer.fromScreenSpace
            (renderer app) (mkVector2 (F32.of_Z bx) (F32.of_Z by_)) in
        if (button =? SDL_BUTTON_LEFT) && (clicks =? 2) then
          Ok (true, mk (renderer app) (simulation_options app)
                       (push_staging (simulation app) clicked))
        else if button =? SDL_BUTTON_RIGHT then
          s <- Simulation.commit_obstacle
                 (push_staging (simulation app) clicked) ;;
          Ok (true, mk (renderer app) (simulation_options app) s)
        else Ok (true, app)
      else Ok (true, app)
  | SDL_MOUSEWHEEL wheel_y =>
      if negb (ui_want_capture_mouse i) then
        Ok (true,
            mk (set_scale (renderer app)
                          (wheel_scale
                             (Renderer.scale
                                (Renderer.options (renderer app)))
                             wheel_y))
               (simulation_options app) (simulation app))
      else Ok (true, app)
  | SDL_MOUSEMOTION state xrel yrel =>
      if (state =? SDL_PRESSED) && negb (ui_want_capture_mouse i) then
        Ok (true, mk (add_offset (renderer app) xrel yrel)
                     (simulation_options app) (simulation app))
      else Ok (true, app)
  | SDL_KEYDOWN scancode =>
      if negb (ui_want_capture_keyboard i) then
        match scancode with
        | SDL_SCANCODE_ESCAPE => Ok (false, app)
        | SDL_SCANCODE_SPACE =>
            Ok (true, mk (renderer app)
                         (toggle_run (simulation_options app))
                         (simulation app))
        | SDL_SCANCODE_BACKSPACE =>
            s <- Simulation.initialize cos sin (simulation_options app)
                                       (simulation app) ;;
            Ok (true, mk (renderer app) (simulation_options app) s)
        | SDL_SCANCODE_OTHER => Ok (true, app)
        end
      else Ok (true, app)
  | SDL_OTHER => Ok (true, app)
  end.

(** The event loop of [main_loop] over the pending events. *)
Fixpoint poll_events (app : t) (pending : list input)
  : result (bool * t) :=
  match pending with
  | [] => Ok (true, app)
  | i :: rest =>
      '(continue, app') <- handle_event app i ;;
      if continue then poll_events app' rest else Ok (false, app')
  end.

End MainLoop.

(** *** The whole of [main_loop] *)

(** What a frame receives from outside: the time since the last frame,
    the state of the controls, what the UI layer reports and where the
    pointer is while drawing, and the pending events. *)
Record frame : Type := mkFrame {
  dt : float;
  ui : Renderer.ui_state;
  drawing_capture_mouse : bool;
  mouse_x : Z;
  mouse_y : Z;
  pending : list input
}.

Section Frames.

Variables cos sin : double -> double.
Variable doStep : RVOSimulator -> RVOSimulator.

(** [App()]: the simulation is initialized with the options. *)
Definition construct (r : Renderer.t) (o : Simulation.options_t)
  : result t :=
  s <- Simulation.initialize cos sin o Simulation.default ;;
  Ok (mk r o s).

(** [main_loop]: draw, then advance the simulation when it runs, then
    handle the pending events.  Returns what [main_loop] returns, the
    state and the calls of [draw]. *)
Definition main_loop (app : t) (f : frame)
  : result (bool * t * list Renderer.sdl_call) :=
  '(r, o, s, calls) <-
    Renderer.draw cos sin (renderer app) (ui f) (drawing_capture_mouse f)
                  (mouse_x f) (mouse_y f) (simulation app) ;;
  s <- (if Simulation.run_simulation o then
          s <- Simulation.set_preferred_velocities s ;;
          Simulation.step doStep s (F32.mul (Simulation.time_scale o) (dt f))
        else Ok s) ;;
  '(continue, app') <- poll_events cos sin (mk r o s) (pending f) ;;
  Ok (continue, app', calls).

(** [while (main_loop()) {}] over the frames given: it stops at the first
    frame for which [main_loop] returns [false]. *)
Fixpoint run_frames (app : t) (frames : list frame) : result (bool * t) :=
  match frames with
  | [] => Ok (true, app)
  | f :: rest =>
      '(continue, app', _) <- main_loop app f ;;
      if continue then run_frames app' rest else Ok (false, app')
  end.

End Frames.

End App.

(** ** Concrete values for running the model *)

(** The member defaults of [Simulation::options_t]. *)
Definition default_sim_options : Simulation.options_t :=
  Simulation.mkOptions Simulation.CIRCLE false false
    (F32.of_Z 10) (F32.of_Z 15) 10 (F32.of_Z 10) (F32.of_Z 10)
    f1_5 (F32.of_Z 10) 250 (F32.of_Z 200).

Definition with_scenario (o : Simulation.options_t)
           (c : Simulation.configuration_t) (n : Z) : Simulation.options_t :=
  Simulation.mkOptions c
    (Simulation.run_simulation o) (Simulation.show_goal o)
    (Simulation.time_scale o) (Simulation.neighborDist o)
    (Simulation.maxNeighbors o) (Simulation.timeHorizon o)
    (Simulation.timeHorizonObst o) (Simulation.radius o)
    (Simulation.maxSpeed o) n (Simulation.circleRadius o).

(** The member defaults of [Renderer::options_t] in the 1280 x 768 window
    that [Renderer::initialize] creates. *)
Definition default_renderer : Renderer.t :=
  Renderer.mk (Renderer.mkOptions f1_5 (F32.of_Z 300) f0) 1280 768.

(** A concrete [cos] and [sin] on [double] (truncated power series summed
    in binary64), standing for the C library's when the model is run. *)
Module Libm.

Fixpoint series (n : nat) (k : Z) (term x2 : double) : double :=
  match n with
  | O => term
  | S n' =>
      let next :=
        F64.div (F64.mul (SFopp term) x2) (F64.of_Z ((k + 1) * (k + 2))) in
      F64.add term (series n' (k + 2) next x2)
  end.

Definition cos (a : double) : double :=
  series 14 0 (F64.of_Z 1) (F64.mul a a).

Definition sin (a : double) : double :=
  series 14 1 a (F64.mul a a).

End Libm.

Definition v2 (a b : Z) : Vector2 := mkVector2 (F32.of_Z a) (F32.of_Z b).

(** A triangle and a two-vertex fragment, in world coordinates. *)
Definition triangle : polygon := [v2 0 0; v2 10 0; v2 0 10].
Definition fragment : polygon := [v2 0 0; v2 10 0].

(** ** Auxiliary definitions for the statements *)

(** The roster after the positions [ps] are added one by one. *)
Definition add_agents (sim : RVOSimulator) (ps : list Vector2) : RVOSimulator :=
  fold_left (fun s p => fst (addAgent s p)) ps sim.

(** The circle positions of the agents [i], [i+1], ..., [i+n-1]. *)
Fixpoint circle_positions (cos sin : double -> double)
         (options : Simulation.options_t) (i : Z) (n : nat) : list Vector2 :=
  match n with
  | O => []
  | S n' =>
      Simulation.circle_position cos sin options i
        :: circle_positions cos sin options (i + 1) n'
  end.

(** The agent defaults [initialize] passes to [setAgentDefaults]. *)
Definition defaults_of (options : Simulation.options_t) : AgentDefaults :=
  mkAgentDefaults (Simulation.neighborDist options)
                  (to_size_t (Simulation.maxNeighbors options))
                  (Simulation.timeHorizon options)
                  (Simulation.timeHorizonObst options)
                  (Simulation.radius options)
                  (Simulation.maxSpeed options).

(** The solver [initialize] builds before it places agents: new, with the
    agent defaults of [options], holding the polygons [P] in order, its
    obstacle tree built from [P] when [P] is not empty. *)
Definition fresh_solver (options : Simulation.options_t) (P : list polygon)
  : RVOSimulator :=
  mkRVOSimulator (Some (defaults_of options)) [] P
                 (if empty P then None else Some P) f0.

(** The agent count is one [initialize] can place: what the "Number of
    Agents" slider (0 to 500) produces lies well inside. *)
Definition count_in_range (options : Simulation.options_t) : Prop :=
  0 <= Simulation.numAgents options <= INT_MAX.

(** The options are ones [initialize] can carry out: the agent count is
    in range when the scenario is the one that reads it. *)
Definition placeable (options : Simulation.options_t) : Prop :=
  Simulation.configuration options = Simulation.CIRCLE ->
  count_in_range options.

(** The scale after a sequence of wheel gestures. *)
Definition wheel_gestures (scale : float) (deltas : list Z) : float :=
  fold_left App.wheel_scale deltas scale.

(** The inputs of a sequence of wheel gestures outside the controls. *)
Definition wheel_inputs (deltas : list Z) : list App.input :=
  map (fun d => App.mkInput (App.SDL_MOUSEWHEEL d) false false) deltas.

(** ** Sample states *)

Definition square : polygon := [v2 20 20; v2 30 20; v2 30 30; v2 20 30].

(** A running simulation with one committed polygon and a triangle in the
    staging buffer. *)
Definition staged_triangle : Simulation.t :=
  Simulation.mk (Some (fresh_solver default_sim_options [square])) []
                triangle [square].

(** The application with one staged vertex, and a right click at pixel
    (955, 384) outside the controls. *)
Definition app_one_vertex : App.t :=
  App.mk default_renderer default_sim_options
         (Simulation.mk (Some (fresh_solver default_sim_options [square])) []
                        [v2 0 0] [square]).

Definition right_click : App.input :=
  App.mkInput (App.SDL_MOUSEBUTTONDOWN App.SDL_BUTTON_RIGHT 1 955 384)
              false false.

(** A simulation with a committed polygon and a two-vertex fragment being
    drawn. *)
Definition drawing_fragment : Simulation.t :=
  Simulation.mk (Some (fresh_solver default_sim_options [square])) []
                fragment [square].

(** The default options with four agents on the circle, with the
    deadlock scenario, and with an agent count of -1 and of 0. *)
Definition circle_of_four : Simulation.options_t :=
  with_scenario default_sim_options Simulation.CIRCLE 4.
Definition deadlock_options : Simulation.options_t :=
  with_scenario default_sim_options Simulation.DEADLOCK 250.
Definition negative_count : Simulation.options_t :=
  with_scenario default_sim_options Simulation.CIRCLE (-1).
Definition zero_count : Simulation.options_t :=
  with_scenario default_sim_options Simulation.CIRCLE 0.

(** Zooming in by 128 wheel gestures of a hundred notches, each of which
    doubles the scale, then one notch back. *)
Definition zoom_in : list Z := repeat 100 128.
Definition zoom_in_then_back : list Z := zoom_in ++ [-1].

(** Six wheel gestures of the largest [Sint32] amount, then one notch
    back. *)
Definition overflow_gestures : list Z :=
  [INT_MAX; INT_MAX; INT_MAX; INT_MAX; INT_MAX; INT_MAX; -1].

(** The application as [App()] leaves it before the first frame, the
    simulation not yet populated. *)
Definition app_at_start : App.t :=
  App.mk default_renderer default_sim_options Simulation.default.

(** ** Auxiliary definitions for the rest of the program *)

(** What a simulation keeps once it is initialized: it has a solver, one
    goal per agent, a roster an [int] can count, the committed polygons in
    the solver with its obstacle tree built from them, and no committed
    polygon with fewer than three vertices. *)
Definition consistent (s : Simulation.t) : Prop :=
  exists sim,
    Simulation.simulator s = Some sim
    /\ size (Simulation.goals s) = getNumAgents sim
    /\ getNumAgents sim <= INT_MAX
    /\ obstacles_ sim = Simulation.obstacles s
    /\ obstacleTree_ sim
       = (if empty (Simulation.obstacles s) then None
          else Some (Simulation.obstacles s))
    /\ Forall (fun p : polygon => 3 <= size p) (Simulation.obstacles s).

(** What the harness relies on in the solver's step: it moves agents, it
    does not add or drop any, and it leaves the obstacles alone. *)
Definition keeps_roster (doStep : RVOSimulator -> RVOSimulator) : Prop :=
  forall sim,
    length (agents_ (doStep sim)) = length (agents_ sim)
    /\ obstacles_ (doStep sim) = obstacles_ sim
    /\ obstacleTree_ (doStep sim) = obstacleTree_ sim.

(** A step that moves every agent by its preferred velocity times the
    time step and avoids nothing, to run the model with. *)
Definition coast (sim : RVOSimulator) : RVOSimulator :=
  mkRVOSimulator
    (defaultAgent_ sim)
    (map (fun a =>
            mkAgent
              (mkVector2
                 (F32.add (x (position_ a))
                          (F32.mul (x (prefVelocity_ a)) (timeStep_ sim)))
                 (F32.add (y (position_ a))
                          (F32.mul (y (prefVelocity_ a)) (timeStep_ sim))))
              (prefVelocity_ a) (params_ a))
         (agents_ sim))
    (obstacles_ sim) (obstacleTree_ sim) (timeStep_ sim).

(** A [float] that is a number of finite size, and a [float] zero. *)
Definition finite (f : float) : bool :=
  match f with
  | S754_zero _ | S754_finite _ _ _ => true
  | _ => false
  end.

Definition is_zero (f : float) : bool :=
  match f with S754_zero _ => true | _ => false end.

(** The outline [draw] gives a committed polygon: one edge into every
    vertex, from the vertex before it, the first from the last. *)
Definition outline (r : Renderer.t) (obstacle : polygon)
  : list Renderer.sdl_call :=
  map (fun e => Renderer.line_between (fst e) (snd e))
      (combine
         (map (Renderer.toScreenSpace r) (back obstacle :: removelast obstacle))
         (map (Renderer.toScreenSpace r) obstacle)).

(** The open polyline [draw] gives the staging obstacle: every vertex as
    a point, and an edge into every vertex but the first. *)
Definition polyline (r : Renderer.t) (staging : polygon)
  : list Renderer.sdl_call :=
  match staging with
  | [] => []
  | v :: rest =>
      Renderer.point_at (Renderer.toScreenSpace r v)
        :: flat_map
             (fun e =>
                [Renderer.point_at (Renderer.toScreenSpace r (snd e));
                 Renderer.line_between (Renderer.toScreenSpace r (fst e))
                                       (Renderer.toScreenSpace r (snd e))])
             (combine staging rest)
  end.

(** Input events: a double click of the left button and a click of the
    right button at a pixel, outside the controls. *)
Definition double_click (p : Z * Z) : App.input :=
  App.mkInput (App.SDL_MOUSEBUTTONDOWN App.SDL_BUTTON_LEFT 2 (fst p) (snd p))
              false false.

Definition right_click_at (p : Z * Z) : App.input :=
  App.mkInput (App.SDL_MOUSEBUTTONDOWN App.SDL_BUTTON_RIGHT 1 (fst p) (snd p))
              false false.

(** The world point of a pixel, as the event loop computes it. *)
Definition world_of (r : Renderer.t) (p : Z * Z) : Vector2 :=
  Renderer.fromScreenSpace r (mkVector2 (F32.of_Z (fst p)) (F32.of_Z (snd p))).

(** An event of the pointer while the controls capture the pointer, or a
    key press while they capture the keyboard. *)
Definition captured (i : App.input) : bool :=
  match App.event i with
  | App.SDL_MOUSEBUTTONDOWN _ _ _ _
  | App.SDL_MOUSEWHEEL _
  | App.SDL_MOUSEMOTION _ _ _ => App.ui_want_capture_mouse i
  | App.SDL_KEYDOWN _ => App.ui_want_capture_keyboard i
  | _ => false
  end.

(** The events that end [main_loop]: the quit event, and the Escape key
    when the controls do not capture the keyboard. *)
Definition stops (i : App.input) : bool :=
  match App.event i with
  | App.SDL_QUIT => true
  | App.SDL_KEYDOWN App.SDL_SCANCODE_ESCAPE =>
      negb (App.ui_want_capture_keyboard i)
  | _ => false
  end.

(** How often a call satisfying [f] occurs. *)
Definition calls_of (f : Renderer.resource_call -> bool)
           (l : list Renderer.resource_call) : nat :=
  length (filter f l).

Definition is_destroy_window (c : Renderer.resource_call) : bool :=
  match c with Renderer.SDL_DestroyWindow => true | _ => false end.
Definition is_destroy_renderer (c : Renderer.resource_call) : bool :=
  match c with Renderer.SDL_DestroyRenderer => true | _ => false end.
Definition is_destroy_context (c : Renderer.resource_call) : bool :=
  match c with Renderer.ImGui_DestroyContext => true | _ => false end.

(** The solver and the simulation of the deadlock scenario at the default
    radius, as [initialize] leaves them. *)
Definition two_agents_solver : RVOSimulator :=
  add_agents (fresh_solver deadlock_options []) [v2 (-3) 0; v2 3 0].

Definition two_agents : Simulation.t :=
  Simulation.mk (Some two_agents_solver) [v2 15 0; v2 (-15) 0] [] [].

(** The application in the deadlock scenario, and a sequence of events:
    two vertices are placed, the wheel is turned, the run flag is toggled,
    a right click closes the polygon, and the simulation is reset. *)
Definition app_two_agents : App.t :=
  App.mk default_renderer deadlock_options two_agents.

Definition sample_events : list App.input :=
  [double_click (700, 300);
   double_click (800, 300);
   App.mkInput (App.SDL_MOUSEWHEEL 3) false false;
   App.mkInput (App.SDL_KEYDOWN App.SDL_SCANCODE_SPACE) false false;
   right_click_at (750, 400);
   App.mkInput (App.SDL_MOUSEMOTION App.SDL_PRESSED 5 (-7)) false false;
   App.mkInput (App.SDL_KEYDOWN App.SDL_SCANCODE_BACKSPACE) false false].

(** The same gestures while the controls capture pointer and keyboard. *)
Definition captured_events : list App.input :=
  [App.mkInput (App.SDL_MOUSEBUTTONDOWN App.SDL_BUTTON_RIGHT 1 750 400)
               true true;
   App.mkInput (App.SDL_MOUSEWHEEL 3) true true;
   App.mkInput (App.SDL_MOUSEMOTION App.SDL_PRESSED 5 (-7)) true true;
   App.mkInput (App.SDL_KEYDOWN App.SDL_SCANCODE_BACKSPACE) true true].

(** The default camera zoomed out to a scale of zero. *)
Definition zero_scale_renderer : Renderer.t :=
  Renderer.mk (Renderer.mkOptions f0 (F32.of_Z 300) f0) 1280 768.

(** Answers of SDL and the UI library: all creations succeed; the
    renderer cannot be created. *)
Definition all_created : Renderer.sdl_answers :=
  Renderer.mkAnswers true true true 1280 768 true.

Definition no_renderer : Renderer.sdl_answers :=
  Renderer.mkAnswers true true false 1280 768 true.

(** The number a boolean stands for. *)
Definition count_if (b : bool) : nat := if b then 1%nat else 0%nat.

(** A frame: the controls leave the default camera and the deadlock
    options with the simulation running and the goals shown, no button is
    pressed, the pointer is at pixel (5, 5), and the events of
    [sample_events] are pending. *)
Definition running_options : Simulation.options_t :=
  Simulation.mkOptions Simulation.DEADLOCK true true
    (F32.of_Z 10) (F32.of_Z 15) 10 (F32.of_Z 10) (F32.of_Z 10)
    f1_5 (F32.of_Z 10) 250 (F32.of_Z 200).

Definition sample_frame : App.frame :=
  App.mkFrame (F32.of_Z 1)
              (Renderer.mkUi (Renderer.options default_renderer)
                             running_options false false)
              false 5 5 sample_events.

(** ** [App::run] and [main] *)

Module Main.

Definition EXIT_SUCCESS : Z := 0.
Definition EXIT_FAILURE : Z := 1.

Section Run.

Variables cos sin : double -> double.
Variable doStep : RVOSimulator -> RVOSimulator.

(** [run], for the answers SDL gives to [initialize] and the frames that
    follow.  The result is the exit code with the final state and
    pointers, or [None] while the loop is still going after the frames
    given; with it the resource calls made. *)
Definition run (app : App.t) (h : Renderer.handles)
           (a : Renderer.sdl_answers) (frames : list App.frame)
  : result (option (Z * App.t * Renderer.handles)
            * list Renderer.resource_call) :=
  let '(ok, r, h, calls) := Renderer.initialize a (App.renderer app) h in
  let app := App.mk r (App.simulation_options app) (App.simulation app) in
  if negb ok then Ok (Some (EXIT_FAILURE, app, h), calls)
  else
    '(continue, app) <- App.run_frames cos sin doStep app frames ;;
    if continue then Ok (None, calls)
    else
      let '(h, calls') := Renderer.terminate h in
      Ok (Some (EXIT_SUCCESS, app, h), calls ++ calls').

(** [main]: [App app; return app.run();] and, on the way out, the
    destructor of the renderer.  [r] holds the window size the struct has
    before [initialize] stores one, [o] the options.  The result is the
    exit code with the state the application is in when it is destroyed,
    and the resource calls made. *)
Definition main (r : Renderer.t) (o : Simulation.options_t)
           (a : Renderer.sdl_answers) (frames : list App.frame)
  : result (option (Z * App.t) * list Renderer.resource_call) :=
  app <- App.construct cos sin r o ;;
  '(exit, calls) <- run app Renderer.no_handles a frames ;;
  match exit with
  | None => Ok (None, calls)
  | Some (code, app, h) =>
      let '(_, calls') := Renderer.terminate h in
      Ok (Some (code, app), calls ++ calls')
  end.

End Run.

End Main.

(** All of SDL's answers are successes. *)
Definition all_succeed (a : Renderer.sdl_answers) : bool :=
  Renderer.init_succeeds a && Renderer.window_created a
  && Renderer.renderer_created a && Renderer.context_created a.

(** The renderer once [initialize] has stored the size of the window. *)
Definition with_window_size (r : Renderer.t) (a : Renderer.sdl_answers)
  : Renderer.t :=
  Renderer.mk (Renderer.options r)
              (to_uint32 (Renderer.window_w a))
              (to_uint32 (Renderer.window_h a)).

(** The resource calls of a start in which everything is created, and
    those of the way out after it: [terminate] in [run], then the
    destructor, which finds every pointer null. *)
Definition started : list Renderer.resource_call :=
  [Renderer.SDL_Init; Renderer.SDL_CreateWindow;
   Renderer.SDL_CreateRenderer; Renderer.ImGui_CreateContext;
   Renderer.ImGuiSDL_Initialize; Renderer.ImGui_ImplSDL2_InitForOpenGL].
Definition stopped : list Renderer.resource_call :=
  [Renderer.ImGuiSDL_Deinitialize; Renderer.ImGui_ImplSDL2_Shutdown;
   Renderer.ImGui_DestroyContext; Renderer.SDL_DestroyRenderer;
   Renderer.SDL_DestroyWindow; Renderer.SDL_Quit; Renderer.SDL_Quit].

(** A frame in which the quit event is pending. *)
Definition quit_frame : App.frame :=
  App.mkFrame (F32.of_Z 1)
              (Renderer.mkUi (Renderer.options default_renderer)
                             running_options false false)
              false 5 5 [App.mkInput App.SDL_QUIT false false].

(** ** The value of a [float], and the camera ranges of the round trip *)

(** What a shift record stands for: the mantissa [shr_m] is the quotient
    of [N] by [W], the round bit says whether the remainder reaches half
    of [W], the sticky bit whether the remainder is neither zero nor
    that half. *)
Definition shr_inv (N W : Z) (mrs : shr_record) : Prop :=
  0 <= shr_m mrs
  /\ 0 <= N - shr_m mrs * W < W
  /\ (shr_r mrs = true <-> W <= 2 * (N - shr_m mrs * W))
  /\ (shr_s mrs = true <->
      N - shr_m mrs * W <> 0 /\ 2 * (N - shr_m mrs * W) <> W).

(** [2 ^ e] and the real number a floating-point value stands for (zero
    for the values that are not numbers of finite size). *)
Definition bpow (e : Z) : R := powerRZ 2 e.

Definition F2R (f : spec_float) : R :=
  match f with
  | S754_finite s m e => (IZR (cond_Zopp s (Zpos m)) * bpow e)%R
  | _ => 0%R
  end.

(** A zero, or a mantissa that has all the digits of the format unless
    its exponent is the least one. *)
Definition good (prec emax : Z) (f : spec_float) : bool :=
  match f with
  | S754_zero _ => true
  | S754_finite _ m e =>
      (prec <=? Zdigits2 (Zpos m)) || (e <=? emin prec emax)
  | _ => false
  end.

Definition good32 (f : float) : bool := good F32.prec F32.emax f.

(** Half of the least positive [float]: the absolute part of a rounding
    error. *)
Definition eta : R := (bpow (-149) / 2)%R.

(** A [float] that is a binary32 number of finite size. *)
Definition binary32 (f : float) : bool :=
  finite f && valid_binary F32.prec F32.emax f.

(** Cameras and world points within the ranges of the round trip: a
    scale from 1/128 to 128 and offsets up to 131072 in magnitude (the
    "Zoom" slider runs from 0.01 to 100, the "Offset" sliders stay below
    102000 in a 1280 x 768 window), a window of at most 16384 pixels
    each way, and coordinates up to 1024 in magnitude (the circle radius
    is at most 1000). *)
Definition in_camera_range (r : Renderer.t) : Prop :=
  binary32 (Renderer.scale (Renderer.options r)) = true
  /\ binary32 (Renderer.offset_x (Renderer.options r)) = true
  /\ binary32 (Renderer.offset_y (Renderer.options r)) = true
  /\ (/ 128 <= F2R (Renderer.scale (Renderer.options r)) <= 128)%R
  /\ (Rabs (F2R (Renderer.offset_x (Renderer.options r))) <= 131072)%R
  /\ (Rabs (F2R (Renderer.offset_y (Renderer.options r))) <= 131072)%R
  /\ 0 <= Renderer.width r <= 16384
  /\ 0 <= Renderer.height r <= 16384.

Definition in_world_range (p : Vector2) : Prop :=
  binary32 (x p) = true /\ binary32 (y p) = true
  /\ (Rabs (F2R (x p)) <= 1024)%R /\ (Rabs (F2R (y p)) <= 1024)%R.

(** The least positive [float], 2^-149, and the greatest, [FLT_MAX]. *)
Definition FLT_TRUE_MIN : float := S754_finite false 1 (-149).
Definition FLT_MAX : float := S754_finite false 16777215 104.

(** The default camera zoomed out to the least positive scale, and a
    camera at scale 1 panned by 2^25 pixels. *)
Definition tiny_scale_renderer : Renderer.t :=
  Renderer.mk (Renderer.mkOptions FLT_TRUE_MIN (F32.of_Z 300) f0) 1280 768.
Definition far_offset_renderer : Renderer.t :=
  Renderer.mk (Renderer.mkOptions f1 (F32.of_Z (2 ^ 25)) f0) 1280 768.

(** ** The constants and the transforms, evaluated *)

Example lit_0_01_nearest :
  F64.div (F64.of_Z 1) (F64.of_Z 100) = F64.lit_0_01.
Proof. reflexivity. Qed.

Example M_PI_canonical :
  valid_binary F64.prec F64.emax F64.M_PI = true
  /\ F32.of_double F64.M_PI = S754_finite false 13176795 (-22).
Proof. split; reflexivity. Qed.

Example f1_5_three_halves : F32.div (F32.of_Z 3) (F32.of_Z 2) = f1_5.
Proof. reflexivity. Qed.

(** With the default camera the world point (10, 20) is drawn at pixel
    (955, 354), and that pixel is the world point (10, 20). *)
Example toScreenSpace_default :
  Renderer.toScreenSpace default_renderer (v2 10 20) = v2 955 354
  /\ Renderer.fromScreenSpace default_renderer (v2 955 354) = v2 10 20.
Proof. split; reflexivity. Qed.

(** One wheel notch up from the default scale gives 1.515, rounded to
    [float]; two hundred notches down are clamped to zero. *)
Example wheel_scale_default :
  App.wheel_scale f1_5 1 = S754_finite false 12708741 (-23)
  /\ App.wheel_scale f1_5 (-200) = f0.
Proof. split; reflexivity. Qed.

(** ** The solver model *)

Lemma add_agents_positions ps : forall sim,
  agent_positions (add_agents sim ps) = agent_positions sim ++ ps.
Proof.
  induction ps as [|p ps IH]; intro sim.
  - simpl. now rewrite app_nil_r.
  - change (add_agents sim (p :: ps))
      with (add_agents (fst (addAgent sim p)) ps).
    rewrite IH. unfold agent_positions. simpl.
    rewrite map_app. simpl. now rewrite <- app_assoc.
Qed.

Lemma add_agents_obstacles ps : forall sim,
  obstacles_ (add_agents sim ps) = obstacles_ sim
  /\ obstacleTree_ (add_agents sim ps) = obstacleTree_ sim.
Proof.
  induction ps as [|p ps IH]; intro sim; [easy|].
  destruct (IH (fst (addAgent sim p))) as [H1 H2].
  change (add_agents sim (p :: ps))
    with (add_agents (fst (addAgent sim p)) ps).
  now rewrite H1, H2.
Qed.

Lemma getNumAgents_positions sim :
  getNumAgents sim = Z.of_nat (length (agent_positions sim)).
Proof. unfold getNumAgents, agent_positions. now rewrite length_map. Qed.

Lemma addObstacle_all ps : forall sim,
  obstacles_ (fold_left addObstacle ps sim) = obstacles_ sim ++ ps
  /\ obstacleTree_ (fold_left addObstacle ps sim) = obstacleTree_ sim
  /\ agents_ (fold_left addObstacle ps sim) = agents_ sim
  /\ defaultAgent_ (fold_left addObstacle ps sim) = defaultAgent_ sim
  /\ timeStep_ (fold_left addObstacle ps sim) = timeStep_ sim.
Proof.
  induction ps as [|p ps IH]; intro sim; simpl.
  - now rewrite app_nil_r.
  - destruct (IH (addObstacle sim p)) as (H1 & H2 & H3 & H4 & H5).
    rewrite H1, H2, H3, H4, H5. simpl. now rewrite <- app_assoc.
Qed.

(** Reading back the position of the agent that was just added. *)
Lemma getAgentPosition_added sim p :
  getAgentPosition (fst (addAgent sim p)) (getNumAgents sim) = Ok p.
Proof.
  unfold getAgentPosition, getNumAgents. simpl.
  rewrite length_app. simpl.
  replace (0 <=? Z.of_nat (length (agents_ sim))) with true
    by (symmetry; apply Z.leb_le; lia).
  replace (Z.of_nat (length (agents_ sim))
           <? Z.of_nat (length (agents_ sim) + 1)) with true
    by (symmetry; apply Z.ltb_lt; lia).
  simpl. rewrite Nat2Z.id.
  rewrite nth_error_app2 by lia.
  now rewrite Nat.sub_diag.
Qed.

(** ** The circle loop *)

Section CircleLoop.

Variables cos sin : double -> double.
Variable options : Simulation.options_t.

Lemma circle_positions_length n : forall i,
  length (circle_positions cos sin options i n) = n.
Proof. induction n; intro i; simpl; auto. Qed.

Lemma circle_positions_nth n : forall i k,
  (k < n)%nat ->
  nth_error (circle_positions cos sin options i n) k
  = Some (Simulation.circle_position cos sin options (i + Z.of_nat k)).
Proof.
  induction n as [|n IH]; intros i k Hk; [lia|].
  destruct k as [|k]; simpl.
  - now rewrite Z.add_0_r.
  - rewrite IH by lia. do 2 f_equal. lia.
Qed.

(** The loop never faults on a solver whose roster has [i] agents: it
    adds the [n] next circle positions and stores their negations. *)
Lemma circle_loop_ok n : forall i sim goals,
  i = getNumAgents sim ->
  Simulation.circle_loop cos sin n i options sim goals
  = Ok (add_agents sim (circle_positions cos sin options i n),
        goals ++ map RVO.neg (circle_positions cos sin options i n)).
Proof.
  induction n as [|n IH]; intros i sim goals Hi;
    cbn [Simulation.circle_loop circle_positions map].
  - now rewrite app_nil_r.
  - subst i. rewrite getAgentPosition_added. cbn [bind].
    rewrite IH.
    + now rewrite <- app_assoc.
    + unfold getNumAgents. simpl. rewrite length_app. simpl. lia.
Qed.

End CircleLoop.

(** ** [initialize], case by case *)

Section InitializeCases.

Variables cos sin : double -> double.
Variable options : Simulation.options_t.
Variable s : Simulation.t.

(** The solver after the defaults are set and the committed polygons are
    added again and processed. *)
Lemma initialize_solver :
  (if negb (empty (Simulation.obstacles s))
   then processObstacles
          (fold_left addObstacle (Simulation.obstacles s)
                     (setAgentDefaults new_RVOSimulator (defaults_of options)))
   else fold_left addObstacle (Simulation.obstacles s)
                  (setAgentDefaults new_RVOSimulator (defaults_of options)))
  = fresh_solver options (Simulation.obstacles s).
Proof.
  destruct (addObstacle_all (Simulation.obstacles s)
              (setAgentDefaults new_RVOSimulator (defaults_of options)))
    as (H1 & H2 & H3 & H4 & H5).
  simpl in H1, H2, H3, H4, H5.
  unfold fresh_solver.
  destruct (fold_left addObstacle (Simulation.obstacles s)
              (setAgentDefaults new_RVOSimulator (defaults_of options)))
    as [d a o t ts].
  simpl in H1, H2, H3, H4, H5. subst.
  destruct (Simulation.obstacles s); reflexivity.
Qed.

Lemma to_size_t_count :
  count_in_range options ->
  to_size_t (Simulation.numAgents options) = Simulation.numAgents options.
Proof.
  unfold count_in_range, INT_MAX, to_size_t. intros H.
  apply Z.mod_small. lia.
Qed.

Lemma initialize_circle :
  Simulation.configuration options = Simulation.CIRCLE ->
  count_in_range options ->
  let ps := circle_positions cos sin options 0
              (Z.to_nat (Simulation.numAgents options)) in
  Simulation.initialize cos sin options s
  = Ok (Simulation.mk
          (Some (add_agents (fresh_solver options (Simulation.obstacles s))
                            ps))
          (map RVO.neg ps)
          (Simulation.staging_obstacle s) (Simulation.obstacles s)).
Proof.
  intros Hc Hn ps. unfold Simulation.initialize.
  rewrite Hc. fold (defaults_of options). rewrite initialize_solver.
  rewrite to_size_t_count by assumption.
  unfold reserve.
  replace (vector_max_size <? Simulation.numAgents options) with false.
  2:{ symmetry. apply Z.ltb_ge. unfold count_in_range, INT_MAX in Hn.
      unfold vector_max_size.
      assert (2 ^ 31 <= (2 ^ 63 - 1) / 8) by (vm_compute; discriminate).
      lia. }
  cbn [bind]. rewrite circle_loop_ok by reflexivity.
  reflexivity.
Qed.

Lemma initialize_deadlock :
  Simulation.configuration options = Simulation.DEADLOCK ->
  let r := Simulation.radius options in
  Simulation.initialize cos sin options s
  = Ok (Simulation.mk
          (Some (add_agents (fresh_solver options (Simulation.obstacles s))
                   [mkVector2 (F32.mul (F32.of_Z (-2)) r) f0;
                    mkVector2 (F32.mul (F32.of_Z 2) r) f0]))
          [mkVector2 (F32.mul (F32.of_Z 10) r) f0;
           mkVector2 (F32.mul (F32.of_Z (-10)) r) f0]
          (Simulation.staging_obstacle s) (Simulation.obstacles s)).
Proof.
  intros Hc r. unfold Simulation.initialize.
  rewrite Hc. fold (defaults_of options). rewrite initialize_solver.
  reflexivity.
Qed.

Lemma initialize_no_scenario :
  Simulation.configuration options = Simulation._CONFIGURATION_COUNT ->
  Simulation.initialize cos sin options s
  = Ok (Simulation.mk
          (Some (fresh_solver options (Simulation.obstacles s))) []
          (Simulation.staging_obstacle s) (Simulation.obstacles s)).
Proof.
  intros Hc. unfold Simulation.initialize.
  rewrite Hc. fold (defaults_of options). now rewrite initialize_solver.
Qed.

(** In every scenario, for placeable options, [initialize] returns a
    state; it keeps the staging buffer and the committed polygons, and
    its solver holds the committed polygons, processed when there are
    any. *)
Lemma initialize_returns :
  placeable options ->
  exists sim goals,
    Simulation.initialize cos sin options s
    = Ok (Simulation.mk (Some sim) goals
            (Simulation.staging_obstacle s) (Simulation.obstacles s))
    /\ obstacles_ sim = Simulation.obstacles s
    /\ obstacleTree_ sim
       = (if empty (Simulation.obstacles s) then None
          else Some (Simulation.obstacles s)).
Proof.
  intros Hn.
  destruct (Simulation.configuration options) eqn:Hc.
  - eexists _, _. split; [apply initialize_circle; auto|].
    apply add_agents_obstacles.
  - eexists _, _. split; [apply initialize_deadlock; assumption|].
    apply add_agents_obstacles.
  - eexists _, _. split; [apply initialize_no_scenario; assumption|].
    split; reflexivity.
Qed.

End InitializeCases.

(** ** Committing the staging obstacle *)

(** C1.  On a simulation that has a solver, [commit_obstacle] returns a
    state whose staging buffer is empty.  With three or more staged
    vertices the committed list gains exactly one polygon, the staging
    buffer itself with its vertices in order, the solver receives the same
    polygon after those it had, and its obstacle tree is rebuilt over all
    of them.  With fewer than three (two, say) the committed list and the
    solver are the ones before. *)
Theorem commit_obstacle_spec (s : Simulation.t) (sim : RVOSimulator) :
  Simulation.simulator s = Some sim ->
  exists s',
    Simulation.commit_obstacle s = Ok s'
    /\ Simulation.staging_obstacle s' = []
    /\ (3 <= size (Simulation.staging_obstacle s) ->
        Simulation.obstacles s'
        = Simulation.obstacles s ++ [Simulation.staging_obstacle s]
        /\ exists sim',
            Simulation.simulator s' = Some sim'
            /\ obstacles_ sim'
               = obstacles_ sim ++ [Simulation.staging_obstacle s]
            /\ obstacleTree_ sim'
               = Some (obstacles_ sim ++ [Simulation.staging_obstacle s])
            /\ agents_ sim' = agents_ sim)
    /\ (size (Simulation.staging_obstacle s) < 3 ->
        Simulation.obstacles s' = Simulation.obstacles s
        /\ Simulation.simulator s' = Simulation.simulator s).
Proof.
  intros Hsim. unfold Simulation.commit_obstacle.
  destruct (2 <? size (Simulation.staging_obstacle s)) eqn:Hsz.
  - apply Z.ltb_lt in Hsz. rewrite Hsim. cbn [Simulation.deref bind].
    eexists. split; [reflexivity|]. cbn.
    split; [reflexivity|]. split.
    + intros _. split; [reflexivity|].
      eexists. split; [reflexivity|]. cbn. auto.
    + intros Hlt. lia.
  - apply Z.ltb_ge in Hsz.
    eexists. split; [reflexivity|]. cbn.
    split; [reflexivity|]. split.
    + intros Hge. lia.
    + intros _. split; reflexivity.
Qed.

Lemma commit_obstacle_spec_witness :
  Simulation.simulator staged_triangle
  = Some (fresh_solver default_sim_options [square])
  /\ exists s',
      Simulation.commit_obstacle staged_triangle = Ok s'
      /\ Simulation.staging_obstacle s' = []
      /\ Simulation.obstacles s' = [square; triangle]
      /\ exists sim',
          Simulation.simulator s' = Some sim'
          /\ obstacles_ sim' = [square; triangle]
          /\ obstacleTree_ sim' = Some [square; triangle].
Proof.
  split; [reflexivity|].
  destruct (commit_obstacle_spec
              staged_triangle (fresh_solver default_sim_options [square])
              eq_refl)
    as (s' & Hc & Hst & Hge & _).
  destruct Hge as (Hobs & sim' & Hs & Ho & Ht & _);
    [vm_compute; discriminate|].
  exists s'. repeat split; try assumption.
  exists sim'. repeat split; assumption.
Defined.

(** Without a solver, committing three or more vertices dereferences the
    empty pointer. *)
Lemma commit_obstacle_null :
  Simulation.commit_obstacle (Simulation.mk None [] triangle [])
  = Fault NullSimulator.
Proof. reflexivity. Qed.

(** C10.  A right click outside the controls while fewer than two
    vertices are staged: the clicked world position is appended, the
    commit that follows finds at most two vertices, so the committed list
    and the solver stay as they were, and the staging buffer, the vertex
    just placed included, ends empty. *)
Theorem right_click_short_staging
        (cos sin : double -> double) (app : App.t) (i : App.input)
        (clicks bx by_ : Z) :
  App.event i = App.SDL_MOUSEBUTTONDOWN App.SDL_BUTTON_RIGHT clicks bx by_ ->
  App.ui_want_capture_mouse i = false ->
  size (Simulation.staging_obstacle (App.simulation app)) < 2 ->
  let sm := App.simulation app in
  let clicked :=
    Renderer.fromScreenSpace (App.renderer app)
                             (mkVector2 (F32.of_Z bx) (F32.of_Z by_)) in
  let pushed := App.push_staging sm clicked in
  let discarded :=
    Simulation.mk (Simulation.simulator sm) (Simulation.goals sm) []
                  (Simulation.obstacles sm) in
  Simulation.staging_obstacle pushed
  = Simulation.staging_obstacle sm ++ [clicked]
  /\ size (Simulation.staging_obstacle pushed) <= 2
  /\ Simulation.commit_obstacle pushed = Ok discarded
  /\ App.handle_event cos sin app i
     = Ok (true, App.mk (App.renderer app) (App.simulation_options app)
                        discarded).
Proof.
  intros Hev Hcap Hsz sm clicked pushed discarded.
  assert (Hpush : size (Simulation.staging_obstacle pushed) <= 2).
  { unfold pushed, App.push_staging, size in *. cbn.
    rewrite length_app. cbn. fold sm in Hsz. lia. }
  assert (Hcommit : Simulation.commit_obstacle pushed = Ok discarded).
  { unfold Simulation.commit_obstacle.
    replace (2 <? size (Simulation.staging_obstacle pushed)) with false
      by (symmetry; apply Z.ltb_ge; exact Hpush).
    reflexivity. }
  split; [reflexivity|]. split; [exact Hpush|]. split; [exact Hcommit|].
  unfold App.handle_event. rewrite Hev, Hcap. cbn [negb].
  replace ((App.SDL_BUTTON_RIGHT =? App.SDL_BUTTON_LEFT) && (clicks =? 2))
    with false by reflexivity.
  replace (App.SDL_BUTTON_RIGHT =? App.SDL_BUTTON_RIGHT) with true
    by reflexivity.
  fold sm. fold clicked. fold pushed. rewrite Hcommit. reflexivity.
Qed.

Lemma right_click_short_staging_witness :
  size (Simulation.staging_obstacle (App.simulation app_one_vertex)) < 2
  /\ App.handle_event Libm.cos Libm.sin app_one_vertex right_click
     = Ok (true,
           App.mk default_renderer default_sim_options
             (Simulation.mk (Some (fresh_solver default_sim_options [square]))
                            [] [] [square])).
Proof.
  split; [vm_compute; reflexivity|].
  apply (right_click_short_staging
           Libm.cos Libm.sin app_one_vertex right_click 1 955 384).
  - reflexivity.
  - reflexivity.
  - vm_compute. reflexivity.
Defined.

(** ** Re-initialization *)

(** C3, as the program has it.  [initialize] returns a state whose staging
    buffer is the one it was given: a polygon being drawn survives a
    reset, vertex for vertex. *)
Theorem initialize_keeps_staging
        (cos sin : double -> double)
        (options : Simulation.options_t) (s : Simulation.t) :
  placeable options ->
  exists s',
    Simulation.initialize cos sin options s = Ok s'
    /\ Simulation.staging_obstacle s' = Simulation.staging_obstacle s.
Proof.
  intros Hn.
  destruct (initialize_returns cos sin options s Hn) as (sim & goals & H & _).
  eexists. split; [exact H|reflexivity].
Qed.

Lemma initialize_keeps_staging_witness :
  placeable circle_of_four
  /\ exists s',
      Simulation.initialize Libm.cos Libm.sin circle_of_four drawing_fragment
      = Ok s'
      /\ Simulation.staging_obstacle s' = fragment.
Proof.
  assert (H : placeable circle_of_four)
    by (intros _; unfold count_in_range, INT_MAX; cbn; lia).
  split; [exact H|].
  exact (initialize_keeps_staging
           Libm.cos Libm.sin circle_of_four drawing_fragment H).
Defined.

(** C3 as stated fails: a reset with a two-vertex fragment in the staging
    buffer returns a state that still holds the fragment. *)
Lemma initialize_staging_not_cleared :
  Simulation.staging_obstacle drawing_fragment <> []
  /\ exists s',
      Simulation.initialize Libm.cos Libm.sin circle_of_four drawing_fragment
      = Ok s'
      /\ Simulation.staging_obstacle s' <> [].
Proof.
  split; [discriminate|].
  eexists. split.
  - apply initialize_circle; [reflexivity|].
    unfold count_in_range, INT_MAX; cbn; lia.
  - cbn. discriminate.
Qed.

(** C4.  [initialize] returns a state with the committed polygons it was
    given; its solver is a new one, the same whatever the solver before,
    and holds exactly those polygons in their order, its obstacle tree
    built from them when there is at least one and not built otherwise. *)
Theorem initialize_keeps_obstacles
        (cos sin : double -> double)
        (options : Simulation.options_t) (s : Simulation.t) :
  placeable options ->
  exists s' sim',
    Simulation.initialize cos sin options s = Ok s'
    /\ Simulation.obstacles s' = Simulation.obstacles s
    /\ Simulation.simulator s' = Some sim'
    /\ obstacles_ sim' = Simulation.obstacles s
    /\ obstacleTree_ sim'
       = (if empty (Simulation.obstacles s) then None
          else Some (Simulation.obstacles s))
    /\ forall old goals,
        Simulation.initialize cos sin options
          (Simulation.mk old goals (Simulation.staging_obstacle s)
                         (Simulation.obstacles s))
        = Ok s'.
Proof.
  intros Hn.
  destruct (initialize_returns cos sin options s Hn)
    as (sim & goals & H & Ho & Ht).
  eexists _, sim. split; [exact H|].
  cbn. repeat split; try assumption.
  intros old goals'. rewrite <- H. reflexivity.
Qed.

Lemma initialize_keeps_obstacles_witness :
  placeable circle_of_four
  /\ exists s' sim',
      Simulation.initialize Libm.cos Libm.sin circle_of_four drawing_fragment
      = Ok s'
      /\ Simulation.obstacles s' = [square]
      /\ Simulation.simulator s' = Some sim'
      /\ obstacles_ sim' = [square]
      /\ obstacleTree_ sim' = Some [square].
Proof.
  assert (H : placeable circle_of_four)
    by (intros _; unfold count_in_range, INT_MAX; cbn; lia).
  split; [exact H|].
  destruct (initialize_keeps_obstacles
              Libm.cos Libm.sin circle_of_four drawing_fragment H)
    as (s' & sim' & H1 & H2 & H3 & H4 & H5 & _).
  exists s', sim'. repeat split; assumption.
Defined.

(** ** Scenarios *)

(** C2.  In the circle scenario with [N >= 1] agents, [initialize] returns
    a state with [N] agents and [N] goals.  Agent [i] stands at
    [r * (cos (i * 2 * pi / N), sin (i * 2 * pi / N))], the angle computed
    in [double] from [M_PI], the cosine and sine narrowed to [float] and
    multiplied by the circle radius [r] in [float]; agent 0 is at angle 0.
    Goal [i] is the negation of that position, coordinate by
    coordinate. *)
Theorem initialize_circle_placement
        (cos sin : double -> double)
        (options : Simulation.options_t) (s : Simulation.t) :
  Simulation.configuration options = Simulation.CIRCLE ->
  1 <= Simulation.numAgents options <= INT_MAX ->
  let N := Simulation.numAgents options in
  let r := Simulation.circleRadius options in
  let angle (i : Z) : double :=
    F64.div (F64.mul (F64.of_Z (i * 2)) F64.M_PI) (F64.of_Z N) in
  let position (i : Z) : Vector2 :=
    mkVector2 (F32.mul r (F32.of_double (cos (angle i))))
              (F32.mul r (F32.of_double (sin (angle i)))) in
  exists s' sim',
    Simulation.initialize cos sin options s = Ok s'
    /\ Simulation.simulator s' = Some sim'
    /\ getNumAgents sim' = N
    /\ size (Simulation.goals s') = N
    /\ angle 0 = F64.div (S754_zero false) (F64.of_Z N)
    /\ forall i, 0 <= i < N ->
         getAgentPosition sim' i = Ok (position i)
         /\ nth_error (Simulation.goals s') (Z.to_nat i)
            = Some (mkVector2 (F32.opp (x (position i)))
                              (F32.opp (y (position i)))).
Proof.
  intros Hc HN N r angle position.
  assert (Hn : count_in_range options) by (unfold count_in_range; lia).
  pose proof (initialize_circle cos sin options s Hc Hn) as H.
  cbv zeta in H.
  remember (circle_positions cos sin options 0
              (Z.to_nat (Simulation.numAgents options))) as ps eqn:Eps.
  assert (Hlen : length ps = Z.to_nat N)
    by (subst ps; apply circle_positions_length).
  assert (Hpos : agent_positions
                   (add_agents
                      (fresh_solver options (Simulation.obstacles s)) ps)
                 = ps)
    by (rewrite add_agents_positions; reflexivity).
  assert (Hnth : forall i, 0 <= i < N ->
                           nth_error ps (Z.to_nat i) = Some (position i)).
  { intros i Hi. subst ps.
    rewrite circle_positions_nth by (fold N; lia).
    rewrite Z2Nat.id by lia. cbn [Z.add].
    unfold Simulation.circle_position, position, angle, RVO.scale, N, r.
    cbn [x y].
    replace (to_size_t (i * 2)) with (i * 2); [reflexivity|].
    unfold to_size_t. symmetry. apply Z.mod_small.
    unfold INT_MAX in HN. lia. }
  eexists _, _. split; [exact H|]. cbn [Simulation.simulator Simulation.goals].
  split; [reflexivity|].
  split; [rewrite getNumAgents_positions, Hpos, Hlen; unfold N; lia|].
  split; [unfold size; rewrite length_map, Hlen; unfold N; lia|].
  split; [reflexivity|].
  intros i Hi. split.
  - unfold getAgentPosition.
    rewrite getNumAgents_positions, Hpos, Hlen.
    replace (0 <=? i) with true by (symmetry; apply Z.leb_le; lia).
    replace (i <? Z.of_nat (Z.to_nat N)) with true
      by (symmetry; apply Z.ltb_lt; lia).
    cbn [andb].
    pose proof (Hnth i Hi) as Hp.
    rewrite <- Hpos in Hp. unfold agent_positions in Hp.
    rewrite nth_error_map in Hp.
    destruct (nth_error _ (Z.to_nat i)) as [a|]; [|discriminate].
    cbn in Hp. congruence.
  - rewrite nth_error_map, (Hnth i Hi). reflexivity.
Qed.

Lemma initialize_circle_placement_witness :
  Simulation.configuration circle_of_four = Simulation.CIRCLE
  /\ 1 <= Simulation.numAgents circle_of_four <= INT_MAX
  /\ exists s' sim',
      Simulation.initialize Libm.cos Libm.sin circle_of_four Simulation.default
      = Ok s'
      /\ Simulation.simulator s' = Some sim'
      /\ getNumAgents sim' = 4
      /\ size (Simulation.goals s') = 4.
Proof.
  assert (H : 1 <= Simulation.numAgents circle_of_four <= INT_MAX)
    by (unfold INT_MAX; cbn; lia).
  split; [reflexivity|]. split; [exact H|].
  destruct (initialize_circle_placement
              Libm.cos Libm.sin circle_of_four Simulation.default eq_refl H)
    as (s' & sim' & H1 & H2 & H3 & H4 & _).
  exists s', sim'. repeat split; assumption.
Defined.

(** One agent on the default circle of radius 200: it stands at (200, 0)
    and its goal is (-200, -0), the second coordinate being the negative
    zero that negating [+0] gives. *)
Example circle_of_one :
  exists sim,
    Simulation.initialize Libm.cos Libm.sin
      (with_scenario default_sim_options Simulation.CIRCLE 1)
      Simulation.default
    = Ok (Simulation.mk (Some sim)
            [mkVector2 (F32.of_Z (-200)) (S754_zero true)] [] [])
    /\ agent_positions sim = [v2 200 0].
Proof. eexists. split; vm_compute; reflexivity. Qed.

(** C5.  In the deadlock scenario [initialize] returns a state with
    exactly two agents whatever the configured agent count: agent 0 at
    [(-2 * r, 0)] with goal [(10 * r, 0)] and agent 1 at [(2 * r, 0)] with
    goal [(-10 * r, 0)], for the agent radius [r], the products in
    [float].  For [r = 1.5] these are (-3, 0), (3, 0) and the goals
    (15, 0), (-15, 0). *)
Theorem initialize_deadlock_placement
        (cos sin : double -> double)
        (options : Simulation.options_t) (s : Simulation.t) :
  Simulation.configuration options = Simulation.DEADLOCK ->
  let r := Simulation.radius options in
  exists s' sim',
    Simulation.initialize cos sin options s = Ok s'
    /\ Simulation.simulator s' = Some sim'
    /\ getNumAgents sim' = 2
    /\ agent_positions sim'
       = [mkVector2 (F32.mul (F32.of_Z (-2)) r) (F32.of_Z 0);
          mkVector2 (F32.mul (F32.of_Z 2) r) (F32.of_Z 0)]
    /\ Simulation.goals s'
       = [mkVector2 (F32.mul (F32.of_Z 10) r) (F32.of_Z 0);
          mkVector2 (F32.mul (F32.of_Z (-10)) r) (F32.of_Z 0)]
    /\ (r = f1_5 ->
        agent_positions sim' = [v2 (-3) 0; v2 3 0]
        /\ Simulation.goals s' = [v2 15 0; v2 (-15) 0]).
Proof.
  intros Hc r.
  pose proof (initialize_deadlock cos sin options s Hc) as H.
  cbv zeta in H. fold r in H.
  eexists _, _. split; [exact H|].
  cbn [Simulation.simulator Simulation.goals].
  split; [reflexivity|].
  split; [reflexivity|].
  split; [reflexivity|].
  split; [reflexivity|].
  intros Hr. rewrite Hr. split; reflexivity.
Qed.

Lemma initialize_deadlock_placement_witness :
  Simulation.configuration deadlock_options = Simulation.DEADLOCK
  /\ Simulation.radius deadlock_options = f1_5
  /\ Simulation.numAgents deadlock_options = 250
  /\ exists s' sim',
      Simulation.initialize Libm.cos Libm.sin deadlock_options
                            Simulation.default
      = Ok s'
      /\ Simulation.simulator s' = Some sim'
      /\ getNumAgents sim' = 2
      /\ agent_positions sim' = [v2 (-3) 0; v2 3 0]
      /\ Simulation.goals s' = [v2 15 0; v2 (-15) 0].
Proof.
  split; [reflexivity|]. split; [reflexivity|]. split; [reflexivity|].
  destruct (initialize_deadlock_placement
              Libm.cos Libm.sin deadlock_options Simulation.default eq_refl)
    as (s' & sim' & H1 & H2 & H3 & _ & _ & H6).
  destruct (H6 eq_refl) as [H7 H8].
  exists s', sim'. repeat split; assumption.
Defined.

(** ** Agent counts *)

(** Every negative [int] count faults in the same way. *)
Lemma initialize_negative_count
      (cos sin : double -> double)
      (options : Simulation.options_t) (s : Simulation.t) :
  Simulation.configuration options = Simulation.CIRCLE ->
  INT_MIN <= Simulation.numAgents options < 0 ->
  Simulation.initialize cos sin options s = Fault LengthError.
Proof.
  intros Hc Hn. unfold Simulation.initialize. rewrite Hc.
  unfold reserve.
  replace (vector_max_size <? to_size_t (Simulation.numAgents options))
    with true; [reflexivity|].
  symmetry. apply Z.ltb_lt.
  unfold to_size_t, INT_MIN in *.
  assert (Hm : Simulation.numAgents options mod 2 ^ 64
               = Simulation.numAgents options + 2 ^ 64).
  { symmetry. apply Z.mod_unique with (q := -1); lia. }
  rewrite Hm.
  assert (vector_max_size < 2 ^ 61) by (vm_compute; reflexivity).
  lia.
Qed.

(** C6, as the program has it.  [initialize] takes the agent count as it
    is, without clamping.  In the circle scenario a count [n] from 0 up
    yields exactly [n] agents and [n] goals, so a count of 0 yields an
    empty roster and an empty goal list; a negative count is not taken
    as 0: [goals.reserve] throws [std::length_error] and no state is
    returned. *)
Theorem initialize_circle_count
        (cos sin : double -> double)
        (options : Simulation.options_t) (s : Simulation.t) :
  Simulation.configuration options = Simulation.CIRCLE ->
  (count_in_range options ->
   exists s' sim',
     Simulation.initialize cos sin options s = Ok s'
     /\ Simulation.simulator s' = Some sim'
     /\ getNumAgents sim' = Simulation.numAgents options
     /\ size (Simulation.goals s') = Simulation.numAgents options
     /\ (Simulation.numAgents options = 0 ->
         agents_ sim' = [] /\ Simulation.goals s' = []))
  /\ (INT_MIN <= Simulation.numAgents options < 0 ->
      Simulation.initialize cos sin options s = Fault LengthError).
Proof.
  intros Hc. split; [|apply initialize_negative_count; exact Hc].
  intros Hn.
  pose proof (initialize_circle cos sin options s Hc Hn) as H.
  cbv zeta in H.
  remember (circle_positions cos sin options 0
              (Z.to_nat (Simulation.numAgents options))) as ps eqn:Eps.
  assert (Hlen : length ps = Z.to_nat (Simulation.numAgents options))
    by (subst ps; apply circle_positions_length).
  unfold count_in_range in Hn.
  eexists _, _. split; [exact H|].
  cbn [Simulation.simulator Simulation.goals].
  split; [reflexivity|].
  split; [rewrite getNumAgents_positions, add_agents_positions;
          cbn [fresh_solver agent_positions agents_ map app];
          rewrite Hlen; lia|].
  split; [unfold size; rewrite length_map, Hlen; lia|].
  intros H0. rewrite H0 in Hlen.
  destruct ps; [split; reflexivity|discriminate].
Qed.

Lemma initialize_circle_count_witness :
  (Simulation.configuration circle_of_four = Simulation.CIRCLE
   /\ count_in_range circle_of_four
   /\ exists s' sim',
       Simulation.initialize Libm.cos Libm.sin circle_of_four drawing_fragment
       = Ok s'
       /\ Simulation.simulator s' = Some sim'
       /\ getNumAgents sim' = 4
       /\ size (Simulation.goals s') = 4)
  /\ (Simulation.configuration zero_count = Simulation.CIRCLE
      /\ count_in_range zero_count
      /\ exists s' sim',
          Simulation.initialize Libm.cos Libm.sin zero_count drawing_fragment
          = Ok s'
          /\ Simulation.simulator s' = Some sim'
          /\ agents_ sim' = []
          /\ Simulation.goals s' = [])
  /\ (Simulation.configuration negative_count = Simulation.CIRCLE
      /\ INT_MIN <= Simulation.numAgents negative_count < 0
      /\ Simulation.initialize Libm.cos Libm.sin negative_count
                               drawing_fragment
         = Fault LengthError).
Proof.
  assert (H4 : count_in_range circle_of_four)
    by (unfold count_in_range, INT_MAX; cbn; lia).
  assert (H0 : count_in_range zero_count)
    by (unfold count_in_range, INT_MAX; cbn; lia).
  assert (Hneg : INT_MIN <= Simulation.numAgents negative_count < 0)
    by (unfold INT_MIN; cbn; lia).
  split; [|split].
  - split; [reflexivity|]. split; [exact H4|].
    destruct (initialize_circle_count
                Libm.cos Libm.sin circle_of_four drawing_fragment eq_refl)
      as [Hin _].
    destruct (Hin H4) as (s' & sim' & E1 & E2 & E3 & E4 & _).
    exists s', sim'. repeat split; assumption.
  - split; [reflexivity|]. split; [exact H0|].
    destruct (initialize_circle_count
                Libm.cos Libm.sin zero_count drawing_fragment eq_refl)
      as [Hin _].
    destruct (Hin H0) as (s' & sim' & E1 & E2 & _ & _ & E5).
    destruct (E5 eq_refl) as [E6 E7].
    exists s', sim'. repeat split; assumption.
  - split; [reflexivity|]. split; [exact Hneg|].
    destruct (initialize_circle_count
                Libm.cos Libm.sin negative_count drawing_fragment eq_refl)
      as [_ Hout].
    exact (Hout Hneg).
Defined.

(** C6 as stated fails: an agent count of -1 is not treated as 0.  As a
    [size_t] it is 2^64 - 1, beyond what a vector can reserve, and
    [initialize] ends with the [std::length_error] of [goals.reserve];
    with a count of 0 it returns a state with no agents and no goals. *)
Lemma initialize_negative_count_faults :
  to_size_t (Simulation.numAgents negative_count) = SIZE_MAX
  /\ Simulation.initialize Libm.cos Libm.sin negative_count Simulation.default
     = Fault LengthError
  /\ Simulation.initialize Libm.cos Libm.sin zero_count Simulation.default
     = Ok (Simulation.mk (Some (fresh_solver zero_count [])) [] [] [])
  /\ Simulation.initialize Libm.cos Libm.sin negative_count Simulation.default
     <> Simulation.initialize Libm.cos Libm.sin zero_count Simulation.default.
Proof.
  assert (H1 : Simulation.initialize Libm.cos Libm.sin negative_count
                                     Simulation.default
               = Fault LengthError) by reflexivity.
  assert (H0 : Simulation.initialize Libm.cos Libm.sin zero_count
                                     Simulation.default
               = Ok (Simulation.mk (Some (fresh_solver zero_count [])) [] [] []))
    by reflexivity.
  split; [reflexivity|]. split; [exact H1|]. split; [exact H0|].
  rewrite H1, H0. discriminate.
Qed.

(** ** Preview of the staging obstacle *)

(** With nothing staged, no preview edge is drawn. *)
Lemma draw_preview_empty (r : Renderer.t) (captured : bool) (mx my : Z) :
  Renderer.draw_preview r captured mx my [] = [].
Proof. destruct captured; reflexivity. Qed.




(** The closing edge that waits for three vertices is the one drawn while
    the pointer is over the controls, from the first staged vertex to the
    last. *)
Lemma closing_edge_over_controls
      (r : Renderer.t) (mx my : Z) (staging : polygon) :
  size staging < 3 ->
  Renderer.draw_preview r true mx my staging = [].
Proof.
  intros H. unfold Renderer.draw_preview.
  replace (2 <? size staging) with false; [reflexivity|].
  symmetry. apply Z.ltb_ge. lia.
Qed.

(** ** Zooming with the wheel *)

(** After a wheel gesture the scale does not compare below zero, whatever
    the scale before and the amount of the gesture. *)
Lemma wheel_scale_not_below_zero (scale : float) (wheel_y : Z) :
  F32.ltb (App.wheel_scale scale wheel_y) (F32.of_Z 0) = false.
Proof.
  unfold App.wheel_scale.
  match goal with
  | |- F32.ltb (if F32.ltb ?s ?z then _ else _) _ = false =>
      destruct (F32.ltb s z) eqn:H
  end.
  - reflexivity.
  - exact H.
Qed.

(** The same after any sequence of gestures from a scale that does not
    compare below zero. *)
Lemma wheel_gestures_not_below_zero (deltas : list Z) : forall scale,
  F32.ltb scale (F32.of_Z 0) = false ->
  F32.ltb (wheel_gestures scale deltas) (F32.of_Z 0) = false.
Proof.
  induction deltas as [|d deltas IH]; intros scale H; [exact H|].
  apply IH. apply wheel_scale_not_below_zero.
Qed.

(** A scale that does not compare below zero is zero or more, or is not a
    number. *)
Lemma not_below_zero_cases (scale : float) :
  F32.ltb scale (F32.of_Z 0) = false ->
  F32.leb (F32.of_Z 0) scale = true \/ scale = S754_nan.
Proof.
  destruct scale as [sg|sg| |sg m e]; try destruct sg; cbn;
    intros H; try discriminate; auto.
Qed.

(** The event loop over wheel gestures outside the controls goes on with
    the scale the gestures give, and changes nothing else. *)
Lemma poll_wheel_inputs (cos sin : double -> double) (deltas : list Z) :
  forall app,
    App.poll_events cos sin app (wheel_inputs deltas)
    = Ok (true,
          App.mk (App.set_scale
                    (App.renderer app)
                    (wheel_gestures
                       (Renderer.scale (Renderer.options (App.renderer app)))
                       deltas))
                 (App.simulation_options app) (App.simulation app)).
Proof.
  induction deltas as [|d deltas IH]; intros [[[sc ox oy] w h] o sm].
  - reflexivity.
  - cbn [wheel_inputs map App.poll_events]. unfold App.handle_event.
    cbn [App.event App.ui_want_capture_mouse negb bind].
    fold (wheel_inputs deltas). rewrite IH. reflexivity.
Qed.

(** C8 at an input where the program falls short of it.  A gesture of a
    hundred notches doubles the scale.  From the starting scale 1.5, 127
    of them give 1.5 * 2^127, still a [float], and the next one takes the
    scale beyond the largest [float], to infinity; one notch back then
    adds minus infinity to it, which is not a number, and the test
    [scale < 0] does not catch that: the scale is then neither below zero
    nor zero or more. *)
Theorem wheel_overflow_not_a_number :
  F32.leb (F32.of_Z 0)
          (Renderer.scale (Renderer.options (App.renderer app_at_start)))
  = true
  /\ App.wheel_scale f1_5 100 = F32.of_Z 3
  /\ wheel_gestures f1_5 (firstn 127 zoom_in)
     = S754_finite false 12582912 104
  /\ wheel_gestures f1_5 zoom_in = S754_infinity false
  /\ exists app',
      App.poll_events Libm.cos Libm.sin app_at_start
                      (wheel_inputs zoom_in_then_back)
      = Ok (true, app')
      /\ Renderer.scale (Renderer.options (App.renderer app')) = S754_nan
      /\ F32.leb (F32.of_Z 0)
                 (Renderer.scale (Renderer.options (App.renderer app')))
         = false
      /\ F32.ltb (Renderer.scale (Renderer.options (App.renderer app')))
                 (F32.of_Z 0)
         = false.
Proof.
  split; [reflexivity|]. split; [reflexivity|].
  split; [vm_compute; reflexivity|]. split; [vm_compute; reflexivity|].
  eexists. split; [apply poll_wheel_inputs|].
  cbn [App.renderer App.set_scale Renderer.options Renderer.scale].
  assert (H : wheel_gestures
                (Renderer.scale
                   (Renderer.options (App.renderer app_at_start)))
                zoom_in_then_back
              = S754_nan) by (vm_compute; reflexivity).
  rewrite H. repeat split.
Qed.

(** The same happens within seven gestures when they are as large as the
    event allows. *)
Example wheel_overflow_large_gestures :
  wheel_gestures f1_5 (firstn 6 overflow_gestures) = S754_infinity false
  /\ wheel_gestures f1_5 overflow_gestures = S754_nan.
Proof. split; vm_compute; reflexivity. Qed.

(** ** The earlier revision *)

(** [initialize] of the earlier revision yields the solver and the goals
    that the circle scenario of the later one yields when no polygon is
    committed; what is proved of the circle scenario holds of it. *)
Lemma early_initialize_circle
      (cos sin : double -> double) (options : Simulation.options_t)
      (e : Early.t) (s : Simulation.t) :
  Simulation.configuration options = Simulation.CIRCLE ->
  Simulation.obstacles s = [] ->
  Simulation.initialize cos sin options s
  = (e' <- Early.initialize cos sin options e ;;
     Ok (Simulation.mk (Early.simulator e') (Early.goals e')
                       (Simulation.staging_obstacle s) [])).
Proof.
  intros Hc Ho. unfold Simulation.initialize, Early.initialize.
  rewrite Hc, Ho. cbn [fold_left empty negb].
  destruct (reserve [] (to_size_t (Simulation.numAgents options)))
    as [g|f]; [|reflexivity].
  cbn [bind].
  destruct (Simulation.circle_loop cos sin _ 0 options _ g)
    as [[sim goals]|f]; reflexivity.
Qed.

(** ** Preferred velocities *)

Lemma set_nth_length {A : Type} (l : list A) : forall n a,
  length (set_nth l n a) = length l.
Proof.
  induction l as [|h t IH]; intros [|n] a; simpl; auto.
Qed.

Lemma set_nth_same {A : Type} (l : list A) : forall n a,
  (n < length l)%nat -> nth_error (set_nth l n a) n = Some a.
Proof.
  induction l as [|h t IH]; intros [|n] a H; simpl in *; try lia; auto.
  apply IH. lia.
Qed.

Lemma set_nth_other {A : Type} (l : list A) : forall n m a,
  n <> m -> nth_error (set_nth l n a) m = nth_error l m.
Proof.
  induction l as [|h t IH]; intros [|n] [|m] a H; simpl; auto;
    contradiction.
Qed.

Lemma set_nth_map {A B : Type} (f : A -> B) (l : list A) : forall n a b,
  nth_error l n = Some b -> f a = f b ->
  map f (set_nth l n a) = map f l.
Proof.
  induction l as [|h t IH]; intros [|n] a b Hn Hf; simpl in *;
    try discriminate.
  - injection Hn as ->. now rewrite Hf.
  - f_equal. eapply IH; eauto.
Qed.

Lemma to_int_small (z : Z) : 0 <= z <= INT_MAX -> to_int z = z.
Proof.
  unfold to_int, INT_MAX. intros H.
  rewrite Z.mod_small by lia. lia.
Qed.

Lemma goal_at_inside (goals : list Vector2) (i : Z) :
  0 <= i < size goals ->
  exists g, Simulation.goal_at goals i = Ok g
            /\ nth_error goals (Z.to_nat i) = Some g.
Proof.
  intros H. unfold Simulation.goal_at.
  replace (0 <=? i) with true by (symmetry; apply Z.leb_le; lia).
  replace (i <? size goals) with true by (symmetry; apply Z.ltb_lt; lia).
  cbn [andb].
  destruct (nth_error goals (Z.to_nat i)) as [g|] eqn:E.
  - exists g. split; reflexivity.
  - apply nth_error_None in E. unfold size in H. lia.
Qed.

Lemma getAgentPosition_inside (sim : RVOSimulator) (i : Z) :
  0 <= i < getNumAgents sim ->
  exists a, nth_error (agents_ sim) (Z.to_nat i) = Some a
            /\ getAgentPosition sim i = Ok (position_ a).
Proof.
  intros H. unfold getAgentPosition.
  replace (0 <=? i) with true by (symmetry; apply Z.leb_le; lia).
  replace (i <? getNumAgents sim) with true
    by (symmetry; apply Z.ltb_lt; lia).
  cbn [andb].
  destruct (nth_error (agents_ sim) (Z.to_nat i)) as [a|] eqn:E.
  - exists a. split; reflexivity.
  - apply nth_error_None in E. unfold getNumAgents in H. lia.
Qed.

(** One turn of the loop inside the roster and the goals. *)
Lemma setAgentPrefVelocity_inside (sim : RVOSimulator) (i : Z) (v : Vector2) :
  0 <= i < getNumAgents sim ->
  exists sim',
    setAgentPrefVelocity sim i v = Ok sim'
    /\ agent_positions sim' = agent_positions sim
    /\ getNumAgents sim' = getNumAgents sim
    /\ obstacles_ sim' = obstacles_ sim
    /\ obstacleTree_ sim' = obstacleTree_ sim
    /\ nth_error (pref_velocities sim') (Z.to_nat i) = Some v
    /\ forall k, k <> Z.to_nat i ->
         nth_error (pref_velocities sim') k
         = nth_error (pref_velocities sim) k.
Proof.
  intros H.
  destruct (getAgentPosition_inside sim i H) as (a & Ha & _).
  unfold setAgentPrefVelocity.
  replace (0 <=? i) with true by (symmetry; apply Z.leb_le; lia).
  replace (i <? getNumAgents sim) with true
    by (symmetry; apply Z.ltb_lt; lia).
  cbn [andb]. rewrite Ha.
  eexists. split; [reflexivity|].
  unfold agent_positions, getNumAgents, pref_velocities. cbn.
  assert (Hlt : (Z.to_nat i < length (agents_ sim))%nat)
    by (unfold getNumAgents in H; lia).
  repeat split.
  - eapply set_nth_map; eauto.
  - now rewrite set_nth_length.
  - rewrite nth_error_map, set_nth_same by assumption. reflexivity.
  - intros k Hk. rewrite !nth_error_map, set_nth_other by congruence.
    reflexivity.
Qed.

(** The loop over the agents [i], ..., [i+n-1], all of them in the roster
    and with a goal. *)
Lemma set_preferred_velocities_loop_ok (goals : list Vector2) (n : nat) :
  forall i sim,
    0 <= i ->
    i + Z.of_nat n <= getNumAgents sim ->
    i + Z.of_nat n <= size goals ->
    exists sim',
      Simulation.set_preferred_velocities_loop n i goals sim = Ok sim'
      /\ agent_positions sim' = agent_positions sim
      /\ getNumAgents sim' = getNumAgents sim
      /\ obstacles_ sim' = obstacles_ sim
      /\ obstacleTree_ sim' = obstacleTree_ sim
      /\ (forall k, (Z.to_nat i <= k < Z.to_nat i + n)%nat ->
            exists g p,
              nth_error goals k = Some g
              /\ nth_error (agent_positions sim) k = Some p
              /\ nth_error (pref_velocities sim') k = Some (RVO.minus g p))
      /\ (forall k, (k < Z.to_nat i \/ Z.to_nat i + n <= k)%nat ->
            nth_error (pref_velocities sim') k
            = nth_error (pref_velocities sim) k).
Proof.
  induction n as [|n IH]; intros i sim Hi Hn Hg.
  - exists sim. cbn [Simulation.set_preferred_velocities_loop].
    repeat split; auto. intros k Hk. lia.
  - cbn [Simulation.set_preferred_velocities_loop].
    destruct (goal_at_inside goals i) as (g & Eg & Hgn); [lia|].
    destruct (getAgentPosition_inside sim i) as (a & Ha & Ep); [lia|].
    rewrite Eg, Ep. cbn [bind].
    destruct (setAgentPrefVelocity_inside
                sim i (RVO.minus g (position_ a)))
      as (sim1 & E1 & P1 & N1 & O1 & T1 & V1 & F1); [lia|].
    rewrite E1. cbn [bind].
    destruct (IH (i + 1) sim1) as (sim' & E' & P' & N' & O' & T' & V' & F');
      try lia.
    exists sim'. split; [exact E'|].
    split; [congruence|]. split; [congruence|].
    split; [congruence|]. split; [congruence|].
    replace (Z.to_nat (i + 1)) with (S (Z.to_nat i)) in * by lia.
    split.
    + intros k Hk.
      destruct (Nat.eq_dec k (Z.to_nat i)) as [->|Hne].
      * exists g, (position_ a). split; [exact Hgn|]. split.
        -- unfold agent_positions. rewrite nth_error_map, Ha. reflexivity.
        -- rewrite F' by lia. exact V1.
      * rewrite <- P1. apply V'. lia.
    + intros k Hk. rewrite F' by lia. apply F1. lia.
Qed.

(** The whole function, on a solver that has a goal for every agent. *)
Lemma set_preferred_velocities_returns
      (s : Simulation.t) (sim : RVOSimulator) :
  Simulation.simulator s = Some sim ->
  getNumAgents sim <= size (Simulation.goals s) ->
  getNumAgents sim <= INT_MAX ->
  exists sim',
    Simulation.set_preferred_velocities s
    = Ok (Simulation.mk (Some sim') (Simulation.goals s)
                        (Simulation.staging_obstacle s)
                        (Simulation.obstacles s))
    /\ agent_positions sim' = agent_positions sim
    /\ obstacles_ sim' = obstacles_ sim
    /\ obstacleTree_ sim' = obstacleTree_ sim
    /\ forall i, 0 <= i < getNumAgents sim ->
         exists g p,
           nth_error (Simulation.goals s) (Z.to_nat i) = Some g
           /\ getAgentPosition sim i = Ok p
           /\ nth_error (pref_velocities sim') (Z.to_nat i)
              = Some (RVO.minus g p).
Proof.
  intros Hs Hg Hn.
  assert (H0 : 0 <= getNumAgents sim) by (unfold getNumAgents; lia).
  unfold Simulation.set_preferred_velocities.
  rewrite Hs. cbn [Simulation.deref bind].
  rewrite to_int_small by lia.
  destruct (set_preferred_velocities_loop_ok
              (Simulation.goals s) (Z.to_nat (getNumAgents sim)) 0 sim)
    as (sim' & E & P & N & O & T & V & _); try lia.
  rewrite E. cbn [bind].
  exists sim'. repeat split; try assumption.
  intros i Hi.
  destruct (V (Z.to_nat i)) as (g & p & G1 & G2 & G3); [lia|].
  exists g, p. repeat split; try assumption.
  destruct (getAgentPosition_inside sim i Hi) as (a & Ha & Ep).
  rewrite Ep. unfold agent_positions in G2.
  rewrite nth_error_map, Ha in G2. cbn in G2. congruence.
Qed.

(** X1.  On a simulation whose solver has a goal for every agent,
    [set_preferred_velocities] returns; it gives agent [i] the preferred
    velocity [goals[i] - position(i)], not normalized, and changes
    neither a position, nor the goals, nor the obstacles. *)
Theorem set_preferred_velocities_spec (s : Simulation.t) (sim : RVOSimulator) :
  Simulation.simulator s = Some sim ->
  getNumAgents sim <= size (Simulation.goals s) ->
  getNumAgents sim <= INT_MAX ->
  exists sim',
    Simulation.set_preferred_velocities s
    = Ok (Simulation.mk (Some sim') (Simulation.goals s)
                        (Simulation.staging_obstacle s)
                        (Simulation.obstacles s))
    /\ agent_positions sim' = agent_positions sim
    /\ obstacles_ sim' = obstacles_ sim
    /\ obstacleTree_ sim' = obstacleTree_ sim
    /\ forall i, 0 <= i < getNumAgents sim ->
         exists g p,
           nth_error (Simulation.goals s) (Z.to_nat i) = Some g
           /\ getAgentPosition sim i = Ok p
           /\ nth_error (pref_velocities sim') (Z.to_nat i)
              = Some (RVO.minus g p).
Proof. exact (set_preferred_velocities_returns s sim). Qed.

Lemma set_preferred_velocities_spec_witness :
  getNumAgents two_agents_solver <= size (Simulation.goals two_agents)
  /\ exists sim',
      Simulation.set_preferred_velocities two_agents
      = Ok (Simulation.mk (Some sim') [v2 15 0; v2 (-15) 0] [] [])
      /\ agent_positions sim' = [v2 (-3) 0; v2 3 0].
Proof.
  split; [vm_compute; discriminate|].
  destruct (set_preferred_velocities_spec two_agents two_agents_solver)
    as (sim' & E & P & _).
  - reflexivity.
  - vm_compute. discriminate.
  - vm_compute. discriminate.
  - exists sim'. split; [exact E|exact P].
Defined.

(** Head on in the deadlock scenario at the default radius: the
    preferred velocities are (18, 0) and (-18, 0). *)
Example deadlock_preferred_velocities :
  exists sim',
    Simulation.set_preferred_velocities two_agents
    = Ok (Simulation.mk (Some sim') [v2 15 0; v2 (-15) 0] [] [])
    /\ pref_velocities sim' = [v2 18 0; v2 (-18) 0].
Proof. eexists. split; vm_compute; reflexivity. Qed.

(** Before the first [initialize] there is no solver to ask. *)
Lemma set_preferred_velocities_null :
  Simulation.set_preferred_velocities Simulation.default
  = Fault NullSimulator.
Proof. reflexivity. Qed.

(** ** What the running application keeps *)

Lemma add_agents_count (sim : RVOSimulator) (ps : list Vector2) :
  getNumAgents (add_agents sim ps)
  = getNumAgents sim + Z.of_nat (length ps).
Proof.
  rewrite !getNumAgents_positions, add_agents_positions, length_app. lia.
Qed.

(** [initialize] leaves a consistent simulation, with the staging buffer
    and the committed polygons it was given. *)
Lemma initialize_consistent
      (cos sin : double -> double)
      (options : Simulation.options_t) (s : Simulation.t) :
  placeable options ->
  Forall (fun p : polygon => 3 <= size p) (Simulation.obstacles s) ->
  exists s',
    Simulation.initialize cos sin options s = Ok s'
    /\ consistent s'
    /\ Simulation.staging_obstacle s' = Simulation.staging_obstacle s
    /\ Simulation.obstacles s' = Simulation.obstacles s.
Proof.
  intros Hp Hf.
  destruct (Simulation.configuration options) eqn:Hc.
  - pose proof (Hp Hc) as Hn.
    eexists. split; [apply initialize_circle; assumption|].
    split; [|split; reflexivity].
    eexists. split; [reflexivity|]. cbn [Simulation.goals Simulation.obstacles].
    rewrite add_agents_count.
    destruct (add_agents_obstacles
                (circle_positions cos sin options 0
                   (Z.to_nat (Simulation.numAgents options)))
                (fresh_solver options (Simulation.obstacles s))) as [O T].
    rewrite O, T. unfold size. rewrite length_map, circle_positions_length.
    unfold count_in_range, INT_MAX in Hn. cbn. repeat split; auto; lia.
  - eexists. split; [apply initialize_deadlock; assumption|].
    split; [|split; reflexivity].
    eexists. split; [reflexivity|]. cbn. unfold INT_MAX.
    repeat split; auto; lia.
  - eexists. split; [apply initialize_no_scenario; assumption|].
    split; [|split; reflexivity].
    eexists. split; [reflexivity|]. cbn. unfold INT_MAX.
    repeat split; auto; lia.
Qed.

(** [commit_obstacle] keeps a consistent simulation consistent. *)
Lemma commit_obstacle_consistent (s : Simulation.t) :
  consistent s ->
  exists s',
    Simulation.commit_obstacle s = Ok s'
    /\ consistent s'
    /\ Simulation.staging_obstacle s' = [].
Proof.
  intros (sim & Hs & Hg & Hn & Ho & Ht & Hf).
  unfold Simulation.commit_obstacle.
  destruct (2 <? size (Simulation.staging_obstacle s)) eqn:Hsz.
  - apply Z.ltb_lt in Hsz. rewrite Hs. cbn [Simulation.deref bind].
    eexists. split; [reflexivity|]. split; [|reflexivity].
    eexists. split; [reflexivity|]. cbn. rewrite Ho.
    repeat split; auto.
    + destruct (Simulation.obstacles s); reflexivity.
    + apply Forall_app. split; [assumption|].
      constructor; [lia|constructor].
  - eexists. split; [reflexivity|]. split; [|reflexivity].
    exists sim. cbn. repeat split; assumption.
Qed.

(** Staging a vertex does not touch what [consistent] speaks of. *)
Lemma push_staging_consistent (s : Simulation.t) (v : Vector2) :
  consistent s -> consistent (App.push_staging s v).
Proof.
  intros (sim & H). exists sim. exact H.
Qed.

Lemma set_preferred_velocities_consistent (s : Simulation.t) :
  consistent s ->
  exists s',
    Simulation.set_preferred_velocities s = Ok s'
    /\ consistent s'
    /\ Simulation.staging_obstacle s' = Simulation.staging_obstacle s.
Proof.
  intros (sim & Hs & Hg & Hn & Ho & Ht & Hf).
  destruct (set_preferred_velocities_returns s sim Hs)
    as (sim' & E & P & O & T & _);
    try lia.
  eexists. split; [exact E|]. split; [|reflexivity].
  exists sim'. cbn. rewrite O, T.
  assert (N : getNumAgents sim' = getNumAgents sim)
    by (rewrite !getNumAgents_positions, P; reflexivity).
  rewrite N. repeat split; assumption.
Qed.

Lemma step_consistent (doStep : RVOSimulator -> RVOSimulator)
      (s : Simulation.t) (dt : float) :
  keeps_roster doStep ->
  consistent s ->
  exists s',
    Simulation.step doStep s dt = Ok s'
    /\ consistent s'
    /\ Simulation.staging_obstacle s' = Simulation.staging_obstacle s.
Proof.
  intros Hk (sim & Hs & Hg & Hn & Ho & Ht & Hf).
  unfold Simulation.step. rewrite Hs. cbn [Simulation.deref bind].
  eexists. split; [reflexivity|]. split; [|reflexivity].
  eexists. split; [reflexivity|]. cbn.
  destruct (Hk (setTimeStep sim dt)) as (K1 & K2 & K3).
  rewrite K2, K3. unfold getNumAgents in *. rewrite K1. cbn.
  repeat split; assumption.
Qed.

(** ** The event loop *)

Lemma toggle_run_placeable (o : Simulation.options_t) :
  placeable o -> placeable (App.toggle_run o).
Proof. intros H. exact H. Qed.

(** What one event keeps. *)
Lemma handle_event_keeps
      (cos sin : double -> double) (app : App.t) (i : App.input) :
  consistent (App.simulation app) ->
  placeable (App.simulation_options app) ->
  exists continue app',
    App.handle_event cos sin app i = Ok (continue, app')
    /\ consistent (App.simulation app')
    /\ placeable (App.simulation_options app')
    /\ Renderer.width (App.renderer app') = Renderer.width (App.renderer app)
    /\ Renderer.height (App.renderer app') = Renderer.height (App.renderer app)
    /\ (F32.ltb (Renderer.scale (Renderer.options (App.renderer app)))
                (F32.of_Z 0) = false ->
        F32.ltb (Renderer.scale (Renderer.options (App.renderer app')))
                (F32.of_Z 0) = false).
Proof.
  intros Hc Hp. unfold App.handle_event.
  destruct (App.event i) as [|button clicks bx by_|wy|st xr yr|sc|].
  - eexists _, _. split; [reflexivity|]. auto 10.
  - destruct (negb (App.ui_want_capture_mouse i)).
    2:{ eexists _, _. split; [reflexivity|]. auto 10. }
    destruct ((button =? App.SDL_BUTTON_LEFT) && (clicks =? 2)).
    { eexists _, _. split; [reflexivity|]. cbn.
      split; [apply push_staging_consistent; assumption|]. auto 10. }
    destruct (button =? App.SDL_BUTTON_RIGHT).
    2:{ eexists _, _. split; [reflexivity|]. auto 10. }
    match goal with
    | |- context [Simulation.commit_obstacle ?s] =>
        destruct (commit_obstacle_consistent s) as (s' & E & C & _);
          [apply push_staging_consistent; assumption|]
    end.
    rewrite E. cbn [bind].
    eexists _, _. split; [reflexivity|]. cbn. auto 10.
  - destruct (negb (App.ui_want_capture_mouse i)).
    2:{ eexists _, _. split; [reflexivity|]. auto 10. }
    eexists _, _. split; [reflexivity|]. cbn.
    split; [exact Hc|]. split; [exact Hp|].
    split; [reflexivity|]. split; [reflexivity|].
    intros _. apply wheel_scale_not_below_zero.
  - destruct ((st =? App.SDL_PRESSED) && negb (App.ui_want_capture_mouse i)).
    2:{ eexists _, _. split; [reflexivity|]. auto 10. }
    eexists _, _. split; [reflexivity|]. cbn. auto 10.
  - destruct (negb (App.ui_want_capture_keyboard i)).
    2:{ eexists _, _. split; [reflexivity|]. auto 10. }
    destruct sc.
    + eexists _, _. split; [reflexivity|]. auto 10.
    + eexists _, _. split; [reflexivity|]. cbn. auto 10.
    + destruct Hc as (sim & Hs & Hg & Hn & Ho & Ht & Hf).
      destruct (initialize_consistent
                  cos sin (App.simulation_options app) (App.simulation app)
                  Hp Hf) as (s' & E & C & _).
      rewrite E. cbn [bind].
      eexists _, _. split; [reflexivity|]. cbn. auto 10.
    + eexists _, _. split; [reflexivity|]. auto 10.
  - eexists _, _. split; [reflexivity|]. auto 10.
Qed.

Lemma poll_events_keeps
      (cos sin : double -> double) (pending : list App.input) :
  forall app,
    consistent (App.simulation app) ->
    placeable (App.simulation_options app) ->
    exists continue app',
      App.poll_events cos sin app pending = Ok (continue, app')
      /\ consistent (App.simulation app')
      /\ placeable (App.simulation_options app')
      /\ Renderer.width (App.renderer app') = Renderer.width (App.renderer app)
      /\ Renderer.height (App.renderer app')
         = Renderer.height (App.renderer app)
      /\ (F32.ltb (Renderer.scale (Renderer.options (App.renderer app)))
                  (F32.of_Z 0) = false ->
          F32.ltb (Renderer.scale (Renderer.options (App.renderer app')))
                  (F32.of_Z 0) = false).
Proof.
  induction pending as [|i rest IH]; intros app Hc Hp.
  - eexists _, _. split; [reflexivity|]. auto 10.
  - cbn [App.poll_events].
    destruct (handle_event_keeps cos sin app i Hc Hp)
      as (c & app1 & E & C1 & P1 & W1 & H1 & S1).
    rewrite E. cbn [bind]. destruct c.
    + destruct (IH app1 C1 P1) as (c' & app' & E' & C' & P' & W' & H' & S').
      exists c', app'. split; [exact E'|].
      split; [exact C'|]. split; [exact P'|].
      split; [congruence|]. split; [congruence|]. auto.
    + eexists _, _. split; [reflexivity|]. auto 10.
Qed.

(** X3.  From a consistent simulation and options [initialize] can carry
    out, the event loop returns for every sequence of events (button
    presses, wheel, motion, keys, quit, captured by the controls or not):
    it never asks a missing solver and never faults in a reset.  The
    simulation it leaves is consistent again and the options still can be
    carried out. *)
Theorem poll_events_safe
        (cos sin : double -> double) (app : App.t) (pending : list App.input) :
  consistent (App.simulation app) ->
  placeable (App.simulation_options app) ->
  exists continue app',
    App.poll_events cos sin app pending = Ok (continue, app')
    /\ consistent (App.simulation app')
    /\ placeable (App.simulation_options app').
Proof.
  intros Hc Hp.
  destruct (poll_events_keeps cos sin pending app Hc Hp)
    as (c & app' & E & C & P & _).
  exists c, app'. auto.
Qed.

Lemma poll_events_safe_witness :
  exists continue app',
    App.poll_events Libm.cos Libm.sin app_two_agents sample_events
    = Ok (continue, app')
    /\ consistent (App.simulation app')
    /\ placeable (App.simulation_options app').
Proof.
  apply (poll_events_safe Libm.cos Libm.sin app_two_agents sample_events).
  - exists two_agents_solver. cbn.
    split; [reflexivity|]. split; [reflexivity|].
    split; [unfold INT_MAX; lia|]. split; [reflexivity|].
    split; [reflexivity|]. constructor.
  - intros H. cbn in H. discriminate.
Defined.

(** X4.  Whatever the events, the event loop never leaves the scale
    comparing below zero when it did not before, and it never changes the
    size of the window the transforms use. *)
Theorem poll_events_camera
        (cos sin : double -> double) (app : App.t) (pending : list App.input) :
  consistent (App.simulation app) ->
  placeable (App.simulation_options app) ->
  F32.ltb (Renderer.scale (Renderer.options (App.renderer app))) (F32.of_Z 0)
  = false ->
  exists continue app',
    App.poll_events cos sin app pending = Ok (continue, app')
    /\ F32.ltb (Renderer.scale (Renderer.options (App.renderer app')))
               (F32.of_Z 0) = false
    /\ Renderer.width (App.renderer app') = Renderer.width (App.renderer app)
    /\ Renderer.height (App.renderer app')
       = Renderer.height (App.renderer app).
Proof.
  intros Hc Hp Hs.
  destruct (poll_events_keeps cos sin pending app Hc Hp)
    as (c & app' & E & _ & _ & W & H & S).
  exists c, app'. auto.
Qed.

Lemma poll_events_camera_witness :
  exists continue app',
    App.poll_events Libm.cos Libm.sin app_two_agents sample_events
    = Ok (continue, app')
    /\ F32.ltb (Renderer.scale (Renderer.options (App.renderer app')))
               (F32.of_Z 0) = false
    /\ Renderer.width (App.renderer app') = 1280
    /\ Renderer.height (App.renderer app') = 768.
Proof.
  apply (poll_events_camera Libm.cos Libm.sin app_two_agents sample_events).
  - exists two_agents_solver. cbn.
    split; [reflexivity|]. split; [reflexivity|].
    split; [unfold INT_MAX; lia|]. split; [reflexivity|].
    split; [reflexivity|]. constructor.
  - intros H. cbn in H. discriminate.
  - reflexivity.
Defined.

(** X5.  Events the controls capture are ignored: pointer events (button,
    wheel, motion) while the controls capture the pointer and key presses
    while they capture the keyboard leave the application as it is, and
    the loop goes on. *)
Theorem captured_events_ignored
        (cos sin : double -> double) (pending : list App.input) (app : App.t) :
  Forall (fun i => captured i = true) pending ->
  App.poll_events cos sin app pending = Ok (true, app).
Proof.
  induction 1 as [|i rest Hi _ IH]; [reflexivity|].
  cbn [App.poll_events].
  assert (E : App.handle_event cos sin app i = Ok (true, app)).
  { unfold captured in Hi. unfold App.handle_event.
    destruct (App.event i); try discriminate; rewrite Hi;
      try reflexivity.
    now rewrite andb_false_r. }
  rewrite E. cbn [bind]. exact IH.
Qed.

Lemma captured_events_ignored_witness :
  App.poll_events Libm.cos Libm.sin app_one_vertex captured_events
  = Ok (true, app_one_vertex).
Proof.
  apply (captured_events_ignored Libm.cos Libm.sin captured_events
                                 app_one_vertex).
  repeat constructor.
Defined.

(** The event loop over two sequences of events, one after the other. *)
Lemma poll_events_app
      (cos sin : double -> double) (before after : list App.input) :
  forall app,
    App.poll_events cos sin app (before ++ after)
    = ('(continue, app') <- App.poll_events cos sin app before ;;
       if continue then App.poll_events cos sin app' after
       else Ok (false, app')).
Proof.
  induction before as [|i rest IH]; intros app; [reflexivity|].
  cbn [List.app App.poll_events].
  destruct (App.handle_event cos sin app i) as [[c app1]|f]; [|reflexivity].
  cbn [bind]. destruct c; [apply IH|reflexivity].
Qed.

(** X6.  The quit event, or the Escape key outside the controls, ends
    [main_loop] at once: the state is the one the events before it left,
    and no event after it is looked at. *)
Theorem poll_events_stops
        (cos sin : double -> double) (app app1 : App.t)
        (before after : list App.input) (stop : App.input) :
  App.poll_events cos sin app before = Ok (true, app1) ->
  stops stop = true ->
  App.poll_events cos sin app (before ++ stop :: after) = Ok (false, app1).
Proof.
  intros Hb Hs. rewrite poll_events_app, Hb. cbn [bind App.poll_events].
  assert (E : App.handle_event cos sin app1 stop = Ok (false, app1)).
  { unfold stops in Hs. unfold App.handle_event.
    destruct (App.event stop) as [| | | |sc|]; try discriminate;
      [reflexivity|].
    destruct sc; try discriminate. rewrite Hs. reflexivity. }
  rewrite E. reflexivity.
Qed.

Lemma poll_events_stops_witness :
  App.poll_events Libm.cos Libm.sin app_one_vertex
    (captured_events
     ++ App.mkInput (App.SDL_KEYDOWN App.SDL_SCANCODE_ESCAPE) false false
     :: sample_events)
  = Ok (false, app_one_vertex).
Proof.
  apply (poll_events_stops Libm.cos Libm.sin app_one_vertex app_one_vertex).
  - reflexivity.
  - reflexivity.
Defined.

(** ** Authoring an obstacle *)

(** Double clicks outside the controls stage the world points of their
    pixels, in order, and nothing else. *)
Lemma double_clicks_stage
      (cos sin : double -> double) (r : Renderer.t)
      (o : Simulation.options_t) (sim : option RVOSimulator)
      (goals : list Vector2) (obstacles : list polygon)
      (clicks : list (Z * Z)) :
  forall staging,
    App.poll_events cos sin
      (App.mk r o (Simulation.mk sim goals staging obstacles))
      (map double_click clicks)
    = Ok (true,
          App.mk r o (Simulation.mk sim goals
                                    (staging ++ map (world_of r) clicks)
                                    obstacles)).
Proof.
  induction clicks as [|c clicks IH]; intros staging.
  - cbn. now rewrite app_nil_r.
  - cbn [map App.poll_events]. unfold App.handle_event at 1.
    cbn [double_click App.event App.ui_want_capture_mouse negb].
    replace ((App.SDL_BUTTON_LEFT =? App.SDL_BUTTON_LEFT) && (2 =? 2))
      with true by reflexivity.
    cbn [bind App.renderer App.simulation App.simulation_options].
    unfold App.push_staging.
    cbn [Simulation.simulator Simulation.goals Simulation.staging_obstacle
         Simulation.obstacles].
    rewrite IH. rewrite <- app_assoc. reflexivity.
Qed.

(** X7.  Drawing a polygon: double clicks that bring the staging buffer
    to two vertices or more, then a right click, all outside the
    controls, commit exactly one polygon.  Its vertices are the ones
    staged before, then the world points of the double-clicked pixels in
    order, then the world point of the right click; the solver receives
    it and rebuilds its obstacle tree, and the staging buffer is empty
    again.  Camera, options, goals and agents are as before. *)
Theorem author_polygon
        (cos sin : double -> double) (app : App.t) (sim : RVOSimulator)
        (clicks : list (Z * Z)) (last : Z * Z) :
  Simulation.simulator (App.simulation app) = Some sim ->
  2 <= size (Simulation.staging_obstacle (App.simulation app))
       + Z.of_nat (length clicks) ->
  let r := App.renderer app in
  let s := App.simulation app in
  let drawn :=
    Simulation.staging_obstacle s
    ++ map (world_of r) clicks ++ [world_of r last] in
  App.poll_events cos sin app (map double_click clicks ++ [right_click_at last])
  = Ok (true,
        App.mk r (App.simulation_options app)
          (Simulation.mk (Some (processObstacles (addObstacle sim drawn)))
                         (Simulation.goals s) []
                         (Simulation.obstacles s ++ [drawn]))).
Proof.
  intros Hs Hn r s drawn.
  destruct app as [r0 o [sm goals staging obstacles]].
  cbn in Hs, Hn, r, s, drawn. subst sm r s.
  rewrite poll_events_app, double_clicks_stage. cbn [bind App.poll_events].
  unfold App.handle_event.
  cbn [right_click_at App.event App.ui_want_capture_mouse negb].
  replace ((App.SDL_BUTTON_RIGHT =? App.SDL_BUTTON_LEFT) && (1 =? 2))
    with false by reflexivity.
  replace (App.SDL_BUTTON_RIGHT =? App.SDL_BUTTON_RIGHT) with true
    by reflexivity.
  cbn [App.renderer App.simulation App.simulation_options].
  unfold App.push_staging, Simulation.commit_obstacle.
  cbn [Simulation.simulator Simulation.goals Simulation.staging_obstacle
       Simulation.obstacles].
  fold (world_of r0 last).
  rewrite <- app_assoc. fold drawn.
  replace (2 <? size drawn) with true.
  - reflexivity.
  - symmetry. apply Z.ltb_lt. unfold drawn, size in *.
    rewrite !length_app, length_map. cbn [length]. lia.
Qed.

Lemma author_polygon_witness :
  App.poll_events Libm.cos Libm.sin app_two_agents
    [double_click (940, 384); double_click (955, 384);
     right_click_at (940, 369)]
  = Ok (true,
        App.mk default_renderer deadlock_options
          (Simulation.mk
             (Some (processObstacles (addObstacle two_agents_solver triangle)))
             [v2 15 0; v2 (-15) 0] [] [triangle])).
Proof.
  apply (author_polygon Libm.cos Libm.sin app_two_agents two_agents_solver
                        [(940, 384); (955, 384)] (940, 369)).
  - reflexivity.
  - vm_compute. discriminate.
Defined.

(** ** What [draw] renders *)

Lemma last_cons {A : Type} (l : list A) : forall a d,
  last (a :: l) d = last l a.
Proof.
  induction l as [|b l IH]; intros a d; [reflexivity|].
  change (last (a :: b :: l) d) with (last (b :: l) d).
  now rewrite !IH.
Qed.

Lemma draw_edges_closed_form (r : Renderer.t) (obstacle : polygon) :
  forall previous,
    Renderer.draw_edges r previous obstacle
    = (map (fun e => Renderer.line_between (fst e) (snd e))
           (combine
              (previous
                 :: map (Renderer.toScreenSpace r) (removelast obstacle))
              (map (Renderer.toScreenSpace r) obstacle)),
       last (map (Renderer.toScreenSpace r) obstacle) previous).
Proof.
  induction obstacle as [|v rest IH]; intros previous; [reflexivity|].
  cbn [Renderer.draw_edges]. rewrite IH.
  cbn [map]. rewrite last_cons.
  destruct rest as [|w rest']; reflexivity.
Qed.

Lemma outline_length (r : Renderer.t) (obstacle : polygon) :
  length (outline r obstacle) = length obstacle.
Proof.
  unfold outline. rewrite length_map, length_combine, !length_map.
  destruct obstacle as [|v rest]; [reflexivity|].
  assert (H : length (removelast (v :: rest)) = length rest).
  { rewrite removelast_firstn_len, length_firstn. cbn [length]. lia. }
  cbn [length]. rewrite H. lia.
Qed.

(** X8.  The committed obstacles are drawn as closed outlines: polygons
    with fewer than three vertices are skipped, and every other polygon
    gets one edge into each of its vertices, from the vertex before it
    and, for the first vertex, from the last; as many edges as vertices.
    What [previous] held before does not show. *)
Theorem draw_obstacles_outlines
        (r : Renderer.t) (obstacles : list polygon) :
  forall previous,
    fst (Renderer.draw_obstacles r previous obstacles)
    = flat_map (outline r) (filter (fun o => 3 <=? size o) obstacles)
    /\ Forall (fun o => length (outline r o) = length o) obstacles.
Proof.
  induction obstacles as [|o rest IH]; intros previous.
  - split; [reflexivity|constructor].
  - destruct (IH previous) as [_ HF].
    split; [|constructor; [apply outline_length|exact HF]].
    cbn [Renderer.draw_obstacles filter].
    destruct (size o <? 3) eqn:E.
    + replace (3 <=? size o) with false
        by (symmetry; apply Z.leb_gt; apply Z.ltb_lt; exact E).
      apply IH.
    + replace (3 <=? size o) with true
        by (symmetry; apply Z.leb_le; apply Z.ltb_ge; exact E).
      rewrite draw_edges_closed_form.
      match goal with
      | |- context [Renderer.draw_obstacles r ?p rest] =>
          destruct (IH p) as [H1 _];
            destruct (Renderer.draw_obstacles r p rest) as [calls' p']
      end.
      cbn [fst] in *. cbn [flat_map]. rewrite H1. reflexivity.
Qed.

(** A triangle is outlined by the edges c-a, a-b, b-c. *)
Example outline_triangle :
  fst (Renderer.draw_obstacles default_renderer (v2 0 0) [fragment; triangle])
  = [Renderer.Draw (Renderer.SDL_RenderDrawLine 940 369 940 384);
     Renderer.Draw (Renderer.SDL_RenderDrawLine 940 384 955 384);
     Renderer.Draw (Renderer.SDL_RenderDrawLine 955 384 940 369)].
Proof. reflexivity. Qed.

Lemma draw_staging_from (r : Renderer.t) (staging : polygon) :
  forall i p,
    0 < i ->
    Renderer.draw_staging r i (Renderer.toScreenSpace r p) staging
    = flat_map
        (fun e =>
           [Renderer.point_at (Renderer.toScreenSpace r (snd e));
            Renderer.line_between (Renderer.toScreenSpace r (fst e))
                                  (Renderer.toScreenSpace r (snd e))])
        (combine (p :: staging) staging).
Proof.
  induction staging as [|v rest IH]; intros i p Hi; [reflexivity|].
  cbn [Renderer.draw_staging].
  replace (0 <? i) with true by (symmetry; apply Z.ltb_lt; lia).
  rewrite IH by lia. reflexivity.
Qed.

(** X9.  The staging obstacle is drawn as an open polyline: every staged
    vertex as a point and an edge into every vertex but the first, from
    the vertex before it.  The value the obstacle loop leaves in
    [previous] is never used. *)
Theorem draw_staging_polyline
        (r : Renderer.t) (previous : Vector2) (staging : polygon) :
  Renderer.draw_staging r 0 previous staging = polyline r staging.
Proof.
  destruct staging as [|v rest]; [reflexivity|].
  cbn [Renderer.draw_staging polyline].
  replace (0 <? 0) with false by reflexivity.
  cbn [List.app]. rewrite draw_staging_from by lia. reflexivity.
Qed.

Lemma int_of_float_add_zero (c : float) (s : bool) :
  int_of_float (F32.add c (S754_zero s)) = int_of_float c.
Proof. destruct c as [b|b| |b m e]; try destruct b; destruct s; reflexivity. Qed.

Lemma int_of_float_sub_zero (c : float) (s : bool) :
  int_of_float (F32.sub c (S754_zero s)) = int_of_float c.
Proof. destruct c as [b|b| |b m e]; try destruct b; destruct s; reflexivity. Qed.

Lemma mul_finite_zero (a z : float) :
  finite a = true -> is_zero z = true ->
  exists s, F32.mul a z = S754_zero s.
Proof.
  destruct a as [b|b| |b m e], z as [c|c| |c n k]; try discriminate;
    intros _ _; eexists; reflexivity.
Qed.

(** X10.  At a scale of zero the scene collapses to one pixel: every
    world point with finite coordinates is drawn at the pixel of the
    window centre plus the offset, and every agent there is drawn as
    that single pixel, never as a rectangle, whatever the agent radius. *)
Theorem zero_scale_one_pixel
        (r : Renderer.t) (radius : float) (p : Vector2) :
  is_zero (Renderer.scale (Renderer.options r)) = true ->
  finite (x p) = true ->
  finite (y p) = true ->
  let centre :=
    mkVector2
      (F32.add (F32.of_Z (Renderer.width r / 2))
               (Renderer.offset_x (Renderer.options r)))
      (F32.add (F32.of_Z (Renderer.height r / 2))
               (Renderer.offset_y (Renderer.options r))) in
  Renderer.point_at (Renderer.toScreenSpace r p) = Renderer.point_at centre
  /\ Renderer.draw_agent r radius p = Renderer.point_at centre.
Proof.
  intros Hz Hx Hy centre.
  assert (Hp : Renderer.point_at (Renderer.toScreenSpace r p)
               = Renderer.point_at centre).
  { unfold Renderer.point_at, Renderer.toScreenSpace, centre. cbn [x y].
    destruct (mul_finite_zero (x p) _ Hx Hz) as [s1 E1].
    destruct (mul_finite_zero (y p) _ Hy Hz) as [s2 E2].
    rewrite E1, E2, int_of_float_add_zero, int_of_float_sub_zero.
    reflexivity. }
  split; [exact Hp|].
  unfold Renderer.draw_agent.
  assert (Hw : (1 <? int_of_float
                       (F32.mul (F32.mul radius (F32.of_Z 2))
                                (Renderer.scale (Renderer.options r))))
               = false).
  { destruct (Renderer.scale (Renderer.options r)) as [c| | |];
      try discriminate.
    destruct (F32.mul radius (F32.of_Z 2)) as [b|b| |b m e]; reflexivity. }
  rewrite Hw. cbn [andb]. exact Hp.
Qed.

Lemma zero_scale_one_pixel_witness :
  is_zero (Renderer.scale (Renderer.options zero_scale_renderer)) = true
  /\ Renderer.draw_agent zero_scale_renderer f1_5 (v2 (-3) 0)
     = Renderer.Draw (Renderer.SDL_RenderDrawPoint 940 384).
Proof.
  split; [reflexivity|].
  apply (zero_scale_one_pixel zero_scale_renderer f1_5 (v2 (-3) 0));
    reflexivity.
Defined.

(** X11.  At a scale of zero no pixel has a world point: [fromScreenSpace]
    divides by the scale, and both coordinates it returns are infinite or
    not a number, whatever the pixel, the offset and the window.  A
    vertex placed by a click at that scale is such a point. *)
Theorem zero_scale_no_world_point (r : Renderer.t) (point : Vector2) :
  is_zero (Renderer.scale (Renderer.options r)) = true ->
  finite (x (Renderer.fromScreenSpace r point)) = false
  /\ finite (y (Renderer.fromScreenSpace r point)) = false.
Proof.
  intros Hz. unfold Renderer.fromScreenSpace, RVO.divide. cbn [x y].
  destruct (Renderer.scale (Renderer.options r)) as [s| | |];
    try discriminate.
  assert (Hinv : F32.div f1 (S754_zero s) = S754_infinity s)
    by (destruct s; reflexivity).
  rewrite Hinv.
  split.
  - match goal with
    | |- finite (F32.mul ?a _) = false =>
        destruct a as [b|b| |b m e]; reflexivity
    end.
  - match goal with
    | |- finite (F32.mul ?a _) = false =>
        destruct a as [b|b| |b m e]; reflexivity
    end.
Qed.

Lemma zero_scale_no_world_point_witness :
  is_zero (Renderer.scale (Renderer.options zero_scale_renderer)) = true
  /\ finite (x (Renderer.fromScreenSpace zero_scale_renderer (v2 955 384)))
     = false
  /\ finite (y (Renderer.fromScreenSpace zero_scale_renderer (v2 955 384)))
     = false.
Proof.
  split; [reflexivity|].
  apply (zero_scale_no_world_point zero_scale_renderer (v2 955 384)).
  reflexivity.
Defined.

(** The pixel (955, 384) at a scale of zero: an infinite first coordinate
    and a second that is not a number. *)
Example zero_scale_click :
  world_of zero_scale_renderer (955, 384)
  = mkVector2 (S754_infinity false) S754_nan.
Proof. reflexivity. Qed.

(** ** Window, renderer and UI context *)

(** X12.  [terminate] releases what is held and only that: the UI
    context, the renderer and the window are each destroyed exactly when
    their pointer is set, all pointers are null afterwards, and a second
    [terminate] (the destructor runs one after [App::terminate]) destroys
    nothing and only calls [SDL_Quit] again. *)
Theorem terminate_releases_once (h : Renderer.handles) :
  fst (Renderer.terminate h) = Renderer.no_handles
  /\ calls_of is_destroy_context (snd (Renderer.terminate h))
     = count_if (Renderer.ui h)
  /\ calls_of is_destroy_renderer (snd (Renderer.terminate h))
     = count_if (Renderer.renderer h)
  /\ calls_of is_destroy_window (snd (Renderer.terminate h))
     = count_if (Renderer.window h)
  /\ Renderer.terminate (fst (Renderer.terminate h))
     = (Renderer.no_handles, [Renderer.SDL_Quit]).
Proof.
  destruct h as [[|] [|] [|]]; repeat split.
Qed.

(** X13.  [initialize] on a new [Renderer] succeeds exactly when SDL, the
    window, the renderer and the UI context are all created.  When it
    fails it holds nothing: whatever it had created before the failing
    step it has destroyed again, once.  When it succeeds it holds all
    three and has stored the window size. *)
Theorem initialize_all_or_nothing (a : Renderer.sdl_answers) (r : Renderer.t) :
  exists ok r' h calls,
    Renderer.initialize a r Renderer.no_handles = (ok, r', h, calls)
    /\ ok = Renderer.init_succeeds a && Renderer.window_created a
            && Renderer.renderer_created a && Renderer.context_created a
    /\ h = Renderer.mkHandles ok ok ok
    /\ calls_of is_destroy_window calls
       = count_if (negb ok && Renderer.init_succeeds a
                   && Renderer.window_created a)
    /\ calls_of is_destroy_renderer calls
       = count_if (negb ok && Renderer.init_succeeds a
                   && Renderer.window_created a
                   && Renderer.renderer_created a)
    /\ calls_of is_destroy_context calls = 0%nat
    /\ (ok = true ->
        Renderer.width r' = to_uint32 (Renderer.window_w a)
        /\ Renderer.height r' = to_uint32 (Renderer.window_h a)
        /\ Renderer.options r' = Renderer.options r).
Proof.
  destruct a as [[|] [|] [|] w h [|]];
    eexists _, _, _, _; (split; [reflexivity|]); cbn;
    repeat split; try discriminate.
Qed.

Lemma initialize_all_or_nothing_witness :
  Renderer.initialize all_created default_renderer Renderer.no_handles
  = (true, default_renderer, Renderer.mkHandles true true true,
     [Renderer.SDL_Init; Renderer.SDL_CreateWindow;
      Renderer.SDL_CreateRenderer; Renderer.ImGui_CreateContext;
      Renderer.ImGuiSDL_Initialize; Renderer.ImGui_ImplSDL2_InitForOpenGL])
  /\ Renderer.initialize no_renderer default_renderer Renderer.no_handles
     = (false, default_renderer, Renderer.no_handles,
        [Renderer.SDL_Init; Renderer.SDL_CreateWindow;
         Renderer.SDL_CreateRenderer; Renderer.SDL_DestroyWindow;
         Renderer.SDL_Quit]).
Proof.
  destruct (initialize_all_or_nothing all_created default_renderer)
    as (ok & r' & h & calls & E & _).
  split; reflexivity.
Defined.

(** ** Whole frames *)

Lemma draw_goals_ok (r : Renderer.t) (sim : RVOSimulator)
      (goals : list Vector2) (n : nat) :
  forall i,
    0 <= i ->
    i + Z.of_nat n <= getNumAgents sim ->
    i + Z.of_nat n <= size goals ->
    exists calls,
      Renderer.draw_goals r n i sim goals = Ok calls /\ length calls = n.
Proof.
  induction n as [|n IH]; intros i Hi Hn Hg.
  - exists []. split; reflexivity.
  - cbn [Renderer.draw_goals].
    destruct (getAgentPosition_inside sim i) as (a & _ & Ep); [lia|].
    destruct (goal_at_inside goals i) as (g & Eg & _); [lia|].
    rewrite Ep, Eg. cbn [bind].
    destruct (IH (i + 1)) as (calls & E & L); try lia.
    rewrite E. cbn [bind]. eexists. split; [reflexivity|].
    cbn [length]. now rewrite L.
Qed.

Lemma draw_agents_ok (r : Renderer.t) (radius : float) (sim : RVOSimulator)
      (n : nat) :
  forall i,
    0 <= i ->
    i + Z.of_nat n <= getNumAgents sim ->
    exists calls,
      Renderer.draw_agents r radius n i sim = Ok calls /\ length calls = n.
Proof.
  induction n as [|n IH]; intros i Hi Hn.
  - exists []. split; reflexivity.
  - cbn [Renderer.draw_agents].
    destruct (getAgentPosition_inside sim i) as (a & _ & Ep); [lia|].
    rewrite Ep. cbn [bind].
    destruct (IH (i + 1)) as (calls & E & L); try lia.
    rewrite E. cbn [bind]. eexists. split; [reflexivity|].
    cbn [length]. now rewrite L.
Qed.

(** The scene of a consistent simulation can be drawn. *)
Lemma draw_scene_ok (r : Renderer.t) (o : Simulation.options_t)
      (s : Simulation.t) (capture : bool) (mx my : Z) :
  consistent s ->
  exists calls, Renderer.draw_scene r o s capture mx my = Ok calls.
Proof.
  intros (sim & Hs & Hg & Hn & _).
  assert (H0 : 0 <= getNumAgents sim) by (unfold getNumAgents; lia).
  unfold Renderer.draw_scene. rewrite Hs. cbn [Simulation.deref bind].
  destruct (draw_goals_ok r sim (Simulation.goals s)
              (Z.to_nat (getNumAgents sim)) 0) as (lines & El & _); try lia.
  destruct (draw_agents_ok r (Simulation.radius o) sim
              (Z.to_nat (getNumAgents sim)) 0) as (agents & Ea & _); try lia.
  rewrite El, Ea.
  destruct (Simulation.show_goal o); cbn [bind];
    destruct (Renderer.draw_obstacles r (mkVector2 f0 f0)
                                      (Simulation.obstacles s));
    eexists; reflexivity.
Qed.

(** [draw] on a consistent simulation, with options from the controls
    that [initialize] can carry out. *)
Lemma draw_keeps
      (cos sin : double -> double) (r : Renderer.t) (ui : Renderer.ui_state)
      (capture : bool) (mx my : Z) (s : Simulation.t) :
  consistent s ->
  placeable (Renderer.ui_simulation_options ui) ->
  exists s' calls,
    Renderer.draw cos sin r ui capture mx my s
    = Ok (Renderer.mk (Renderer.ui_options ui)
                      (Renderer.width r) (Renderer.height r),
          Renderer.ui_simulation_options ui, s', calls)
    /\ consistent s'.
Proof.
  intros Hc Hp. unfold Renderer.draw.
  assert (H1 : exists s1,
             (if negb (empty (Simulation.staging_obstacle s))
              then if Renderer.add_obstacle_pressed ui
                   then Simulation.commit_obstacle s else Ok s
              else Ok s) = Ok s1 /\ consistent s1).
  { destruct (negb (empty (Simulation.staging_obstacle s)));
      [|exists s; auto].
    destruct (Renderer.add_obstacle_pressed ui); [|exists s; auto].
    destruct (commit_obstacle_consistent s Hc) as (s1 & E & C & _).
    exists s1. auto. }
  destruct H1 as (s1 & E1 & C1). rewrite E1. cbn [bind].
  assert (H2 : exists s2,
             (if Renderer.reset_pressed ui
              then Simulation.initialize
                     cos sin (Renderer.ui_simulation_options ui) s1
              else Ok s1) = Ok s2 /\ consistent s2).
  { destruct (Renderer.reset_pressed ui); [|exists s1; auto].
    destruct C1 as (sim & _ & _ & _ & _ & _ & Hf).
    destruct (initialize_consistent
                cos sin (Renderer.ui_simulation_options ui) s1 Hp Hf)
      as (s2 & E & C & _).
    exists s2. auto. }
  destruct H2 as (s2 & E2 & C2). rewrite E2. cbn [bind].
  destruct (draw_scene_ok
              (Renderer.mk (Renderer.ui_options ui)
                           (Renderer.width r) (Renderer.height r))
              (Renderer.ui_simulation_options ui) s2 capture mx my C2)
    as (calls & Ec).
  rewrite Ec. cbn [bind]. exists s2, calls. auto.
Qed.

Lemma main_loop_keeps
      (cos sin : double -> double) (doStep : RVOSimulator -> RVOSimulator)
      (app : App.t) (f : App.frame) :
  keeps_roster doStep ->
  consistent (App.simulation app) ->
  placeable (Renderer.ui_simulation_options (App.ui f)) ->
  exists continue app' calls,
    App.main_loop cos sin doStep app f = Ok (continue, app', calls)
    /\ consistent (App.simulation app').
Proof.
  intros Hk Hc Hp. unfold App.main_loop.
  destruct (draw_keeps cos sin (App.renderer app) (App.ui f)
              (App.drawing_capture_mouse f) (App.mouse_x f) (App.mouse_y f)
              (App.simulation app) Hc Hp) as (s1 & calls & E1 & C1).
  rewrite E1. cbn [bind].
  assert (H2 : exists s2,
             (if Simulation.run_simulation
                   (Renderer.ui_simulation_options (App.ui f))
              then s <- Simulation.set_preferred_velocities s1 ;;
                   Simulation.step
                     doStep s
                     (F32.mul (Simulation.time_scale
                                 (Renderer.ui_simulation_options (App.ui f)))
                              (App.dt f))
              else Ok s1) = Ok s2 /\ consistent s2).
  { destruct (Simulation.run_simulation _); [|exists s1; auto].
    destruct (set_preferred_velocities_consistent s1 C1) as (sa & Ea & Ca & _).
    rewrite Ea. cbn [bind].
    destruct (step_consistent doStep sa
                (F32.mul (Simulation.time_scale
                            (Renderer.ui_simulation_options (App.ui f)))
                         (App.dt f)) Hk Ca) as (sb & Eb & Cb & _).
    exists sb. auto. }
  destruct H2 as (s2 & E2 & C2). rewrite E2. cbn [bind].
  match goal with
  | |- context [App.poll_events cos sin ?a (App.pending f)] =>
      destruct (poll_events_keeps cos sin (App.pending f) a C2 Hp)
        as (c & app' & E3 & C3 & _)
  end.
  rewrite E3. cbn [bind]. exists c, app', calls. auto.
Qed.

Lemma run_frames_keeps
      (cos sin : double -> double) (doStep : RVOSimulator -> RVOSimulator)
      (frames : list App.frame) :
  keeps_roster doStep ->
  Forall (fun f => placeable (Renderer.ui_simulation_options (App.ui f)))
         frames ->
  forall app,
    consistent (App.simulation app) ->
    exists continue app',
      App.run_frames cos sin doStep app frames = Ok (continue, app')
      /\ consistent (App.simulation app').
Proof.
  intros Hk HF. induction HF as [|f rest Hf _ IH]; intros app Hc.
  - exists true, app. auto.
  - cbn [App.run_frames].
    destruct (main_loop_keeps cos sin doStep app f Hk Hc Hf)
      as (c & app1 & calls & E & C1).
    rewrite E. cbn [bind]. destruct c.
    + apply IH. exact C1.
    + exists false, app1. auto.
Qed.

(** X14.  A frame never runs into undefined behaviour: from a consistent
    simulation, with a solver step that keeps the roster and the
    obstacles and with options from the controls whose agent count is in
    range, [main_loop] returns for every state of the controls and every
    pending event; it never asks a missing solver, never reads a goal or
    an agent out of range while drawing or assigning velocities; and the
    simulation it leaves is consistent again. *)
Theorem main_loop_safe
        (cos sin : double -> double) (doStep : RVOSimulator -> RVOSimulator)
        (app : App.t) (f : App.frame) :
  keeps_roster doStep ->
  consistent (App.simulation app) ->
  placeable (Renderer.ui_simulation_options (App.ui f)) ->
  exists continue app' calls,
    App.main_loop cos sin doStep app f = Ok (continue, app', calls)
    /\ consistent (App.simulation app').
Proof. exact (main_loop_keeps cos sin doStep app f). Qed.

Lemma main_loop_safe_witness :
  keeps_roster coast
  /\ exists continue app' calls,
      App.main_loop Libm.cos Libm.sin coast app_two_agents sample_frame
      = Ok (continue, app', calls)
      /\ consistent (App.simulation app').
Proof.
  assert (Hk : keeps_roster coast).
  { intros sim. unfold coast. cbn. rewrite length_map. auto. }
  split; [exact Hk|].
  apply (main_loop_safe Libm.cos Libm.sin coast app_two_agents sample_frame).
  - exact Hk.
  - exists two_agents_solver. cbn.
    split; [reflexivity|]. split; [reflexivity|].
    split; [unfold INT_MAX; lia|]. split; [reflexivity|].
    split; [reflexivity|]. constructor.
  - intros H. cbn in H. discriminate.
Defined.

(** X15.  The program as a whole: after [App()] with options whose agent
    count is in range, any number of frames run without a fault as long
    as the options the controls leave stay in range; each frame finds and
    leaves one goal per agent and the committed polygons, all of three
    vertices or more, in the solver. *)
Theorem run_frames_safe
        (cos sin : double -> double) (doStep : RVOSimulator -> RVOSimulator)
        (r : Renderer.t) (o : Simulation.options_t)
        (frames : list App.frame) :
  keeps_roster doStep ->
  placeable o ->
  Forall (fun f => placeable (Renderer.ui_simulation_options (App.ui f)))
         frames ->
  exists app continue app',
    App.construct cos sin r o = Ok app
    /\ consistent (App.simulation app)
    /\ App.run_frames cos sin doStep app frames = Ok (continue, app')
    /\ consistent (App.simulation app').
Proof.
  intros Hk Hp HF. unfold App.construct.
  destruct (initialize_consistent cos sin o Simulation.default Hp)
    as (s & E & C & _); [constructor|].
  rewrite E. cbn [bind].
  destruct (run_frames_keeps cos sin doStep frames Hk HF (App.mk r o s) C)
    as (c & app' & E' & C').
  exists (App.mk r o s), c, app'. auto.
Qed.

Lemma run_frames_safe_witness :
  exists app continue app',
    App.construct Libm.cos Libm.sin default_renderer default_sim_options
    = Ok app
    /\ consistent (App.simulation app)
    /\ App.run_frames Libm.cos Libm.sin coast app [sample_frame; sample_frame]
       = Ok (continue, app')
    /\ consistent (App.simulation app').
Proof.
  apply (run_frames_safe Libm.cos Libm.sin coast default_renderer
                         default_sim_options [sample_frame; sample_frame]).
  - intros sim. unfold coast. cbn. rewrite length_map. auto.
  - intros _. unfold count_in_range, INT_MAX. cbn. lia.
  - constructor; [intros H; cbn in H; discriminate|].
    constructor; [intros H; cbn in H; discriminate|constructor].
Defined.

(** ** From the start positions to the first velocities *)

(** X16.  [initialize] followed by [set_preferred_velocities] in the
    circle scenario: both return, and agent [i], placed at [p], asks for
    the velocity [(-p) - p], straight through the centre of the circle
    towards the point opposite. *)
Theorem circle_first_velocities
        (cos sin : double -> double)
        (options : Simulation.options_t) (s : Simulation.t) :
  Simulation.configuration options = Simulation.CIRCLE ->
  count_in_range options ->
  exists s1 s2 sim2,
    Simulation.initialize cos sin options s = Ok s1
    /\ Simulation.set_preferred_velocities s1 = Ok s2
    /\ Simulation.simulator s2 = Some sim2
    /\ Simulation.goals s2 = Simulation.goals s1
    /\ forall i, 0 <= i < Simulation.numAgents options ->
         let p := Simulation.circle_position cos sin options i in
         nth_error (agent_positions sim2) (Z.to_nat i) = Some p
         /\ nth_error (pref_velocities sim2) (Z.to_nat i)
            = Some (RVO.minus (RVO.neg p) p).
Proof.
  intros Hc Hn.
  pose proof (initialize_circle cos sin options s Hc Hn) as H1.
  cbv zeta in H1.
  remember (circle_positions cos sin options 0
              (Z.to_nat (Simulation.numAgents options))) as ps eqn:Eps.
  remember (add_agents (fresh_solver options (Simulation.obstacles s)) ps)
    as sim1 eqn:Esim.
  assert (Hlen : length ps = Z.to_nat (Simulation.numAgents options))
    by (subst ps; apply circle_positions_length).
  assert (Hpos : agent_positions sim1 = ps)
    by (subst sim1; rewrite add_agents_positions; reflexivity).
  assert (Hnum : getNumAgents sim1 = Simulation.numAgents options).
  { rewrite getNumAgents_positions, Hpos, Hlen.
    unfold count_in_range in Hn. lia. }
  unfold count_in_range in Hn.
  destruct (set_preferred_velocities_returns
              (Simulation.mk (Some sim1) (map RVO.neg ps)
                             (Simulation.staging_obstacle s)
                             (Simulation.obstacles s)) sim1)
    as (sim2 & E2 & P2 & _ & _ & V2).
  - reflexivity.
  - cbn. unfold size. rewrite length_map, Hlen. lia.
  - lia.
  - eexists _, _, sim2. split; [exact H1|]. split; [exact E2|].
    split; [reflexivity|]. split; [reflexivity|].
    intros i Hi p.
    assert (Hp : nth_error ps (Z.to_nat i) = Some p).
    { subst ps. rewrite circle_positions_nth by lia.
      rewrite Z2Nat.id by lia. reflexivity. }
    split; [rewrite P2, Hpos; exact Hp|].
    destruct (V2 i) as (g & q & G1 & G2 & G3); [lia|].
    cbn [Simulation.goals] in G1. rewrite nth_error_map, Hp in G1.
    cbn in G1. injection G1 as <-.
    destruct (getAgentPosition_inside sim1 i) as (a & Ha & Ea); [lia|].
    assert (Hq : q = p).
    { rewrite Ea in G2. injection G2 as <-.
      rewrite <- Hpos in Hp. unfold agent_positions in Hp.
      rewrite nth_error_map, Ha in Hp. cbn in Hp. congruence. }
    subst q. exact G3.
Qed.

Lemma circle_first_velocities_witness :
  count_in_range circle_of_four
  /\ exists s1 s2 sim2,
      Simulation.initialize Libm.cos Libm.sin circle_of_four
                            Simulation.default = Ok s1
      /\ Simulation.set_preferred_velocities s1 = Ok s2
      /\ Simulation.simulator s2 = Some sim2
      /\ Simulation.goals s2 = Simulation.goals s1.
Proof.
  assert (H : count_in_range circle_of_four)
    by (unfold count_in_range, INT_MAX; cbn; lia).
  split; [exact H|].
  destruct (circle_first_velocities
              Libm.cos Libm.sin circle_of_four Simulation.default eq_refl H)
    as (s1 & s2 & sim2 & H1 & H2 & H3 & H4 & _).
  exists s1, s2, sim2. auto.
Defined.

(** ** The earlier revision, by itself *)

(** X17.  [initialize] of the earlier revision, for an agent count from 0
    up: it returns a new solver without obstacles that holds the agents
    at the circle positions 0, 1, ..., in order, and the goals are those
    positions negated; what the simulation held before does not
    matter. *)
Theorem early_initialize_spec
        (cos sin : double -> double)
        (options : Simulation.options_t) (e : Early.t) :
  count_in_range options ->
  let ps := circle_positions cos sin options 0
              (Z.to_nat (Simulation.numAgents options)) in
  exists sim,
    Early.initialize cos sin options e
    = Ok (Early.mk (Some sim) (map RVO.neg ps))
    /\ agent_positions sim = ps
    /\ getNumAgents sim = Simulation.numAgents options
    /\ obstacles_ sim = []
    /\ obstacleTree_ sim = None.
Proof.
  intros Hn ps. unfold Early.initialize.
  rewrite to_size_t_count by assumption.
  unfold reserve.
  replace (vector_max_size <? Simulation.numAgents options) with false.
  2:{ symmetry. apply Z.ltb_ge. unfold count_in_range, INT_MAX in Hn.
      unfold vector_max_size.
      assert (2 ^ 31 <= (2 ^ 63 - 1) / 8) by (vm_compute; discriminate).
      lia. }
  cbn [bind]. rewrite circle_loop_ok by reflexivity.
  cbn [bind List.app]. fold ps.
  eexists. split; [reflexivity|].
  split; [rewrite add_agents_positions; reflexivity|].
  split.
  - rewrite add_agents_count. unfold ps.
    rewrite circle_positions_length. unfold count_in_range in Hn.
    cbn. lia.
  - apply add_agents_obstacles.
Qed.

Lemma early_initialize_spec_witness :
  count_in_range circle_of_four
  /\ exists sim,
      Early.initialize Libm.cos Libm.sin circle_of_four (Early.mk None [])
      = Ok (Early.mk (Some sim)
              (map RVO.neg
                   (circle_positions Libm.cos Libm.sin circle_of_four 0 4)))
      /\ getNumAgents sim = 4.
Proof.
  assert (H : count_in_range circle_of_four)
    by (unfold count_in_range, INT_MAX; cbn; lia).
  split; [exact H|].
  destruct (early_initialize_spec
              Libm.cos Libm.sin circle_of_four (Early.mk None []) H)
    as (sim & H1 & _ & H3 & _).
  exists sim. split; [exact H1|exact H3].
Defined.

(** ** A committed polygon and the reset *)

(** X18.  A polygon committed from the staging buffer survives a reset:
    [commit_obstacle] on three or more staged vertices followed by
    [initialize] leaves the polygon last in the committed list, and the
    new solver holds the whole list, the new polygon included, with its
    obstacle tree built from it; the staging buffer stays empty. *)
Theorem commit_then_initialize
        (cos sin : double -> double)
        (options : Simulation.options_t)
        (s : Simulation.t) (sim : RVOSimulator) :
  Simulation.simulator s = Some sim ->
  3 <= size (Simulation.staging_obstacle s) ->
  placeable options ->
  let committed :=
    Simulation.obstacles s ++ [Simulation.staging_obstacle s] in
  exists s1 s2 sim2,
    Simulation.commit_obstacle s = Ok s1
    /\ Simulation.initialize cos sin options s1 = Ok s2
    /\ Simulation.obstacles s2 = committed
    /\ Simulation.staging_obstacle s2 = []
    /\ Simulation.simulator s2 = Some sim2
    /\ obstacles_ sim2 = committed
    /\ obstacleTree_ sim2 = Some committed.
Proof.
  intros Hs Hsz Hp committed.
  unfold Simulation.commit_obstacle.
  replace (2 <? size (Simulation.staging_obstacle s)) with true
    by (symmetry; apply Z.ltb_lt; lia).
  rewrite Hs. cbn [Simulation.deref bind].
  eexists. 
  match goal with
  | |- exists s2 sim2, Ok ?a = Ok _ /\ _ =>
      destruct (initialize_returns cos sin options a Hp)
        as (sim2 & goals2 & E & O & T)
  end.
  eexists _, sim2. split; [reflexivity|]. split; [exact E|].
  cbn [Simulation.obstacles Simulation.staging_obstacle
       Simulation.simulator] in *.
  fold committed in O, T |- *.
  split; [reflexivity|]. split; [reflexivity|]. split; [reflexivity|].
  split; [exact O|].
  rewrite T. unfold committed.
  destruct (Simulation.obstacles s); reflexivity.
Qed.

Lemma commit_then_initialize_witness :
  3 <= size (Simulation.staging_obstacle staged_triangle)
  /\ exists s1 s2 sim2,
      Simulation.commit_obstacle staged_triangle = Ok s1
      /\ Simulation.initialize Libm.cos Libm.sin deadlock_options s1 = Ok s2
      /\ Simulation.obstacles s2 = [square; triangle]
      /\ Simulation.staging_obstacle s2 = []
      /\ Simulation.simulator s2 = Some sim2
      /\ obstacles_ sim2 = [square; triangle]
      /\ obstacleTree_ sim2 = Some [square; triangle].
Proof.
  split; [vm_compute; discriminate|].
  apply (commit_then_initialize
           Libm.cos Libm.sin deadlock_options staged_triangle
           (fresh_solver default_sim_options [square])).
  - reflexivity.
  - vm_compute. discriminate.
  - intros H. cbn in H. discriminate.
Defined.

(** ** The program from start to exit *)

(** The loop stops only at a frame for which [main_loop] returns
    [false]; the frames after it are not run. *)
Lemma run_frames_stopped
      (cos sin : double -> double) (doStep : RVOSimulator -> RVOSimulator)
      (frames : list App.frame) :
  forall app app',
    App.run_frames cos sin doStep app frames = Ok (false, app') ->
    exists before f after app1 calls,
      frames = before ++ f :: after
      /\ App.run_frames cos sin doStep app before = Ok (true, app1)
      /\ App.main_loop cos sin doStep app1 f = Ok (false, app', calls).
Proof.
  induction frames as [|f rest IH]; intros app app' H.
  - discriminate.
  - cbn [App.run_frames] in H.
    destruct (App.main_loop cos sin doStep app f) as [[[c app1] calls]|e]
      eqn:E; [|discriminate].
    cbn [bind] in H. destruct c.
    + destruct (IH app1 app' H) as (b & g & af & app2 & cs & F & R & M).
      exists (f :: b), g, af, app2, cs.
      split; [rewrite F; reflexivity|]. split; [|exact M].
      cbn [App.run_frames]. rewrite E. cbn [bind]. exact R.
    + injection H as <-. exists [], f, rest, app, calls.
      split; [reflexivity|]. split; [reflexivity|exact E].
Qed.

(** X19.  [main], with a solver step that keeps the roster and options
    that stay in range.  When SDL, the window, the renderer or the UI
    context cannot be created it exits with [EXIT_FAILURE] without
    running a frame: whatever frames are pending, the simulation is the
    one the constructor built and the options are the ones given; the
    window, the renderer and the UI context are each destroyed exactly
    once if they were created and not at all if they were not.  When
    all are created, the frames run from the constructed state with the
    window size stored; while every frame continues the program has not
    exited, and once a frame ends the loop, the frames after it not
    being run, it exits with [EXIT_SUCCESS] in the state that frame
    left, having destroyed the UI context, the renderer and the window
    once each. *)
Theorem main_exit_and_resources
        (cos sin : double -> double) (doStep : RVOSimulator -> RVOSimulator)
        (r : Renderer.t) (o : Simulation.options_t)
        (a : Renderer.sdl_answers) (frames : list App.frame) :
  keeps_roster doStep ->
  placeable o ->
  Forall (fun f => placeable (Renderer.ui_simulation_options (App.ui f)))
         frames ->
  exists s0,
    Simulation.initialize cos sin o Simulation.default = Ok s0
    /\ (all_succeed a = false ->
        exists r1 calls,
          Main.main cos sin doStep r o a frames
          = Ok (Some (Main.EXIT_FAILURE, App.mk r1 o s0), calls)
          /\ Renderer.options r1 = Renderer.options r
          /\ calls_of is_destroy_window calls
             = count_if (Renderer.init_succeeds a
                         && Renderer.window_created a)
          /\ calls_of is_destroy_renderer calls
             = count_if (Renderer.init_succeeds a
                         && Renderer.window_created a
                         && Renderer.renderer_created a)
          /\ calls_of is_destroy_context calls = 0%nat)
    /\ (all_succeed a = true ->
        exists continue app',
          App.run_frames cos sin doStep
                         (App.mk (with_window_size r a) o s0) frames
          = Ok (continue, app')
          /\ (continue = true ->
              Main.main cos sin doStep r o a frames = Ok (None, started))
          /\ (continue = false ->
              Main.main cos sin doStep r o a frames
              = Ok (Some (Main.EXIT_SUCCESS, app'), started ++ stopped)
              /\ exists before f after app1 calls,
                  frames = before ++ f :: after
                  /\ App.run_frames cos sin doStep
                                    (App.mk (with_window_size r a) o s0)
                                    before
                     = Ok (true, app1)
                  /\ App.main_loop cos sin doStep app1 f
                     = Ok (false, app', calls))).
Proof.
  intros Hk Hp HF. unfold Main.main, App.construct.
  destruct (initialize_consistent cos sin o Simulation.default Hp)
    as (s & E & C & _); [constructor|].
  exists s. split; [exact E|].
  rewrite E. cbn [bind]. unfold Main.run.
  destruct a as [[|] [|] [|] w h [|]];
    cbn [Renderer.initialize Renderer.init_succeeds Renderer.window_created
         Renderer.renderer_created Renderer.context_created negb
         Renderer.window Renderer.renderer Renderer.ui Renderer.terminate
         Renderer.no_handles bind all_succeed andb List.app
         App.renderer App.simulation_options App.simulation];
    try (split; [|discriminate]; intros _;
         eexists _, _; split; [reflexivity|]; repeat split).
  split; [discriminate|]. intros _.
  unfold with_window_size.
  cbn [Renderer.window_w Renderer.window_h].
  match goal with
  | |- context [App.run_frames cos sin doStep ?app0 frames] =>
      destruct (run_frames_keeps cos sin doStep frames Hk HF app0 C)
        as (c & app' & E' & _)
  end.
  exists c, app'. split; [exact E'|].
  rewrite E'. cbn [bind].
  split; intros ->; [reflexivity|].
  split; [reflexivity|].
  apply run_frames_stopped. exact E'.
Qed.

Lemma main_exit_and_resources_witness :
  (exists s0 app',
      Simulation.initialize Libm.cos Libm.sin default_sim_options
                            Simulation.default = Ok s0
      /\ App.run_frames Libm.cos Libm.sin coast
                        (App.mk (with_window_size default_renderer
                                                  all_created)
                                default_sim_options s0)
                        [sample_frame; quit_frame; sample_frame]
         = Ok (false, app')
      /\ Main.main Libm.cos Libm.sin coast default_renderer
                   default_sim_options
                   all_created [sample_frame; quit_frame; sample_frame]
         = Ok (Some (Main.EXIT_SUCCESS, app'), started ++ stopped))
  /\ (exists s0 r1,
         Simulation.initialize Libm.cos Libm.sin default_sim_options
                               Simulation.default = Ok s0
         /\ Main.main Libm.cos Libm.sin coast default_renderer
                      default_sim_options
                      no_renderer [sample_frame; quit_frame; sample_frame]
            = Ok (Some (Main.EXIT_FAILURE,
                        App.mk r1 default_sim_options s0),
                  [Renderer.SDL_Init; Renderer.SDL_CreateWindow;
                   Renderer.SDL_CreateRenderer; Renderer.SDL_DestroyWindow;
                   Renderer.SDL_Quit; Renderer.SDL_Quit])).
Proof.
  assert (Hk : keeps_roster coast).
  { intros sim. unfold coast. cbn. rewrite length_map. auto. }
  assert (Hp : placeable default_sim_options).
  { intros _. unfold count_in_range, INT_MAX. cbn. lia. }
  assert (HF : Forall (fun f => placeable
                                  (Renderer.ui_simulation_options (App.ui f)))
                      [sample_frame; quit_frame; sample_frame]).
  { constructor; [intros H; cbn in H; discriminate|].
    constructor; [intros H; cbn in H; discriminate|].
    constructor; [intros H; cbn in H; discriminate|constructor]. }
  split.
  - destruct (main_exit_and_resources
                Libm.cos Libm.sin coast default_renderer default_sim_options
                all_created [sample_frame; quit_frame; sample_frame]
                Hk Hp HF)
      as (s0 & E0 & _ & Hok).
    destruct (Hok eq_refl) as (c & app' & Er & Hgo & Hstop).
    assert (Ex : exists x,
               Main.main Libm.cos Libm.sin coast default_renderer
                         default_sim_options all_created
                         [sample_frame; quit_frame; sample_frame]
               = Ok (Some x, started ++ stopped))
      by (eexists; vm_compute; reflexivity).
    destruct Ex as [x Ex].
    exists s0, app'. split; [exact E0|].
    destruct c.
    + exfalso. rewrite (Hgo eq_refl) in Ex. discriminate.
    + destruct (Hstop eq_refl) as [Em _].
      split; [exact Er|exact Em].
  - destruct (main_exit_and_resources
                Libm.cos Libm.sin coast default_renderer default_sim_options
                no_renderer [sample_frame; quit_frame; sample_frame]
                Hk Hp HF)
      as (s0 & E0 & Hfail & _).
    destruct (Hfail eq_refl) as (r1 & calls & Em & _).
    assert (Ex : exists x,
               Main.main Libm.cos Libm.sin coast default_renderer
                         default_sim_options no_renderer
                         [sample_frame; quit_frame; sample_frame]
               = Ok (Some x,
                     [Renderer.SDL_Init; Renderer.SDL_CreateWindow;
                      Renderer.SDL_CreateRenderer; Renderer.SDL_DestroyWindow;
                      Renderer.SDL_Quit; Renderer.SDL_Quit]))
      by (eexists; vm_compute; reflexivity).
    destruct Ex as [x Ex].
    exists s0, r1. split; [exact E0|].
    rewrite Em in Ex. injection Ex as _ ->. exact Em.
Defined.

(** * The camera transforms, there and back *)

(** ** Digits and shifts *)

Lemma digits2_pos_bounds (p : positive) :
  2 ^ (Zpos (digits2_pos p) - 1) <= Zpos p < 2 ^ Zpos (digits2_pos p).
Proof.
  induction p as [p IH|p IH|]; cbn [digits2_pos].
  - rewrite Pos2Z.inj_succ, (Pos2Z.inj_xI p).
    replace (Z.succ (Zpos (digits2_pos p)) - 1)
      with (Z.succ (Zpos (digits2_pos p) - 1)) by lia.
    rewrite !Z.pow_succ_r by lia. revert IH.
    generalize (2 ^ (Z.pos (digits2_pos p) - 1)) (2 ^ Z.pos (digits2_pos p)).
    intros; lia.
  - rewrite Pos2Z.inj_succ, (Pos2Z.inj_xO p).
    replace (Z.succ (Zpos (digits2_pos p)) - 1)
      with (Z.succ (Zpos (digits2_pos p) - 1)) by lia.
    rewrite !Z.pow_succ_r by lia. revert IH.
    generalize (2 ^ (Z.pos (digits2_pos p) - 1)) (2 ^ Z.pos (digits2_pos p)).
    intros; lia.
  - cbn. lia.
Qed.

Lemma Zdigits2_bounds (m : Z) :
  0 < m -> 0 < Zdigits2 m /\ 2 ^ (Zdigits2 m - 1) <= m < 2 ^ Zdigits2 m.
Proof.
  destruct m as [|p|p]; try lia. intros _. cbn [Zdigits2].
  split; [lia|apply digits2_pos_bounds].
Qed.

Lemma Zdigits2_nonneg (m : Z) : 0 <= Zdigits2 m.
Proof. destruct m; cbn; lia. Qed.

Lemma Zdigits2_upper (m k : Z) :
  0 <= m -> 0 <= k -> m < 2 ^ k -> Zdigits2 m <= k.
Proof.
  intros Hm Hk H. destruct (Z.eq_dec m 0) as [->|Hne]; [cbn; lia|].
  destruct (Zdigits2_bounds m) as (Hd & Hl & _); [lia|].
  destruct (Z_le_gt_dec (Zdigits2 m) k) as [|Hgt]; [assumption|exfalso].
  assert (2 ^ k <= 2 ^ (Zdigits2 m - 1)) by (apply Z.pow_le_mono_r; lia).
  lia.
Qed.

Lemma Zdigits2_lower (m k : Z) :
  0 <= k -> 2 ^ k <= m -> k < Zdigits2 m.
Proof.
  intros Hk H.
  assert (0 < 2 ^ k) by (apply Z.pow_pos_nonneg; lia).
  destruct (Zdigits2_bounds m) as (Hd & _ & Hu); [lia|].
  destruct (Z_lt_ge_dec k (Zdigits2 m)) as [|Hge]; [assumption|exfalso].
  assert (2 ^ Zdigits2 m <= 2 ^ k) by (apply Z.pow_le_mono_r; lia).
  lia.
Qed.

Lemma shr_1_inv (N W : Z) (mrs : shr_record) :
  0 < W -> shr_inv N W mrs -> shr_inv N (2 * W) (shr_1 mrs).
Proof.
  intros HW. destruct mrs as [m r s]. unfold shr_inv.
  cbn [shr_m shr_r shr_s]. intros (Hm & Hrho & Hr & Hs).
  assert (Hrs : orb r s = true <-> N - m * W <> 0).
  { split.
    - intros H. apply orb_true_iff in H. destruct H as [H|H].
      + apply Hr in H. lia.
      + apply Hs in H. lia.
    - intros H. apply orb_true_iff.
      destruct (Z_lt_ge_dec (2 * (N - m * W)) W) as [L|L].
      + right. apply Hs. lia.
      + left. apply Hr. lia. }
  destruct m as [|[p|p|]|p]; try lia; cbn [shr_1 shr_m shr_r shr_s];
    rewrite ?(Pos2Z.inj_xI p), ?(Pos2Z.inj_xO p) in *;
    (split; [lia|]); (split; [lia|]);
    (split; [split; intros; try reflexivity; try discriminate; lia|]);
    rewrite Hrs; lia.
Qed.

Lemma iter_pos_shr_inv (N : Z) (p : positive) :
  forall W mrs,
    0 < W -> shr_inv N W mrs ->
    shr_inv N (W * 2 ^ Zpos p) (SpecFloat.iter_pos shr_1 p mrs).
Proof.
  induction p as [p IH|p IH|]; intros W mrs HW H; cbn [SpecFloat.iter_pos].
  - replace (W * 2 ^ Zpos p~1) with (2 * W * 2 ^ Zpos p * 2 ^ Zpos p).
    + assert (0 < 2 ^ Zpos p) by (apply Z.pow_pos_nonneg; lia).
      apply IH; [nia|]. apply IH; [lia|]. apply shr_1_inv; assumption.
    + rewrite (Pos2Z.inj_xI p).
      replace (2 * Zpos p + 1) with (Z.succ (Zpos p + Zpos p)) by lia.
      rewrite Z.pow_succ_r, Z.pow_add_r by lia. ring.
  - replace (W * 2 ^ Zpos p~0) with (W * 2 ^ Zpos p * 2 ^ Zpos p).
    + assert (0 < 2 ^ Zpos p) by (apply Z.pow_pos_nonneg; lia).
      apply IH; [nia|]. apply IH; [lia|]. assumption.
    + rewrite (Pos2Z.inj_xO p).
      replace (2 * Zpos p) with (Zpos p + Zpos p) by lia.
      rewrite Z.pow_add_r by lia. ring.
  - replace (W * 2 ^ 1) with (2 * W) by (rewrite Z.pow_1_r; lia).
    apply shr_1_inv; assumption.
Qed.

Lemma shr_spec (N W : Z) (mrs : shr_record) (e n : Z) :
  0 < W -> shr_inv N W mrs ->
  exists mrs',
    shr mrs e n = (mrs', e + Z.max n 0)
    /\ shr_inv N (W * 2 ^ Z.max n 0) mrs'.
Proof.
  intros HW H. destruct n as [|p|p]; cbn [shr].
  - exists mrs. change (Z.max 0 0) with 0.
    rewrite Z.add_0_r, Z.pow_0_r, Z.mul_1_r. split; [reflexivity|exact H].
  - exists (SpecFloat.iter_pos shr_1 p mrs). rewrite Z.max_l by lia.
    split; [reflexivity|]. apply iter_pos_shr_inv; assumption.
  - exists mrs. rewrite Z.max_r by lia.
    rewrite Z.add_0_r, Z.pow_0_r, Z.mul_1_r. split; [reflexivity|exact H].
Qed.

Lemma round_nearest_even_spec (N W : Z) (mrs : shr_record) :
  0 < W -> shr_inv N W mrs ->
  let m1 := round_nearest_even (shr_m mrs) (loc_of_shr_record mrs) in
  (m1 = shr_m mrs \/ m1 = shr_m mrs + 1)
  /\ 2 * Z.abs (m1 * W - N) <= W.
Proof.
  intros HW. destruct mrs as [m r s]. unfold shr_inv.
  cbn [shr_m shr_r shr_s]. intros (Hm & Hrho & Hr & Hs).
  destruct r, s; cbn [loc_of_shr_record round_nearest_even].
  - assert (W <= 2 * (N - m * W)) by (apply Hr; reflexivity).
    split; [right; reflexivity|]. lia.
  - assert (W <= 2 * (N - m * W)) by (apply Hr; reflexivity).
    assert (H2 : ~ (N - m * W <> 0 /\ 2 * (N - m * W) <> W))
      by (intros H2; apply Hs in H2; discriminate).
    assert (2 * (N - m * W) = W) by lia.
    destruct (Z.even m); [split; [left; reflexivity|lia]
                         |split; [right; reflexivity|lia]].
  - assert (~ W <= 2 * (N - m * W))
      by (intros H2; apply Hr in H2; discriminate).
    split; [left; reflexivity|]. lia.
  - assert (~ W <= 2 * (N - m * W))
      by (intros H2; apply Hr in H2; discriminate).
    split; [left; reflexivity|]. lia.
Qed.

Lemma shr_record_of_loc_exact (m : Z) :
  0 <= m -> shr_inv m 1 (shr_record_of_loc m loc_Exact).
Proof.
  intros Hm. unfold shr_inv. cbn [shr_record_of_loc shr_m shr_r shr_s].
  repeat split; intros; try lia; try discriminate.
Qed.

Section Rounding.

Variables prec emax : Z.
Hypothesis Hprec : 0 < prec.
Hypothesis Hemax : 2 <= emax.

Lemma fexp_ge_emin (e : Z) : emin prec emax <= fexp prec emax e.
Proof. unfold fexp. lia. Qed.

Lemma fexp_mono (a b : Z) : a <= b -> fexp prec emax a <= fexp prec emax b.
Proof. unfold fexp. lia. Qed.

Lemma fexp_succ (a : Z) : fexp prec emax (a + 1) <= fexp prec emax a + 1.
Proof. unfold fexp. lia. Qed.

(** A mantissa at the exponent of the format either sits at the least
    exponent or has all its [prec] digits. *)
Lemma fexp_cases (mx ex : Z) :
  0 < mx ->
  ex <= fexp prec emax (Zdigits2 mx + ex) ->
  fexp prec emax (Zdigits2 mx + ex) <= emin prec emax
  \/ 2 ^ (prec - 1) * 2 ^ (fexp prec emax (Zdigits2 mx + ex) - ex) <= mx.
Proof.
  intros Hmx Hal.
  destruct (Zdigits2_bounds mx Hmx) as (Hd & Hl & _).
  destruct (Z_le_gt_dec (fexp prec emax (Zdigits2 mx + ex)) (emin prec emax))
    as [|Hgt]; [left; assumption|right].
  assert (E : fexp prec emax (Zdigits2 mx + ex) = Zdigits2 mx + ex - prec)
    by (unfold fexp in *; lia).
  rewrite E in *. rewrite <- Z.pow_add_r by lia.
  replace (prec - 1 + (Zdigits2 mx + ex - prec - ex)) with (Zdigits2 mx - 1)
    by lia.
  exact Hl.
Qed.

(** What [binary_round_aux] returns for a mantissa and a location that
    stand for [N / D] units of [2 ^ ex], when the exponent is not above
    the one of the format and the result stays in range. *)
Lemma binary_round_aux_core (sx : bool) (mx ex : Z) (lx : location)
      (N D : Z) :
  0 < D -> 0 <= mx ->
  shr_inv N D (shr_record_of_loc mx lx) ->
  ex <= fexp prec emax (Zdigits2 mx + ex) ->
  fexp prec emax (Zdigits2 mx + ex) + 1 <= emax - prec ->
  0 < mx \/ fexp prec emax (Zdigits2 mx + ex) <= emin prec emax ->
  exists m e,
    0 <= m
    /\ fexp prec emax (Zdigits2 mx + ex) <= e
    /\ (e <= emin prec emax \/ 2 ^ (prec - 1) <= m)
    /\ binary_round_aux prec emax sx mx ex lx
       = match m with
         | Z0 => S754_zero sx
         | Zpos p => S754_finite sx p e
         | Zneg _ => S754_nan
         end
    /\ 2 * Z.abs (m * 2 ^ (e - ex) * D - N)
       <= D * 2 ^ (fexp prec emax (Zdigits2 mx + ex) - ex).
Proof.
  intros HD Hmx H0 Hal Hov Hnz.
  pose proof (fexp_ge_emin (Zdigits2 mx + ex)) as He1.
  assert (Hwf : fexp prec emax (Zdigits2 mx + ex) <= emin prec emax
                \/ 2 ^ (prec - 1)
                   * 2 ^ (fexp prec emax (Zdigits2 mx + ex) - ex) <= mx).
  { destruct Hnz as [Hnz|Hnz]; [|left; exact Hnz].
    apply fexp_cases; assumption. }
  clear Hnz.
  unfold binary_round_aux, shr_fexp.
  remember (fexp prec emax (Zdigits2 mx + ex)) as e1 eqn:Ee1.
  destruct (shr_spec N D (shr_record_of_loc mx lx) ex (e1 - ex) HD H0)
    as (mrs1 & E1 & I1).
  rewrite E1. rewrite Z.max_l in * by lia.
  replace (ex + (e1 - ex)) with e1 by lia.
  assert (Hp2 : 0 < 2 ^ (e1 - ex)) by (apply Z.pow_pos_nonneg; lia).
  remember (D * 2 ^ (e1 - ex)) as W eqn:EW.
  assert (HW : 0 < W) by (subst W; nia).
  destruct (round_nearest_even_spec N W mrs1 HW I1) as [Hm1 Herr].
  unfold shr_inv in I1.
  remember (round_nearest_even (shr_m mrs1) (loc_of_shr_record mrs1))
    as m1 eqn:Em1.
  remember (shr_m mrs1) as m eqn:Em.
  assert (Hm : 0 <= m) by (destruct I1 as [I _]; exact I).
  assert (Emx : shr_m (shr_record_of_loc mx lx) = mx)
    by (destruct lx as [|[]]; reflexivity).
  (* the shifted mantissa, against the one given *)
  assert (Hmmx : m * 2 ^ (e1 - ex) <= mx < (m + 1) * 2 ^ (e1 - ex)).
  { destruct I1 as (_ & I & _).
    destruct H0 as (_ & J & _). rewrite Emx in J. subst W. nia. }
  assert (F : fexp prec emax (Zdigits2 m + e1) <= e1).
  { destruct (Z.eq_dec m 0) as [->|Hne].
    - cbn [Zdigits2]. unfold fexp, SpecFloat.emin in *. lia.
    - destruct (Zdigits2_bounds m) as (Hd & Hl & _); [lia|].
      assert (Hmx0 : 0 < mx) by nia.
      destruct (Zdigits2_bounds mx) as (Hdx & _ & Hux); [lia|].
      assert (Zdigits2 m + (e1 - ex) <= Zdigits2 mx).
      { destruct (Z_le_gt_dec (Zdigits2 m + (e1 - ex)) (Zdigits2 mx))
          as [|Hgt]; [assumption|exfalso].
        assert (H : 2 ^ Zdigits2 mx <= 2 ^ (Zdigits2 m - 1 + (e1 - ex)))
          by (apply Z.pow_le_mono_r; lia).
        rewrite Z.pow_add_r in H by lia. nia. }
      apply Z.le_trans with (fexp prec emax (Zdigits2 mx + ex)); [|lia].
      apply fexp_mono. lia. }
  assert (Hm1le : m1 <= 2 ^ Zdigits2 m).
  { destruct (Z.eq_dec m 0) as [E|Hne].
    - rewrite E in *. cbn [Zdigits2]. rewrite Z.pow_0_r. lia.
    - destruct (Zdigits2_bounds m) as (_ & _ & Hu); lia. }
  assert (Hm10 : 0 <= m1) by lia.
  assert (Hmbig : e1 <= emin prec emax \/ 2 ^ (prec - 1) <= m).
  { destruct Hwf as [Hwf|Hwf]; [left; exact Hwf|right].
    assert (0 < 2 ^ (prec - 1)) by (apply Z.pow_pos_nonneg; lia).
    nia. }
  (* the second shift *)
  destruct (shr_spec m1 1 (shr_record_of_loc m1 loc_Exact) e1
                     (fexp prec emax (Zdigits2 m1 + e1) - e1))
    as (mrs2 & E2 & I2); [lia|apply shr_record_of_loc_exact; exact Hm10|].
  rewrite E2. rewrite Z.mul_1_l in I2.
  assert (Hn2 : fexp prec emax (Zdigits2 m1 + e1) - e1 <= 0
                \/ (fexp prec emax (Zdigits2 m1 + e1) - e1 = 1
                    /\ m1 = 2 * 2 ^ (prec - 1))).
  { destruct (Z_lt_ge_dec m1 (2 ^ Zdigits2 m)) as [Hlt|Hge].
    - left.
      assert (Zdigits2 m1 <= Zdigits2 m)
        by (apply Zdigits2_upper; [lia|apply Zdigits2_nonneg|exact Hlt]).
      assert (fexp prec emax (Zdigits2 m1 + e1)
              <= fexp prec emax (Zdigits2 m + e1))
        by (apply fexp_mono; lia).
      lia.
    - assert (Em1' : m1 = 2 ^ Zdigits2 m) by lia.
      assert (Hdm : 0 <= Zdigits2 m) by apply Zdigits2_nonneg.
      assert (Hd1 : Zdigits2 m1 = Zdigits2 m + 1).
      { assert (Zdigits2 m < Zdigits2 m1)
          by (apply Zdigits2_lower; lia).
        assert (Zdigits2 m1 <= Zdigits2 m + 1).
        { apply Zdigits2_upper; [lia|lia|].
          rewrite Em1', Z.pow_add_r, Z.pow_1_r by lia.
          assert (0 < 2 ^ Zdigits2 m) by (apply Z.pow_pos_nonneg; lia).
          lia. }
        lia. }
      rewrite Hd1.
      destruct (Z_le_gt_dec
                  (fexp prec emax (Zdigits2 m + 1 + e1) - e1) 0)
        as [|Hgt]; [left; assumption|right].
      assert (Hs : fexp prec emax (Zdigits2 m + e1 + 1)
                   <= fexp prec emax (Zdigits2 m + e1) + 1)
        by apply fexp_succ.
      replace (Zdigits2 m + e1 + 1) with (Zdigits2 m + 1 + e1) in Hs by lia.
      split; [lia|].
      assert (Zdigits2 m = prec) by (unfold fexp in *; lia).
      rewrite Em1'. replace (Zdigits2 m) with (Z.succ (prec - 1)) by lia.
      rewrite Z.pow_succ_r by lia. reflexivity. }
  assert (Hlast : exists m2 e2,
             0 <= m2 /\ e1 <= e2 <= e1 + 1
             /\ shr_m mrs2 = m2
             /\ e1 + Z.max (fexp prec emax (Zdigits2 m1 + e1) - e1) 0 = e2
             /\ m2 * 2 ^ (e2 - e1) = m1
             /\ (e2 <= emin prec emax \/ 2 ^ (prec - 1) <= m2)).
  { destruct I2 as (J0 & J & _).
    destruct Hn2 as [Hn2|[Hn2 Hev]].
    - rewrite Z.max_r in * by lia. rewrite Z.pow_0_r in J.
      exists m1, e1. split; [lia|]. split; [lia|]. split; [lia|].
      split; [lia|].
      split; [replace (e1 - e1) with 0 by lia; rewrite Z.pow_0_r; lia|].
      destruct Hmbig as [|Hb]; [left; assumption|right; lia].
    - rewrite Hn2 in *. change (Z.max 1 0) with 1 in *.
      rewrite Z.pow_1_r in J.
      exists (2 ^ (prec - 1)), (e1 + 1).
      assert (0 < 2 ^ (prec - 1)) by (apply Z.pow_pos_nonneg; lia).
      split; [lia|]. split; [lia|]. split; [lia|]. split; [lia|].
      split; [replace (e1 + 1 - e1) with 1 by lia; rewrite Z.pow_1_r; lia|].
      right. lia. }
  destruct Hlast as (m2 & e2 & Hm2 & He2 & Es & Ee & Ev & Hw2).
  rewrite Ee.
  exists m2, e2. split; [exact Hm2|]. split; [lia|]. split; [exact Hw2|].
  split.
  - rewrite Es. destruct m2 as [|p|p]; [reflexivity| |lia].
    replace (e2 <=? emax - prec) with true; [reflexivity|].
    symmetry. apply Z.leb_le. lia.
  - replace (m2 * 2 ^ (e2 - ex) * D) with (m1 * W); [exact Herr|].
    rewrite <- Ev, EW.
    replace (e2 - ex) with ((e2 - e1) + (e1 - ex)) by lia.
    rewrite Z.pow_add_r by lia. ring.
Qed.

End Rounding.

(** ** Values *)

Lemma bpow_pos (e : Z) : (0 < bpow e)%R.
Proof. apply powerRZ_lt. lra. Qed.

Lemma bpow_add (a b : Z) : bpow (a + b) = (bpow a * bpow b)%R.
Proof. apply powerRZ_add. lra. Qed.

Lemma bpow_IZR (e : Z) : 0 <= e -> bpow e = IZR (2 ^ e).
Proof.
  intros He. unfold bpow. rewrite <- (Z2Nat.id e He).
  rewrite <- pow_powerRZ, pow_IZR. reflexivity.
Qed.

Lemma bpow_0 : bpow 0 = 1%R.
Proof. reflexivity. Qed.

Lemma bpow_1 : bpow 1 = 2%R.
Proof. apply powerRZ_1. Qed.

Lemma bpow_le (a b : Z) : a <= b -> (bpow a <= bpow b)%R.
Proof.
  intros H. replace b with (a + (b - a)) by lia.
  rewrite bpow_add, (bpow_IZR (b - a)) by lia.
  assert (1 <= 2 ^ (b - a)) by (apply Z.lt_pred_le, Z.pow_pos_nonneg; lia).
  apply IZR_le in H0. pose proof (bpow_pos a). nra.
Qed.

Lemma bpow_lt_inv (a b : Z) : (bpow a < bpow b)%R -> a < b.
Proof.
  intros H. destruct (Z_lt_ge_dec a b) as [|Hge]; [assumption|exfalso].
  assert (bpow b <= bpow a)%R by (apply bpow_le; lia). lra.
Qed.

Lemma IZR_cond_Zopp (s : bool) (m : Z) :
  IZR (cond_Zopp s m) = (if s then - IZR m else IZR m)%R.
Proof. destruct s; cbn [cond_Zopp]; [apply opp_IZR|reflexivity]. Qed.

Lemma Zdigits2_unique (m k : Z) :
  0 < m -> 2 ^ (k - 1) <= m < 2 ^ k -> Zdigits2 m = k.
Proof.
  intros Hm [Hl Hu].
  assert (Hk : 0 < k).
  { destruct (Z_lt_ge_dec 0 k) as [|Hge]; [assumption|exfalso].
    destruct (Z.eq_dec k 0) as [->|]; [rewrite Z.pow_0_r in Hu; lia|].
    rewrite Z.pow_neg_r in Hu by lia. lia. }
  assert (Zdigits2 m <= k) by (apply Zdigits2_upper; lia).
  assert (k - 1 < Zdigits2 m) by (apply Zdigits2_lower; lia).
  lia.
Qed.

Lemma Zdigits2_shift (m k : Z) :
  0 < m -> 0 <= k -> Zdigits2 (m * 2 ^ k) = Zdigits2 m + k.
Proof.
  intros Hm Hk. destruct (Zdigits2_bounds m Hm) as (Hd & Hl & Hu).
  assert (0 < 2 ^ k) by (apply Z.pow_pos_nonneg; lia).
  apply Zdigits2_unique; [nia|].
  replace (Zdigits2 m + k - 1) with (Zdigits2 m - 1 + k) by lia.
  rewrite !Z.pow_add_r by lia. nia.
Qed.

Lemma iter_xO (m d : positive) :
  Zpos (Pos.iter xO m d) = Zpos m * 2 ^ Zpos d.
Proof.
  induction d as [|d IH] using Pos.peano_ind.
  - cbn [Pos.iter]. rewrite Z.pow_1_r. lia.
  - rewrite Pos.iter_succ, (Pos2Z.inj_xO (Pos.iter xO m d)), IH.
    rewrite Pos2Z.inj_succ, Z.pow_succ_r by lia. ring.
Qed.

Lemma shl_align_spec (mx : positive) (ex ex' : Z) :
  snd (shl_align mx ex ex') = Z.min ex ex'
  /\ Zpos (fst (shl_align mx ex ex'))
     = Zpos mx * 2 ^ (ex - Z.min ex ex').
Proof.
  unfold shl_align. destruct (ex' - ex) as [|d|d] eqn:E; cbn [fst snd].
  - rewrite Z.min_l by lia. replace (ex - ex) with 0 by lia.
    rewrite Z.pow_0_r. lia.
  - rewrite Z.min_l by lia. replace (ex - ex) with 0 by lia.
    rewrite Z.pow_0_r. lia.
  - rewrite Z.min_r by lia. split; [reflexivity|].
    rewrite iter_xO. f_equal. f_equal. lia.
Qed.

Section RoundingValue.

Variables prec emax : Z.
Hypothesis Hprec : 0 < prec.
Hypothesis Hemax : 2 <= emax.

Lemma binary_round_aux_R (sx : bool) (mx ex : Z) (lx : location)
      (N D : Z) :
  0 < D -> 0 <= mx ->
  shr_inv N D (shr_record_of_loc mx lx) ->
  ex <= fexp prec emax (Zdigits2 mx + ex) ->
  fexp prec emax (Zdigits2 mx + ex) + 1 <= emax - prec ->
  0 < mx \/ fexp prec emax (Zdigits2 mx + ex) <= emin prec emax ->
  good prec emax (binary_round_aux prec emax sx mx ex lx) = true
  /\ (Rabs (F2R (binary_round_aux prec emax sx mx ex lx)
            - (if sx then -1 else 1) * (IZR N / IZR D * bpow ex))
      <= bpow (- prec) * (IZR N / IZR D * bpow ex)
         + bpow (emin prec emax) / 2)%R.
Proof.
  intros HD Hmx H0 Hal Hov Hnz.
  destruct (binary_round_aux_core prec emax Hprec Hemax sx mx ex lx N D
              HD Hmx H0 Hal Hov Hnz)
    as (m & e & Hm & He & Hw & E & Herr).
  pose proof (fexp_ge_emin prec emax (Zdigits2 mx + ex)) as He1.
  remember (fexp prec emax (Zdigits2 mx + ex)) as e1 eqn:Ee1.
  assert (HDR : (0 < IZR D)%R) by (apply IZR_lt; exact HD).
  assert (Emx : shr_m (shr_record_of_loc mx lx) = mx)
    by (destruct lx as [|[]]; reflexivity).
  assert (HN : mx * D <= N).
  { destruct H0 as (_ & J & _). rewrite Emx in J. lia. }
  rewrite E. split.
  - destruct m as [|p|p]; [reflexivity| |lia].
    cbn [good]. apply orb_true_iff.
    destruct Hw as [Hw|Hw]; [right; apply Z.leb_le; exact Hw|left].
    apply Z.leb_le.
    assert (prec - 1 < Zdigits2 (Zpos p))
      by (apply Zdigits2_lower; [lia|exact Hw]).
    lia.
  - (* the value returned *)
    assert (EF : F2R (match m with
                      | 0 => S754_zero sx
                      | Zpos p => S754_finite sx p e
                      | Zneg _ => S754_nan
                      end)
                 = ((if sx then -1 else 1)
                    * (IZR (m * 2 ^ (e - ex)) * bpow ex))%R).
    { rewrite mult_IZR, <- bpow_IZR by lia.
      rewrite Rmult_assoc, <- bpow_add.
      replace (e - ex + ex) with e by lia.
      destruct m as [|p|p]; [|cbn [F2R]; rewrite IZR_cond_Zopp|lia].
      - cbn [F2R]. destruct sx; lra.
      - destruct sx; lra. }
    rewrite EF.
    replace ((if sx then -1 else 1) * (IZR (m * 2 ^ (e - ex)) * bpow ex)
             - (if sx then -1 else 1) * (IZR N / IZR D * bpow ex))%R
      with ((if sx then -1 else 1)
            * ((IZR (m * 2 ^ (e - ex) * D - N) / IZR D) * bpow ex))%R.
    2:{ rewrite minus_IZR, (mult_IZR _ D). destruct sx; field; lra. }
    assert (Hs : forall r : R,
               Rabs ((if sx then -1 else 1) * r) = Rabs r).
    { intros r. destruct sx.
      - replace (-1 * r)%R with (- r)%R by ring. apply Rabs_Ropp.
      - f_equal. ring. }
    rewrite Hs. pose proof (bpow_pos ex) as Hbx.
    rewrite Rabs_mult, (Rabs_pos_eq (bpow ex)) by lra.
    unfold Rdiv at 1. rewrite Rabs_mult, (Rabs_pos_eq (/ IZR D)).
    2:{ apply Rlt_le, Rinv_0_lt_compat. exact HDR. }
    rewrite <- abs_IZR.
    apply IZR_le in Herr. rewrite !mult_IZR in Herr.
    rewrite <- bpow_IZR in Herr by lia.
    (* half an ulp, against the value *)
    assert (Hulp : (bpow (e1 - ex) * bpow ex / 2
                    <= bpow (- prec) * (IZR N / IZR D * bpow ex)
                       + bpow (emin prec emax) / 2)%R).
    { rewrite <- bpow_add. replace (e1 - ex + ex) with e1 by lia.
      assert (HX : (0 <= IZR N / IZR D * bpow ex)%R).
      { apply Rmult_le_pos; [|lra].
        apply Rmult_le_pos; [|apply Rlt_le, Rinv_0_lt_compat; exact HDR].
        apply IZR_le. nia. }
      pose proof (bpow_pos (- prec)) as Hu.
      destruct (Z_le_gt_dec e1 (emin prec emax)) as [Hle|Hgt].
      - replace e1 with (emin prec emax) by lia.
        assert (0 <= bpow (- prec) * (IZR N / IZR D * bpow ex))%R
          by (apply Rmult_le_pos; lra).
        lra.
      - assert (Hmx0 : 0 < mx) by lia.
        destruct (fexp_cases prec emax Hprec mx ex Hmx0) as [C|C];
          [lia|lia|].
        rewrite <- Ee1 in C.
        apply IZR_le in C. rewrite mult_IZR, <- !bpow_IZR in C by lia.
        assert (HmxN : (IZR mx <= IZR N / IZR D)%R).
        { apply IZR_le in HN. rewrite mult_IZR in HN.
          apply Rmult_le_reg_r with (IZR D); [exact HDR|].
          replace (IZR N / IZR D * IZR D)%R with (IZR N) by (field; lra).
          exact HN. }
        replace e1 with (- prec + ((prec - 1) + (e1 - ex) + ex + 1)) at 1
          by lia.
        rewrite !bpow_add.
        rewrite bpow_1.
        pose proof (bpow_pos (emin prec emax)).
        assert (bpow (prec - 1) * bpow (e1 - ex) * bpow ex
                <= IZR N / IZR D * bpow ex)%R
          by (apply Rmult_le_compat_r; lra).
        assert (bpow (- prec) * (bpow (prec - 1) * bpow (e1 - ex) * bpow ex)
                <= bpow (- prec) * (IZR N / IZR D * bpow ex))%R
          by (apply Rmult_le_compat_l; lra).
        lra. }
    eapply Rle_trans; [|exact Hulp].
    assert (IZR (Z.abs (m * 2 ^ (e - ex) * D - N)) * / IZR D
            <= bpow (e1 - ex) / 2)%R.
    { apply Rmult_le_reg_r with (IZR D); [exact HDR|].
      rewrite Rmult_assoc, Rinv_l, Rmult_1_r by lra. lra. }
    apply Rle_trans with (bpow (e1 - ex) / 2 * bpow ex)%R; [|lra].
    apply Rmult_le_compat_r; lra.
Qed.


Lemma digits_of_bound (m e k : Z) :
  0 < m -> (IZR m * bpow e < bpow k)%R -> Zdigits2 m + e <= k.
Proof.
  intros Hm H. destruct (Zdigits2_bounds m Hm) as (Hd & Hl & _).
  apply IZR_le in Hl. rewrite <- bpow_IZR in Hl by lia.
  pose proof (bpow_pos e) as He.
  assert (bpow (Zdigits2 m - 1 + e) < bpow k)%R.
  { rewrite bpow_add. apply Rle_lt_trans with (IZR m * bpow e)%R; [|exact H].
    apply Rmult_le_compat_r; lra. }
  apply bpow_lt_inv in H0. lia.
Qed.

Lemma binary_round_R (sx : bool) (mx : positive) (ex : Z) :
  Zdigits2 (Zpos mx) + ex <= emax - 1 ->
  good prec emax (binary_round prec emax sx mx ex) = true
  /\ (Rabs (F2R (binary_round prec emax sx mx ex)
            - IZR (cond_Zopp sx (Zpos mx)) * bpow ex)
      <= bpow (- prec) * Rabs (IZR (cond_Zopp sx (Zpos mx)) * bpow ex)
         + bpow (emin prec emax) / 2)%R.
Proof.
  intros Hb. unfold binary_round.
  destruct (shl_align_spec mx ex
              (fexp prec emax (Zpos (digits2_pos mx) + ex))) as [Ez Em].
  destruct (shl_align mx ex (fexp prec emax (Zpos (digits2_pos mx) + ex)))
    as [mz ez].
  cbn [fst snd] in Ez, Em.
  change (Zpos (digits2_pos mx)) with (Zdigits2 (Zpos mx)) in *.
  assert (Hd : Zdigits2 (Zpos mz) + ez = Zdigits2 (Zpos mx) + ex).
  { rewrite Em, Zdigits2_shift by lia. lia. }
  destruct (binary_round_aux_R sx (Zpos mz) ez loc_Exact (Zpos mz) 1)
    as [G B]; try lia.
  - apply shr_record_of_loc_exact. lia.
  - rewrite Hd. lia.
  - rewrite Hd. unfold fexp, emin. lia.
  - split; [exact G|].
    assert (EV : (IZR (Zpos mz) / 1 * bpow ez
                  = IZR (Zpos mx) * bpow ex)%R).
    { rewrite Em, mult_IZR, <- bpow_IZR, <- Ez by lia.
      replace (bpow ex) with (bpow (ex - ez) * bpow ez)%R
        by (rewrite <- bpow_add; f_equal; lia).
      field. }
    rewrite EV in B. rewrite IZR_cond_Zopp.
    pose proof (bpow_pos ex). 
    assert (0 < IZR (Zpos mx))%R by (apply IZR_lt; lia).
    assert (0 < IZR (Zpos mx) * bpow ex)%R by (apply Rmult_lt_0_compat; lra).
    destruct sx.
    + replace (- IZR (Zpos mx) * bpow ex)%R
        with (-1 * (IZR (Zpos mx) * bpow ex))%R by ring.
      replace (Rabs (-1 * (IZR (Zpos mx) * bpow ex)))
        with (IZR (Zpos mx) * bpow ex)%R; [exact B|].
      rewrite Rabs_left; lra.
    + rewrite (Rabs_pos_eq (IZR (Zpos mx) * bpow ex)) by lra.
      replace (IZR (Zpos mx) * bpow ex)%R
        with (1 * (IZR (Zpos mx) * bpow ex))%R at 1 by ring.
      exact B.
Qed.

Lemma binary_normalize_R (m e : Z) :
  (Rabs (IZR m * bpow e) < bpow (emax - 1))%R ->
  good prec emax (binary_normalize prec emax m e false) = true
  /\ (Rabs (F2R (binary_normalize prec emax m e false) - IZR m * bpow e)
      <= bpow (- prec) * Rabs (IZR m * bpow e)
         + bpow (emin prec emax) / 2)%R.
Proof.
  intros Hb. pose proof (bpow_pos e) as He.
  pose proof (bpow_pos (- prec)) as Hu.
  pose proof (bpow_pos (emin prec emax)) as Hn.
  destruct m as [|p|p]; cbn [binary_normalize].
  - split; [reflexivity|]. cbn [F2R].
    replace (0 - 0 * bpow e)%R with 0%R by ring.
    replace (0 * bpow e)%R with 0%R by ring.
    rewrite Rabs_R0. lra.
  - apply (binary_round_R false p e).
    apply digits_of_bound; [lia|].
    rewrite Rabs_pos_eq in Hb; [exact Hb|].
    apply Rmult_le_pos; [apply IZR_le; lia|lra].
  - apply (binary_round_R true p e).
    apply digits_of_bound; [lia|].
    replace (IZR (Zneg p)) with (- IZR (Zpos p))%R in Hb
      by (rewrite <- opp_IZR; reflexivity).
    replace (- IZR (Zpos p) * bpow e)%R
      with (- (IZR (Zpos p) * bpow e))%R in Hb by ring.
    rewrite Rabs_Ropp, Rabs_pos_eq in Hb; [exact Hb|].
    apply Rmult_le_pos; [apply IZR_le; lia|lra].
Qed.


Lemma exact_bound (v : R) :
  (Rabs (v - v) <= bpow (- prec) * Rabs v + bpow (emin prec emax) / 2)%R.
Proof.
  replace (v - v)%R with 0%R by ring. rewrite Rabs_R0.
  pose proof (bpow_pos (- prec)). pose proof (bpow_pos (emin prec emax)).
  pose proof (Rabs_pos v).
  assert (0 <= bpow (- prec) * Rabs v)%R by (apply Rmult_le_pos; lra).
  lra.
Qed.

Lemma shl_align_value (s : bool) (mx : positive) (ex ez : Z) :
  ez <= ex ->
  (IZR (cond_Zopp s (Zpos (fst (shl_align mx ex ez)))) * bpow ez
   = IZR (cond_Zopp s (Zpos mx)) * bpow ex)%R.
Proof.
  intros H. destruct (shl_align_spec mx ex ez) as [_ E].
  rewrite !IZR_cond_Zopp, E, Z.min_r, mult_IZR, <- bpow_IZR by lia.
  replace (bpow ex) with (bpow (ex - ez) * bpow ez)%R
    by (rewrite <- bpow_add; f_equal; lia).
  destruct s; ring.
Qed.

Lemma SFadd_R (x y : spec_float) :
  good prec emax x = true -> good prec emax y = true ->
  (Rabs (F2R x + F2R y) < bpow (emax - 1))%R ->
  good prec emax (SFadd prec emax x y) = true
  /\ (Rabs (F2R (SFadd prec emax x y) - (F2R x + F2R y))
      <= bpow (- prec) * Rabs (F2R x + F2R y)
         + bpow (emin prec emax) / 2)%R.
Proof.
  intros Gx Gy Hb.
  destruct x as [sx| | |sx mx ex]; try discriminate;
    destruct y as [sy| | |sy my ey]; try discriminate.
  - assert (E : F2R (SFadd prec emax (S754_zero sx) (S754_zero sy)) = 0%R
                /\ good prec emax (SFadd prec emax (S754_zero sx)
                                         (S754_zero sy)) = true)
      by (destruct sx, sy; split; reflexivity).
    destruct E as [E G]. split; [exact G|]. rewrite E. cbn [F2R].
    replace (0 + 0)%R with 0%R by ring. apply exact_bound.
  - cbn [SFadd]. split; [exact Gy|].
    replace (F2R (S754_zero sx) + F2R (S754_finite sy my ey))%R
      with (F2R (S754_finite sy my ey)) by (cbn [F2R]; ring).
    apply exact_bound.
  - cbn [SFadd]. split; [exact Gx|].
    replace (F2R (S754_finite sx mx ex) + F2R (S754_zero sy))%R
      with (F2R (S754_finite sx mx ex)) by (cbn [F2R]; ring).
    apply exact_bound.
  - cbn [SFadd].
    assert (EV : (IZR (cond_Zopp sx (Zpos (fst (shl_align mx ex (Z.min ex ey))))
                       + cond_Zopp sy
                           (Zpos (fst (shl_align my ey (Z.min ex ey)))))
                  * bpow (Z.min ex ey)
                  = F2R (S754_finite sx mx ex) + F2R (S754_finite sy my ey))%R).
    { rewrite plus_IZR, Rmult_plus_distr_r.
      rewrite !shl_align_value by lia. reflexivity. }
    rewrite <- EV in *. apply binary_normalize_R. exact Hb.
Qed.

Lemma SFsub_R (x y : spec_float) :
  good prec emax x = true -> good prec emax y = true ->
  (Rabs (F2R x - F2R y) < bpow (emax - 1))%R ->
  good prec emax (SFsub prec emax x y) = true
  /\ (Rabs (F2R (SFsub prec emax x y) - (F2R x - F2R y))
      <= bpow (- prec) * Rabs (F2R x - F2R y)
         + bpow (emin prec emax) / 2)%R.
Proof.
  intros Gx Gy Hb.
  destruct x as [sx| | |sx mx ex]; try discriminate;
    destruct y as [sy| | |sy my ey]; try discriminate.
  - assert (E : F2R (SFsub prec emax (S754_zero sx) (S754_zero sy)) = 0%R
                /\ good prec emax (SFsub prec emax (S754_zero sx)
                                         (S754_zero sy)) = true)
      by (destruct sx, sy; split; reflexivity).
    destruct E as [E G]. split; [exact G|]. rewrite E. cbn [F2R].
    replace (0 - 0)%R with 0%R by ring. apply exact_bound.
  - cbn [SFsub]. split; [exact Gy|].
    replace (F2R (S754_zero sx) - F2R (S754_finite sy my ey))%R
      with (F2R (S754_finite (negb sy) my ey)).
    + apply exact_bound.
    + cbn [F2R]. rewrite !IZR_cond_Zopp. destruct sy; cbn [negb]; ring.
  - cbn [SFsub]. split; [exact Gx|].
    replace (F2R (S754_finite sx mx ex) - F2R (S754_zero sy))%R
      with (F2R (S754_finite sx mx ex)) by (cbn [F2R]; ring).
    apply exact_bound.
  - cbn [SFsub].
    assert (EV : (IZR (cond_Zopp sx (Zpos (fst (shl_align mx ex (Z.min ex ey))))
                       - cond_Zopp sy
                           (Zpos (fst (shl_align my ey (Z.min ex ey)))))
                  * bpow (Z.min ex ey)
                  = F2R (S754_finite sx mx ex) - F2R (S754_finite sy my ey))%R).
    { rewrite minus_IZR. unfold Rminus. rewrite Rmult_plus_distr_r.
      rewrite <- Ropp_mult_distr_l.
      rewrite !shl_align_value by lia. reflexivity. }
    rewrite <- EV in *. apply binary_normalize_R. exact Hb.
Qed.

Lemma good_digits (s : bool) (m : positive) (e : Z) :
  good prec emax (S754_finite s m e) = true ->
  prec <= Zdigits2 (Zpos m) \/ e <= emin prec emax.
Proof.
  cbn [good]. intros H. apply orb_true_iff in H.
  destruct H as [H|H]; [left|right]; apply Z.leb_le; exact H.
Qed.

Lemma Zdigits2_mul (a b : Z) :
  0 < a -> 0 < b -> Zdigits2 a + Zdigits2 b - 1 <= Zdigits2 (a * b).
Proof.
  intros Ha Hb.
  destruct (Zdigits2_bounds a Ha) as (Da & La & _).
  destruct (Zdigits2_bounds b Hb) as (Db & Lb & _).
  assert (Zdigits2 a - 1 + (Zdigits2 b - 1) < Zdigits2 (a * b)).
  { apply Zdigits2_lower; [lia|]. rewrite Z.pow_add_r by lia.
    assert (0 < 2 ^ (Zdigits2 a - 1)) by (apply Z.pow_pos_nonneg; lia).
    assert (0 < 2 ^ (Zdigits2 b - 1)) by (apply Z.pow_pos_nonneg; lia).
    nia. }
  lia.
Qed.

Lemma SFmul_R (x y : spec_float) :
  good prec emax x = true -> good prec emax y = true ->
  (Rabs (F2R x * F2R y) < bpow (emax - 1))%R ->
  good prec emax (SFmul prec emax x y) = true
  /\ (Rabs (F2R (SFmul prec emax x y) - F2R x * F2R y)
      <= bpow (- prec) * Rabs (F2R x * F2R y)
         + bpow (emin prec emax) / 2)%R.
Proof.
  intros Gx Gy Hb.
  destruct x as [sx| | |sx mx ex]; try discriminate;
    destruct y as [sy| | |sy my ey]; try discriminate;
    try (cbn [SFmul]; split; [reflexivity|];
         match goal with
         | |- context [(F2R ?a * F2R ?b)%R] =>
             replace (F2R a * F2R b)%R with (F2R (S754_zero false))
               by (cbn [F2R]; ring)
         end;
         apply exact_bound).
  cbn [SFmul].
  pose proof (bpow_pos ex) as Hex. pose proof (bpow_pos ey) as Hey.
  assert (Hmx : (0 < IZR (Zpos mx))%R) by (apply IZR_lt; lia).
  assert (Hmy : (0 < IZR (Zpos my))%R) by (apply IZR_lt; lia).
  assert (EV : (IZR (Zpos (mx * my)) / 1 * bpow (ex + ey)
                = IZR (Zpos mx) * bpow ex * (IZR (Zpos my) * bpow ey))%R).
  { rewrite Pos2Z.inj_mul, mult_IZR, bpow_add. field. }
  assert (HV : (0 < IZR (Zpos mx) * bpow ex * (IZR (Zpos my) * bpow ey))%R)
    by (repeat apply Rmult_lt_0_compat; lra).
  assert (EA : Rabs (F2R (S754_finite sx mx ex) * F2R (S754_finite sy my ey))
               = (IZR (Zpos mx) * bpow ex * (IZR (Zpos my) * bpow ey))%R).
  { cbn [F2R]. rewrite !IZR_cond_Zopp.
    destruct sx, sy;
      match goal with
      | |- Rabs ?v = ?w =>
          (replace v with w by ring; apply Rabs_pos_eq; lra)
          || (replace v with (- w)%R by ring;
              rewrite Rabs_Ropp; apply Rabs_pos_eq; lra)
      end. }
  rewrite EA in *.
  assert (Hd : Zdigits2 (Zpos (mx * my)) + (ex + ey) <= emax - 1).
  { apply digits_of_bound; [lia|].
    rewrite Pos2Z.inj_mul, mult_IZR, bpow_add.
    replace (IZR (Zpos mx) * IZR (Zpos my) * (bpow ex * bpow ey))%R
      with (IZR (Zpos mx) * bpow ex * (IZR (Zpos my) * bpow ey))%R by ring.
    exact Hb. }
  destruct (binary_round_aux_R (xorb sx sy) (Zpos (mx * my)) (ex + ey)
              loc_Exact (Zpos (mx * my)) 1) as [G B]; try lia.
  - apply shr_record_of_loc_exact. lia.
  - pose proof (Zdigits2_mul (Zpos mx) (Zpos my)) as Hm.
    rewrite <- Pos2Z.inj_mul in Hm.
    destruct (Zdigits2_bounds (Zpos mx)) as (Dx & _); [lia|].
    destruct (Zdigits2_bounds (Zpos my)) as (Dy & _); [lia|].
    destruct (good_digits _ _ _ Gx) as [Cx|Cx];
      destruct (good_digits _ _ _ Gy) as [Cy|Cy];
      unfold fexp, emin in *; lia.
  - unfold fexp, emin. lia.
  - split; [exact G|]. rewrite EV in B.
    replace (F2R (S754_finite sx mx ex) * F2R (S754_finite sy my ey))%R
      with ((if xorb sx sy then -1 else 1)
            * (IZR (Zpos mx) * bpow ex * (IZR (Zpos my) * bpow ey)))%R;
      [exact B|].
    cbn [F2R]. rewrite !IZR_cond_Zopp. destruct sx, sy; cbn [xorb]; ring.
Qed.


Lemma new_location_inv (D r q N : Z) :
  0 < D -> 0 <= r < D -> 0 <= q -> N = q * D + r ->
  shr_inv N D (shr_record_of_loc q (new_location D r)).
Proof.
  intros HD Hr Hq ->. unfold new_location, new_location_even, new_location_odd.
  assert (Hodd : Z.even D = false -> 2 * r <> D).
  { intros Ev Heq. rewrite <- Heq, Z.even_mul in Ev. discriminate. }
  unfold shr_inv.
  destruct (Z.even D) eqn:Ev; destruct (Z.eqb_spec r 0) as [E0|E0];
    [| destruct (Z.compare_spec (2 * r) D)
     | | destruct (Z.compare_spec (2 * r + 1) D)];
    cbn [shr_record_of_loc shr_m shr_r shr_s];
    replace (q * D + r - q * D) with r by ring;
    try specialize (Hodd eq_refl);
    (split; [exact Hq|]); (split; [lia|]);
    split; split; intros; try reflexivity; try discriminate; try lia.
Qed.

Lemma SFdiv_R (x : spec_float) (sy : bool) (my : positive) (ey : Z) :
  good prec emax x = true ->
  (Rabs (F2R x / F2R (S754_finite sy my ey)) < bpow (emax - 1))%R ->
  good prec emax (SFdiv prec emax x (S754_finite sy my ey)) = true
  /\ (Rabs (F2R (SFdiv prec emax x (S754_finite sy my ey))
            - F2R x / F2R (S754_finite sy my ey))
      <= bpow (- prec) * Rabs (F2R x / F2R (S754_finite sy my ey))
         + bpow (emin prec emax) / 2)%R.
Proof.
  intros Gx Hb.
  pose proof (bpow_pos ey) as Hey.
  assert (Hmy : (0 < IZR (Zpos my))%R) by (apply IZR_lt; lia).
  assert (HY : F2R (S754_finite sy my ey) <> 0%R).
  { cbn [F2R]. rewrite IZR_cond_Zopp. destruct sy; nra. }
  destruct x as [sx| | |sx mx ex]; try discriminate.
  - cbn [SFdiv]. split; [reflexivity|].
    replace (F2R (S754_zero sx) / F2R (S754_finite sy my ey))%R
      with (F2R (S754_zero (xorb sx sy))).
    + apply exact_bound.
    + cbn [F2R]. unfold Rdiv. rewrite Rmult_0_l. reflexivity.
  - pose proof (bpow_pos ex) as Hex.
    assert (Hmx : (0 < IZR (Zpos mx))%R) by (apply IZR_lt; lia).
    cbn [SFdiv]. unfold SFdiv_core_binary.
    remember (Z.min (fexp prec emax (Zdigits2 (Zpos mx) + ex
                                     - (Zdigits2 (Zpos my) + ey)))
                    (ex - ey)) as e' eqn:Ee'.
    remember (ex - ey - e') as s eqn:Es.
    assert (Hs : 0 <= s) by lia.
    assert (Em' : match s with
                  | 0 => Zpos mx
                  | Zpos _ => Z.shiftl (Zpos mx) s
                  | Zneg _ => 0
                  end = Zpos mx * 2 ^ s).
    { destruct s as [|p|p]; [rewrite Z.pow_0_r; lia| |lia].
      apply Z.shiftl_mul_pow2. lia. }
    rewrite Em'.
    assert (Hp : 0 < 2 ^ s) by (apply Z.pow_pos_nonneg; lia).
    pose proof (Z_div_mod (Zpos mx * 2 ^ s) (Zpos my)) as Hdm.
    destruct (Z.div_eucl (Zpos mx * 2 ^ s) (Zpos my)) as [q r].
    destruct Hdm as [Eq Hr]; [lia|].
    assert (Hq : 0 <= q) by nia.
    destruct (Zdigits2_bounds (Zpos mx)) as (Dx & Lx & Ux); [lia|].
    destruct (Zdigits2_bounds (Zpos my)) as (Dy & Ly & Uy); [lia|].
    (* the quotient has the digits of the format *)
    assert (Hdq : Zdigits2 (Zpos mx) + s - Zdigits2 (Zpos my) <= Zdigits2 q).
    { pose proof (Zdigits2_nonneg q).
      destruct (Z_le_gt_dec
                  (Zdigits2 (Zpos mx) + s - Zdigits2 (Zpos my)) 0)
        as [|Hgt]; [lia|].
      assert (Zdigits2 (Zpos mx) + s - Zdigits2 (Zpos my) - 1 < Zdigits2 q);
        [|lia].
      apply Zdigits2_lower; [lia|].
      remember (Zdigits2 (Zpos mx) + s - Zdigits2 (Zpos my) - 1) as a.
      assert (0 < 2 ^ a) by (apply Z.pow_pos_nonneg; lia).
      assert (E1 : 2 ^ (Zdigits2 (Zpos mx) - 1) * 2 ^ s
                   = 2 ^ a * 2 ^ Zdigits2 (Zpos my)).
      { rewrite <- !Z.pow_add_r by lia. f_equal. lia. }
      destruct (Z_le_gt_dec (2 ^ a) q) as [|Hlt]; [assumption|exfalso].
      nia. }
    (* the value, as a quotient of integers *)
    assert (EV : (IZR (Zpos mx * 2 ^ s) / IZR (Zpos my) * bpow e'
                  = IZR (Zpos mx) * bpow ex / (IZR (Zpos my) * bpow ey))%R).
    { rewrite mult_IZR, <- bpow_IZR by lia.
      replace (bpow ex) with (bpow s * bpow e' * bpow ey)%R.
      - field. split; lra.
      - rewrite <- !bpow_add. f_equal. lia. }
    assert (HV : (0 < IZR (Zpos mx) * bpow ex / (IZR (Zpos my) * bpow ey))%R).
    { apply Rdiv_lt_0_compat; apply Rmult_lt_0_compat; lra. }
    assert (ES : (F2R (S754_finite sx mx ex) / F2R (S754_finite sy my ey)
                  = (if xorb sx sy then -1 else 1)
                    * (IZR (Zpos mx) * bpow ex
                       / (IZR (Zpos my) * bpow ey)))%R).
    { cbn [F2R]. rewrite !IZR_cond_Zopp.
      destruct sx, sy; cbn [xorb]; field; split; lra. }
    assert (EA : Rabs (F2R (S754_finite sx mx ex)
                       / F2R (S754_finite sy my ey))
                 = (IZR (Zpos mx) * bpow ex
                    / (IZR (Zpos my) * bpow ey))%R).
    { rewrite ES. destruct (xorb sx sy).
      - match goal with
        | |- Rabs (-1 * ?v) = _ => replace (-1 * v)%R with (- v)%R by ring
        end.
        rewrite Rabs_Ropp. apply Rabs_pos_eq. lra.
      - rewrite Rmult_1_l. apply Rabs_pos_eq. lra. }
    rewrite EA in *.
    assert (Hqv : (IZR q * bpow e'
                   <= IZR (Zpos mx) * bpow ex / (IZR (Zpos my) * bpow ey))%R).
    { rewrite <- EV. pose proof (bpow_pos e').
      apply Rmult_le_compat_r; [lra|].
      apply Rmult_le_reg_r with (IZR (Zpos my)); [lra|].
      replace (IZR (Zpos mx * 2 ^ s) / IZR (Zpos my) * IZR (Zpos my))%R
        with (IZR (Zpos mx * 2 ^ s)) by (field; lra).
      rewrite <- mult_IZR. apply IZR_le. nia. }
    assert (Hz : q = 0 ->
                 fexp prec emax (Zdigits2 q + e') <= emin prec emax).
    { intros ->. cbn [Zdigits2].
      destruct (Z_le_gt_dec (fexp prec emax (0 + e')) (emin prec emax))
        as [|Hgt]; [assumption|exfalso].
      assert (Zdigits2 (Zpos my) <= Zdigits2 (Zpos mx) - 1 + s)
        by (unfold fexp, emin in *; lia).
      assert (2 ^ Zdigits2 (Zpos my) <= 2 ^ (Zdigits2 (Zpos mx) - 1 + s))
        by (apply Z.pow_le_mono_r; lia).
      rewrite Z.pow_add_r in * by lia. nia. }
    assert (Hal : e' <= fexp prec emax (Zdigits2 q + e')).
    { apply Z.le_trans
        with (fexp prec emax (Zdigits2 (Zpos mx) + ex
                              - (Zdigits2 (Zpos my) + ey))); [lia|].
      apply fexp_mono. lia. }
    assert (Hov : fexp prec emax (Zdigits2 q + e') + 1 <= emax - prec).
    { destruct (Z.eq_dec q 0) as [E0|E0].
      - specialize (Hz E0). unfold emin in *. lia.
      - assert (Zdigits2 q + e' <= emax - 1).
        { apply digits_of_bound; [lia|].
          eapply Rle_lt_trans; [exact Hqv|exact Hb]. }
        unfold fexp, emin. lia. }
    assert (Hnz : 0 < q
                  \/ fexp prec emax (Zdigits2 q + e') <= emin prec emax).
    { destruct (Z.eq_dec q 0) as [E0|E0];
        [right; apply Hz; exact E0|left; lia]. }
    destruct (binary_round_aux_R (xorb sx sy) q e' (new_location (Zpos my) r)
                (Zpos mx * 2 ^ s) (Zpos my)) as [G B];
      [lia|exact Hq|apply new_location_inv; lia|exact Hal|exact Hov
       |exact Hnz|].
    split; [exact G|]. rewrite EV in B. rewrite ES. exact B.
Qed.

Lemma good_opp (x : spec_float) :
  good prec emax (SFopp x) = good prec emax x.
Proof. destruct x; reflexivity. Qed.

Lemma F2R_opp (x : spec_float) : F2R (SFopp x) = (- F2R x)%R.
Proof.
  destruct x as [| | |s m e]; cbn [SFopp F2R]; try ring.
  rewrite !IZR_cond_Zopp. destruct s; cbn [negb]; ring.
Qed.

Lemma valid_good (x : spec_float) :
  valid_binary prec emax x = true ->
  match x with S754_zero _ | S754_finite _ _ _ => True | _ => False end ->
  good prec emax x = true.
Proof.
  destruct x as [| | |s m e]; try contradiction; [reflexivity|].
  cbn [valid_binary good]. unfold bounded, canonical_mantissa.
  intros H _. apply andb_true_iff in H. destruct H as [H _].
  apply Z.eqb_eq in H. apply orb_true_iff.
  change (Zpos (digits2_pos m)) with (Zdigits2 (Zpos m)) in H.
  destruct (Z_le_gt_dec prec (Zdigits2 (Zpos m))) as [Hle|Hgt].
  - left. apply Z.leb_le. exact Hle.
  - right. apply Z.leb_le. unfold fexp in H. lia.
Qed.

End RoundingValue.

(** ** binary32 *)

Lemma bpow_m24 : bpow (-24) = (/ 16777216)%R.
Proof.
  assert (H : (bpow (-24) * bpow 24 = 1)%R)
    by (rewrite <- bpow_add; reflexivity).
  rewrite (bpow_IZR 24) in H by lia.
  change (2 ^ 24) with 16777216 in H.
  apply Rmult_eq_reg_r with 16777216%R; [|lra].
  rewrite H. field.
Qed.

Lemma eta_small : (0 < eta <= / 1099511627776)%R.
Proof.
  unfold eta. pose proof (bpow_pos (-149)) as Hp.
  assert (H : (bpow (-149) <= bpow (-40))%R) by (apply bpow_le; lia).
  assert (E : (bpow (-40) * bpow 40 = 1)%R)
    by (rewrite <- bpow_add; reflexivity).
  rewrite (bpow_IZR 40) in E by lia.
  change (2 ^ 40) with 1099511627776 in E.
  assert (bpow (-40) = / 1099511627776)%R.
  { apply Rmult_eq_reg_r with 1099511627776%R; [|lra]. rewrite E. field. }
  lra.
Qed.

Lemma below_overflow (x B : R) :
  (x <= B)%R -> (B <= 1073741824)%R -> (x < bpow (F32.emax - 1))%R.
Proof.
  intros Hx HB. apply Rle_lt_trans with 1073741824%R.
  - apply Rle_trans with B; assumption.
  - change (F32.emax - 1) with 127. rewrite bpow_IZR by lia.
    apply IZR_lt. reflexivity.
Qed.

Lemma Rabs_between (x a : R) : (Rabs x <= a -> - a <= x <= a)%R.
Proof. unfold Rabs. destruct (Rcase_abs x); lra. Qed.

Lemma F32_round_bound (v X B : R) :
  (Rabs (v - X) <= bpow (- F32.prec) * Rabs X
                   + bpow (emin F32.prec F32.emax) / 2)%R ->
  (Rabs X <= B)%R ->
  (Rabs (v - X) <= B / 16777216 + eta)%R.
Proof.
  intros H HB. change (- F32.prec) with (-24) in H.
  change (emin F32.prec F32.emax) with (-149) in H.
  rewrite bpow_m24 in H. fold eta in H. lra.
Qed.

Lemma F32_add_bound (x y : float) (B : R) :
  good32 x = true -> good32 y = true ->
  (Rabs (F2R x + F2R y) <= B)%R -> (B <= 1073741824)%R ->
  good32 (F32.add x y) = true
  /\ (Rabs (F2R (F32.add x y) - (F2R x + F2R y)) <= B / 16777216 + eta)%R.
Proof.
  intros Gx Gy HB HB'.
  destruct (SFadd_R F32.prec F32.emax) with (x := x) (y := y) as [G E];
    try assumption; try (unfold F32.prec, F32.emax; lia).
  - apply below_overflow with B; assumption.
  - split; [exact G|]. apply F32_round_bound; assumption.
Qed.

Lemma F32_sub_bound (x y : float) (B : R) :
  good32 x = true -> good32 y = true ->
  (Rabs (F2R x - F2R y) <= B)%R -> (B <= 1073741824)%R ->
  good32 (F32.sub x y) = true
  /\ (Rabs (F2R (F32.sub x y) - (F2R x - F2R y)) <= B / 16777216 + eta)%R.
Proof.
  intros Gx Gy HB HB'.
  destruct (SFsub_R F32.prec F32.emax) with (x := x) (y := y) as [G E];
    try assumption; try (unfold F32.prec, F32.emax; lia).
  - apply below_overflow with B; assumption.
  - split; [exact G|]. apply F32_round_bound; assumption.
Qed.

Lemma F32_mul_bound (x y : float) (B : R) :
  good32 x = true -> good32 y = true ->
  (Rabs (F2R x * F2R y) <= B)%R -> (B <= 1073741824)%R ->
  good32 (F32.mul x y) = true
  /\ (Rabs (F2R (F32.mul x y) - F2R x * F2R y) <= B / 16777216 + eta)%R.
Proof.
  intros Gx Gy HB HB'.
  destruct (SFmul_R F32.prec F32.emax) with (x := x) (y := y) as [G E];
    try assumption; try (unfold F32.prec, F32.emax; lia).
  - apply below_overflow with B; assumption.
  - split; [exact G|]. apply F32_round_bound; assumption.
Qed.

Lemma F32_of_Z_bound (z : Z) (B : R) :
  (Rabs (IZR z) <= B)%R -> (B <= 1073741824)%R ->
  good32 (F32.of_Z z) = true
  /\ (Rabs (F2R (F32.of_Z z) - IZR z) <= B / 16777216 + eta)%R.
Proof.
  intros HB HB'.
  destruct (binary_normalize_R F32.prec F32.emax) with (m := z) (e := 0)
    as [G E]; try (unfold F32.prec, F32.emax; lia).
  - rewrite bpow_0, Rmult_1_r. apply below_overflow with B; assumption.
  - rewrite bpow_0, Rmult_1_r in E.
    split; [exact G|]. apply F32_round_bound; assumption.
Qed.

Lemma F2R_f1 : F2R f1 = 1%R /\ good32 f1 = true.
Proof.
  split; [|reflexivity].
  change f1 with (S754_finite false 8388608 (-23)).
  cbn [F2R cond_Zopp].
  assert (H : (bpow (-23) * bpow 23 = 1)%R)
    by (rewrite <- bpow_add; reflexivity).
  rewrite (bpow_IZR 23) in H by lia.
  change (2 ^ 23) with 8388608 in H. lra.
Qed.

(** [1.0f / s] for a positive [s] that is not tiny. *)
Lemma F32_inverse_bound (s : float) :
  good32 s = true -> (/ 1024 <= F2R s)%R ->
  good32 (F32.div f1 s) = true
  /\ (Rabs (F2R (F32.div f1 s) * F2R s - 1)
      <= / 16777216 + eta * F2R s)%R.
Proof.
  intros Gs Hs. pose proof eta_small.
  destruct F2R_f1 as [E1 G1].
  destruct s as [| | |ss ms es]; try discriminate;
    [cbn [F2R] in Hs; lra|].
  assert (Hinv : (0 < / F2R (S754_finite ss ms es) <= 1024)%R).
  { split; [apply Rinv_0_lt_compat; lra|].
    replace 1024%R with (/ / 1024)%R by field.
    apply Rinv_le_contravar; lra. }
  destruct (SFdiv_R F32.prec F32.emax) with (x := f1) (sy := ss) (my := ms)
                                             (ey := es) as [G E];
    try assumption; try (unfold F32.prec, F32.emax; lia).
  - rewrite E1. unfold Rdiv. rewrite Rmult_1_l.
    rewrite Rabs_pos_eq by (apply Rlt_le, Hinv).
    apply below_overflow with 1024%R; [apply Hinv|lra].
  - split; [exact G|].
    rewrite E1 in E. unfold Rdiv in E. rewrite Rmult_1_l in E.
    rewrite (Rabs_pos_eq (/ _)) in E by (apply Rlt_le, Hinv).
    change (- F32.prec) with (-24) in E.
    change (emin F32.prec F32.emax) with (-149) in E.
    rewrite bpow_m24 in E. fold eta in E.
    remember (F2R (S754_finite ss ms es)) as Sc eqn:ES.
    remember (F2R (F32.div f1 (S754_finite ss ms es))) as Iv eqn:EI.
    change (SFdiv F32.prec F32.emax f1 (S754_finite ss ms es))
      with (F32.div f1 (S754_finite ss ms es)) in E.
    rewrite <- EI in E.
    replace (Iv * Sc - 1)%R with ((Iv - / Sc) * Sc)%R by (field; lra).
    rewrite Rabs_mult, (Rabs_pos_eq Sc) by lra.
    apply Rle_trans with ((/ 16777216 * / Sc + eta) * Sc)%R.
    + apply Rmult_le_compat_r; [lra|exact E].
    + apply Req_le. field. lra.
Qed.

Lemma F32_mul_rel (x y : float) (B : R) :
  good32 x = true -> good32 y = true ->
  (Rabs (F2R x * F2R y) <= B)%R -> (B <= 1073741824)%R ->
  good32 (F32.mul x y) = true
  /\ (Rabs (F2R (F32.mul x y) - F2R x * F2R y)
      <= Rabs (F2R x * F2R y) / 16777216 + eta)%R.
Proof.
  intros Gx Gy HB HB'.
  destruct (SFmul_R F32.prec F32.emax) with (x := x) (y := y) as [G E];
    try assumption; try (unfold F32.prec, F32.emax; lia).
  - apply below_overflow with B; assumption.
  - split; [exact G|].
    change (- F32.prec) with (-24) in E.
    change (emin F32.prec F32.emax) with (-149) in E.
    rewrite bpow_m24 in E. fold eta in E.
    change (SFmul F32.prec F32.emax x y) with (F32.mul x y) in E. lra.
Qed.

Lemma Rabs_mul_bound (a b A B : R) :
  (Rabs a <= A)%R -> (Rabs b <= B)%R -> (Rabs (a * b) <= A * B)%R.
Proof.
  intros Ha Hb. rewrite Rabs_mult.
  apply Rmult_le_compat; try apply Rabs_pos; assumption.
Qed.

(** The last step of both coordinates: a value [t] close to [P * s] is
    multiplied by the rounded inverse of [s]. *)
Lemma scaled_back (t s : float) (P : R) :
  good32 t = true -> good32 s = true ->
  (/ 128 <= F2R s <= 128)%R ->
  (Rabs (P * F2R s) <= 131072)%R ->
  (Rabs (F2R t - P * F2R s) <= 56 / 1000)%R ->
  good32 (F32.mul t (F32.div f1 s)) = true
  /\ (Rabs (F2R (F32.mul t (F32.div f1 s)) - P) * F2R s <= / 10)%R.
Proof.
  intros Gt Gs Hs Hq Ht. pose proof eta_small as Heta.
  destruct (F32_inverse_bound s Gs) as [Gi Ei]; [lra|].
  remember (F2R s) as Sc eqn:ES.
  remember (F2R t) as T eqn:ET.
  remember (F2R (F32.div f1 s)) as Iv eqn:EI.
  remember (P * Sc)%R as q eqn:Eq.
  apply Rabs_between in Hq, Ht.
  assert (HT : (Rabs T <= 131073)%R) by (apply Rabs_le; lra).
  assert (Hth : (Rabs (Iv * Sc - 1) <= / 16777216 + 128 * eta)%R).
  { eapply Rle_trans; [exact Ei|].
    assert (eta * Sc <= eta * 128)%R by (apply Rmult_le_compat_l; lra).
    lra. }
  assert (HIS : (Rabs (Iv * Sc) <= 1001 / 1000)%R).
  { apply Rabs_between in Hth. apply Rabs_le. lra. }
  assert (HI : (Rabs Iv <= 129)%R).
  { replace Iv with (Iv * Sc * / Sc)%R by (field; lra).
    apply Rle_trans with (1001 / 1000 * 128)%R; [|lra].
    apply Rabs_mul_bound; [lra|].
    rewrite Rabs_pos_eq.
    - replace 128%R with (/ / 128)%R by field.
      apply Rinv_le_contravar; lra.
    - apply Rlt_le, Rinv_0_lt_compat. lra. }
  destruct (F32_mul_rel t (F32.div f1 s) (131073 * 129)) as [G E];
    try assumption.
  - rewrite <- ET, <- EI. apply Rabs_mul_bound; assumption.
  - lra.
  - split; [exact G|].
    rewrite <- ET, <- EI in E.
    remember (F2R (F32.mul t (F32.div f1 s))) as V eqn:EV.
    replace (Rabs (V - P) * Sc)%R with (Rabs ((V - P) * Sc))
      by (rewrite Rabs_mult, (Rabs_pos_eq Sc) by lra; reflexivity).
    (* the three parts of the error *)
    assert (K1 : (Rabs (T * (Iv * Sc - 1))
                  <= 131073 * (/ 16777216 + 128 * eta))%R)
      by (apply Rabs_mul_bound; assumption).
    assert (K2 : (Rabs ((V - T * Iv) * Sc)
                  <= 131073 * (1001 / 1000) / 16777216 + 128 * eta)%R).
    { rewrite Rabs_mult, (Rabs_pos_eq Sc) by lra.
      apply Rle_trans with ((Rabs (T * Iv) / 16777216 + eta) * Sc)%R.
      - apply Rmult_le_compat_r; [lra|exact E].
      - replace ((Rabs (T * Iv) / 16777216 + eta) * Sc)%R
          with (Rabs (T * Iv) * Rabs Sc / 16777216 + eta * Sc)%R
          by (rewrite (Rabs_pos_eq Sc) by lra; field).
        rewrite <- Rabs_mult.
        replace (T * Iv * Sc)%R with (T * (Iv * Sc))%R by ring.
        assert (Rabs (T * (Iv * Sc)) <= 131073 * (1001 / 1000))%R
          by (apply Rabs_mul_bound; assumption).
        assert (eta * Sc <= eta * 128)%R by (apply Rmult_le_compat_l; lra).
        lra. }
    replace ((V - P) * Sc)%R
      with ((V - T * Iv) * Sc + T * (Iv * Sc - 1) + (T - q))%R
      by (rewrite Eq; ring).
    apply Rabs_between in K1, K2.
    apply Rabs_le. lra.
Qed.

Lemma product_in_range (P Sc : R) :
  (Rabs P <= 1024)%R -> (/ 128 <= Sc <= 128)%R ->
  (Rabs (P * Sc) <= 131072)%R.
Proof.
  intros HP HS. replace 131072%R with (1024 * 128)%R by ring.
  apply Rabs_mul_bound; [exact HP|]. rewrite Rabs_pos_eq; lra.
Qed.

(** The x coordinate: [(c + o) + p * s] forth, [((. - c) - o) / s]
    back. *)
Lemma round_trip_x (c o p s : float) :
  good32 c = true -> good32 o = true ->
  good32 p = true -> good32 s = true ->
  (Rabs (F2R c) <= 8200)%R -> (Rabs (F2R o) <= 131072)%R ->
  (Rabs (F2R p) <= 1024)%R -> (/ 128 <= F2R s <= 128)%R ->
  good32 (F32.mul (F32.sub (F32.sub (F32.add (F32.add c o) (F32.mul p s)) c)
                           o)
                  (F32.div f1 s)) = true
  /\ (Rabs (F2R (F32.mul
                   (F32.sub (F32.sub (F32.add (F32.add c o) (F32.mul p s)) c)
                            o)
                   (F32.div f1 s))
            - F2R p) * F2R s <= / 10)%R.
Proof.
  intros Gc Go Gp Gs Hc Ho Hp Hs. pose proof eta_small as Heta.
  pose proof (product_in_range _ _ Hp Hs) as Hq.
  apply Rabs_between in Hc, Ho.
  destruct (F32_add_bound c o 139272) as [Ga Ea]; try assumption;
    [apply Rabs_le; lra|lra|].
  destruct (F32_mul_bound p s 131072) as [Gm Em]; try assumption; [lra|].
  remember (F2R c) as C. remember (F2R o) as Of.
  remember (F2R p * F2R s)%R as q.
  remember (F2R (F32.add c o)) as A.
  remember (F2R (F32.mul p s)) as M.
  apply Rabs_between in Ea, Em. pose proof Hq as Hq'.
  apply Rabs_between in Hq'.
  destruct (F32_add_bound (F32.add c o) (F32.mul p s) 270346) as [Gx Ex];
    try assumption; [rewrite <- HeqA, <- HeqM; apply Rabs_le; lra|lra|].
  rewrite <- HeqA, <- HeqM in Ex.
  remember (F2R (F32.add (F32.add c o) (F32.mul p s))) as X.
  apply Rabs_between in Ex.
  destruct (F32_sub_bound (F32.add (F32.add c o) (F32.mul p s)) c 262146)
    as [G1 E1]; try assumption;
    [rewrite <- HeqX, <- HeqC; apply Rabs_le; lra|lra|].
  rewrite <- HeqX, <- HeqC in E1.
  remember (F2R (F32.sub (F32.add (F32.add c o) (F32.mul p s)) c)) as T1.
  apply Rabs_between in E1.
  destruct (F32_sub_bound
              (F32.sub (F32.add (F32.add c o) (F32.mul p s)) c) o 131073)
    as [G2 E2]; try assumption;
    [rewrite <- HeqT1, <- HeqOf; apply Rabs_le; lra|lra|].
  rewrite <- HeqT1, <- HeqOf in E2.
  remember (F2R (F32.sub (F32.sub (F32.add (F32.add c o) (F32.mul p s)) c)
                         o)) as T2.
  apply Rabs_between in E2.
  apply scaled_back; try assumption.
  - rewrite <- Heqq. exact Hq.
  - rewrite <- HeqT2, <- Heqq. apply Rabs_le. lra.
Qed.

(** The y coordinate: [(c + o) - p * s] forth, [((- . + c) + o) / s]
    back. *)
Lemma round_trip_y (c o p s : float) :
  good32 c = true -> good32 o = true ->
  good32 p = true -> good32 s = true ->
  (Rabs (F2R c) <= 8200)%R -> (Rabs (F2R o) <= 131072)%R ->
  (Rabs (F2R p) <= 1024)%R -> (/ 128 <= F2R s <= 128)%R ->
  good32 (F32.mul
            (F32.add (F32.add (F32.opp (F32.sub (F32.add c o) (F32.mul p s)))
                              c)
                     o)
            (F32.div f1 s)) = true
  /\ (Rabs (F2R (F32.mul
                   (F32.add
                      (F32.add
                         (F32.opp (F32.sub (F32.add c o) (F32.mul p s))) c)
                      o)
                   (F32.div f1 s))
            - F2R p) * F2R s <= / 10)%R.
Proof.
  intros Gc Go Gp Gs Hc Ho Hp Hs. pose proof eta_small as Heta.
  pose proof (product_in_range _ _ Hp Hs) as Hq.
  apply Rabs_between in Hc, Ho.
  destruct (F32_add_bound c o 139272) as [Ga Ea]; try assumption;
    [apply Rabs_le; lra|lra|].
  destruct (F32_mul_bound p s 131072) as [Gm Em]; try assumption; [lra|].
  remember (F2R c) as C. remember (F2R o) as Of.
  remember (F2R p * F2R s)%R as q.
  remember (F2R (F32.add c o)) as A.
  remember (F2R (F32.mul p s)) as M.
  apply Rabs_between in Ea, Em. pose proof Hq as Hq'.
  apply Rabs_between in Hq'.
  destruct (F32_sub_bound (F32.add c o) (F32.mul p s) 270346) as [Gx Ex];
    try assumption; [rewrite <- HeqA, <- HeqM; apply Rabs_le; lra|lra|].
  rewrite <- HeqA, <- HeqM in Ex.
  remember (F2R (F32.sub (F32.add c o) (F32.mul p s))) as X.
  apply Rabs_between in Ex.
  assert (Gn : good32 (F32.opp (F32.sub (F32.add c o) (F32.mul p s))) = true)
    by (unfold good32, F32.opp; rewrite good_opp; exact Gx).
  assert (En : F2R (F32.opp (F32.sub (F32.add c o) (F32.mul p s)))
               = (- X)%R)
    by (unfold F32.opp; rewrite F2R_opp, HeqX; reflexivity).
  destruct (F32_add_bound
              (F32.opp (F32.sub (F32.add c o) (F32.mul p s))) c 262146)
    as [G1 E1]; try assumption;
    [rewrite En, <- HeqC; apply Rabs_le; lra|lra|].
  rewrite En, <- HeqC in E1.
  remember (F2R (F32.add (F32.opp (F32.sub (F32.add c o) (F32.mul p s))) c))
    as T1.
  apply Rabs_between in E1.
  destruct (F32_add_bound
              (F32.add (F32.opp (F32.sub (F32.add c o) (F32.mul p s))) c)
              o 131073)
    as [G2 E2]; try assumption;
    [rewrite <- HeqT1, <- HeqOf; apply Rabs_le; lra|lra|].
  rewrite <- HeqT1, <- HeqOf in E2.
  remember (F2R (F32.add
                   (F32.add (F32.opp (F32.sub (F32.add c o) (F32.mul p s)))
                            c) o)) as T2.
  apply Rabs_between in E2.
  apply scaled_back; try assumption.
  - rewrite <- Heqq. exact Hq.
  - rewrite <- HeqT2, <- Heqq. apply Rabs_le. lra.
Qed.

Lemma binary32_good (f : float) : binary32 f = true -> good32 f = true.
Proof.
  unfold binary32. intros H. apply andb_true_iff in H. destruct H as [Hf Hv].
  apply valid_good; [exact Hv|]. destruct f; try discriminate; exact I.
Qed.

Lemma good32_finite (f : float) : good32 f = true -> finite f = true.
Proof. destruct f; try discriminate; reflexivity. Qed.

Lemma half_size_bound (w : Z) :
  0 <= w <= 16384 ->
  good32 (F32.of_Z (w / 2)) = true
  /\ (Rabs (F2R (F32.of_Z (w / 2))) <= 8200)%R.
Proof.
  intros Hw. pose proof eta_small as Heta.
  assert (Hh : 0 <= w / 2 <= 8192).
  { split; [apply Z.div_pos; lia|].
    apply Z.div_le_upper_bound; lia. }
  assert (Hr : (0 <= IZR (w / 2) <= 8192)%R)
    by (split; apply IZR_le; lia).
  destruct (F32_of_Z_bound (w / 2) 8192) as [G E];
    [apply Rabs_le; lra|lra|].
  split; [exact G|]. apply Rabs_between in E. apply Rabs_le. lra.
Qed.

(** C7, as the program has it.  For a camera and a world point within
    range (scale from 1/128 to 128, offsets up to 131072, window up to
    16384 pixels each way, coordinates up to 1024, all of them binary32
    numbers), [toScreenSpace] followed by [fromScreenSpace] returns a
    point of finite coordinates that lies within a tenth of a pixel of
    the original in each coordinate: the difference times the scale is
    at most 1/10. *)
Theorem round_trip_in_range (r : Renderer.t) (p : Vector2) :
  in_camera_range r -> in_world_range p ->
  finite (x (Renderer.fromScreenSpace r (Renderer.toScreenSpace r p))) = true
  /\ finite (y (Renderer.fromScreenSpace r (Renderer.toScreenSpace r p)))
     = true
  /\ (Rabs (F2R (x (Renderer.fromScreenSpace r (Renderer.toScreenSpace r p)))
            - F2R (x p))
      * F2R (Renderer.scale (Renderer.options r)) <= / 10)%R
  /\ (Rabs (F2R (y (Renderer.fromScreenSpace r (Renderer.toScreenSpace r p)))
            - F2R (y p))
      * F2R (Renderer.scale (Renderer.options r)) <= / 10)%R.
Proof.
  intros (Bs & Box & Boy & Hs & Hox & Hoy & Hw & Hh) (Bx & By & Hx & Hy).
  apply binary32_good in Bs, Box, Boy, Bx, By.
  destruct (half_size_bound _ Hw) as [Gw Cw].
  destruct (half_size_bound _ Hh) as [Gh Ch].
  unfold Renderer.fromScreenSpace, Renderer.toScreenSpace, RVO.divide.
  cbn [x y].
  destruct (round_trip_x _ _ _ _ Gw Box Bx Bs Cw Hox Hx Hs) as [G1 E1].
  destruct (round_trip_y _ _ _ _ Gh Boy By Bs Ch Hoy Hy Hs) as [G2 E2].
  split; [apply good32_finite; exact G1|].
  split; [apply good32_finite; exact G2|].
  split; [exact E1|exact E2].
Qed.

(** Powers of two with a negative literal exponent. *)
Lemma bpow_neg (p : positive) : bpow (Zneg p) = (/ IZR (2 ^ Zpos p))%R.
Proof.
  assert (H : (bpow (Zneg p) * bpow (Zpos p) = 1)%R).
  { rewrite <- bpow_add. replace (Zneg p + Zpos p) with 0 by lia.
    reflexivity. }
  rewrite (bpow_IZR (Zpos p)) in H by lia.
  assert (0 < IZR (2 ^ Zpos p))%R
    by (apply IZR_lt, Z.pow_pos_nonneg; lia).
  apply Rmult_eq_reg_r with (IZR (2 ^ Zpos p)); [|lra].
  rewrite H. field. lra.
Qed.

Lemma round_trip_in_range_witness :
  in_camera_range default_renderer
  /\ in_world_range (v2 10 20)
  /\ Renderer.fromScreenSpace default_renderer
       (Renderer.toScreenSpace default_renderer (v2 10 20))
     = v2 10 20
  /\ (Rabs (F2R (x (Renderer.fromScreenSpace default_renderer
                      (Renderer.toScreenSpace default_renderer (v2 10 20))))
            - F2R (x (v2 10 20)))
      * F2R (Renderer.scale (Renderer.options default_renderer)) <= / 10)%R.
Proof.
  assert (Hc : in_camera_range default_renderer).
  { unfold in_camera_range.
    change (Renderer.scale (Renderer.options default_renderer))
      with (S754_finite false 12582912 (-23)).
    change (Renderer.offset_x (Renderer.options default_renderer))
      with (S754_finite false 9830400 (-15)).
    change (Renderer.offset_y (Renderer.options default_renderer))
      with (S754_zero false).
    cbn [F2R cond_Zopp Renderer.width Renderer.height default_renderer].
    rewrite !bpow_neg.
    change (2 ^ 23) with 8388608. change (2 ^ 15) with 32768.
    repeat split; try reflexivity; try lia; try lra;
      try (apply Rabs_le; lra). }
  assert (Hp : in_world_range (v2 10 20)).
  { unfold in_world_range.
    change (x (v2 10 20)) with (S754_finite false 10485760 (-20)).
    change (y (v2 10 20)) with (S754_finite false 10485760 (-19)).
    cbn [F2R cond_Zopp].
    rewrite !bpow_neg.
    change (2 ^ 20) with 1048576. change (2 ^ 19) with 524288.
    repeat split; try reflexivity; apply Rabs_le; lra. }
  split; [exact Hc|]. split; [exact Hp|].
  split; [vm_compute; reflexivity|].
  apply (round_trip_in_range default_renderer (v2 10 20) Hc Hp).
Defined.

(** C7 as stated fails: not for every scale above zero, every offset and
    every point.  At the scale 2^-149, which 45 wheel gestures of -90
    reach from the default, the point (10, 20) comes back as (NaN, NaN);
    with the default camera a coordinate of [FLT_MAX] comes back as
    infinity; at scale 1 with an offset of 2^25 the point (1, 0) comes
    back as (0, 0). *)
Lemma round_trip_fails :
  F32.ltb f0 FLT_TRUE_MIN = true
  /\ wheel_gestures f1_5 (repeat (-90) 45) = FLT_TRUE_MIN
  /\ Renderer.fromScreenSpace tiny_scale_renderer
       (Renderer.toScreenSpace tiny_scale_renderer (v2 10 20))
     = mkVector2 S754_nan S754_nan
  /\ x (Renderer.fromScreenSpace default_renderer
          (Renderer.toScreenSpace default_renderer
             (mkVector2 FLT_MAX (F32.of_Z 20))))
     = S754_infinity false
  /\ Renderer.fromScreenSpace far_offset_renderer
       (Renderer.toScreenSpace far_offset_renderer (v2 1 0))
     = v2 0 0
  /\ v2 1 0 <> v2 0 0.
Proof.
  repeat split; try (vm_compute; reflexivity).
  vm_compute. discriminate.
Qed.
